(** * pdf-fts: the page store, its full-text index and the scan pipeline

    A shallow embedding of [internal/database] (the [pdfs] table, the
    [pdfs_fts] FTS5 table, the three triggers, [UpsertPDFData],
    [GetStoredHash], [Search], [LiveSearch], [RebuildFTS]) and of the two
    scan phases of [internal/cmd/scan.go] ([checkHashes], [processPDFs]).

    The SQL statements of the source are read as functions on the rows of
    the two tables.  A table is the list of its rows in rowid order: an
    INSERT appends, a DELETE filters.  What SQLite itself may do wrong
    (an I/O error, a busy database, a full disk) is an input of every
    operation: the number of the engine call that fails, if any. *)

From Stdlib Require Import List String Ascii ZArith Bool Arith Lia.
From Stdlib Require Import Sorted Permutation.
From Stdlib Require OrderedTypeEx.
From Stdlib Require Import NArith.
Import ListNotations.

Local Open Scope Z_scope.

(* ================================================================= *)
(** ** Errors *)

(** What the engine can answer instead of doing a statement. *)
Inductive SqlError : Type :=
| IOFailure          (* disk, lock or connection trouble *)
| UniqueViolation    (* PRIMARY KEY (path, page_num) of pdfs *)
| NoSuchTable        (* pdfs_fts is named while it does not exist *)
| MatchSyntax.       (* the operand of MATCH is not an FTS5 query *)

Inductive fmt_arg : Type :=
| S_ (s : string)
| D_ (d : Z).

(** [fmt.Errorf(format, args..., err)] with a trailing [%w]. *)
Inductive error : Type :=
| Errorf (format : string) (args : list fmt_arg) (cause : SqlError).

Inductive result (A : Type) : Type :=
| Ok (a : A)
| Err (e : SqlError).
Arguments Ok {A} a.
Arguments Err {A} e.

(** The engine call that fails in the current operation, counted from 0
    in the order the operation makes its calls; [None]: the engine does
    all it is asked. *)
Definition Faults := option nat.

Definition fails (f : Faults) (k : nat) : bool :=
  match f with
  | Some j => Nat.eqb j k
  | None => false
  end.

(* ================================================================= *)
(** ** Tables *)

Definition Timestamp := Z.

(** A row of [pdfs]:
    path TEXT NOT NULL, page_num INTEGER NOT NULL, hash TEXT NOT NULL,
    content TEXT, last_scanned TIMESTAMP; PRIMARY KEY (path, page_num). *)
Record Page : Type := mkPage {
  path : string;
  page_num : Z;
  hash : string;
  content : option string;        (* the column is nullable *)
  last_scanned : Timestamp
}.

(** A row of [pdfs_fts]: path UNINDEXED, page_num UNINDEXED, content_idx. *)
Record IndexEntry : Type := mkEntry {
  fts_path : string;
  fts_page_num : Z;
  content_idx : option string
}.

(** Which of the three triggers of [createTriggers] exist. *)
Record Triggers : Type := mkTriggers {
  pdfs_after_insert : bool;
  pdfs_after_delete : bool;
  pdfs_after_update_content : bool
}.

(** The database file: the rows of [pdfs], the rows of [pdfs_fts] when
    that virtual table exists, and the triggers. *)
Record DB : Type := mkDB {
  pdfs : list Page;
  pdfs_fts : option (list IndexEntry);
  triggers : Triggers
}.

Definition no_triggers : Triggers := mkTriggers false false false.
Definition all_triggers : Triggers := mkTriggers true true true.

(** A database file in which [CREATE TABLE IF NOT EXISTS pdfs] has just
    run and nothing else. *)
Definition blank : DB := mkDB [] None no_triggers.

Definition same_pk (a b : Page) : bool :=
  String.eqb (path a) (path b) && Z.eqb (page_num a) (page_num b).

(** [path = r.path AND page_num = r.page_num] on a row of [pdfs_fts]. *)
Definition entry_at (r : Page) (e : IndexEntry) : bool :=
  String.eqb (fts_path e) (path r) && Z.eqb (fts_page_num e) (page_num r).

(* ----------------------------------------------------------------- *)
(** *** The trigger bodies of [createTriggers] *)

(** INSERT INTO pdfs_fts (path, page_num, content_idx)
    VALUES (new.path, new.page_num, new.content) *)
Definition after_insert_body (new : Page) (es : list IndexEntry)
  : list IndexEntry :=
  (es ++ [mkEntry (path new) (page_num new) (content new)])%list.

(** DELETE FROM pdfs_fts WHERE path = old.path AND page_num = old.page_num *)
Definition after_delete_body (old : Page) (es : list IndexEntry)
  : list IndexEntry :=
  filter (fun e => negb (entry_at old e)) es.

Definition option_string_eqb (a b : option string) : bool :=
  match a, b with
  | Some x, Some y => String.eqb x y
  | None, None => true
  | _, _ => false
  end.

(** WHEN new.content IS NOT old.content:
    UPDATE pdfs_fts SET content_idx = new.content
    WHERE path = new.path AND page_num = new.page_num *)
Definition after_update_content_body (old new : Page) (es : list IndexEntry)
  : list IndexEntry :=
  if option_string_eqb (content new) (content old) then es
  else map (fun e => if entry_at new e
                     then mkEntry (fts_path e) (fts_page_num e) (content new)
                     else e) es.

(* ----------------------------------------------------------------- *)
(** *** The statements the source sends *)

(** A statement whose trigger program names [pdfs_fts] compiles only
    while that table exists. *)
Definition compiles (fired : bool) (db : DB) : bool :=
  match pdfs_fts db with
  | Some _ => true
  | None => negb fired
  end.

(** DELETE FROM pdfs WHERE path = ?   (with pdfs_after_delete, for each
    deleted row) *)
Definition delete_pages (filePath : string) (db : DB) : result DB :=
  let old := filter (fun r => String.eqb (path r) filePath) (pdfs db) in
  let kept := filter (fun r => negb (String.eqb (path r) filePath)) (pdfs db) in
  if pdfs_after_delete (triggers db) then
    match pdfs_fts db with
    | None => Err NoSuchTable
    | Some es =>
        Ok (mkDB kept
                 (Some (fold_left (fun es r => after_delete_body r es) old es))
                 (triggers db))
    end
  else Ok (mkDB kept (pdfs_fts db) (triggers db)).

(** INSERT INTO pdfs (path, page_num, hash, content, last_scanned)
    VALUES (?, ?, ?, ?, CURRENT_TIMESTAMP)   (with pdfs_after_insert) *)
Definition insert_page (r : Page) (db : DB) : result DB :=
  if existsb (same_pk r) (pdfs db) then Err UniqueViolation
  else if pdfs_after_insert (triggers db) then
    match pdfs_fts db with
    | None => Err NoSuchTable
    | Some es =>
        Ok (mkDB (pdfs db ++ [r]) (Some (after_insert_body r es)) (triggers db))
    end
  else Ok (mkDB (pdfs db ++ [r]) (pdfs_fts db) (triggers db)).

(** One call of the engine: it fails if the fault falls on it, and does
    the statement otherwise. *)
Definition exec {A : Type} (f : Faults) (k : nat) (stmt : result A)
  : result A :=
  if fails f k then Err IOFailure else stmt.

(** [tx.Prepare] of the INSERT above. *)
Definition prepare_insert (db : DB) : result unit :=
  if compiles (pdfs_after_insert (triggers db)) db then Ok tt
  else Err NoSuchTable.

(* ================================================================= *)
(** ** UpsertPDFData *)

(** The loop [for pageNum, content := range pageContents] on the
    transaction's working copy; engine calls 3, 4, ...  The clock gives
    CURRENT_TIMESTAMP at each INSERT.  On failure: the index of the page
    and the cause. *)
Fixpoint insert_pages (f : Faults) (clock : nat -> Timestamp)
  (filePath hash : string) (pageNum : nat) (pageContents : list string)
  (tx : DB) : DB + (nat * SqlError) :=
  match pageContents with
  | [] => inl tx
  | content :: rest =>
      match exec f (3 + pageNum)
              (insert_page (mkPage filePath (Z.of_nat pageNum + 1) hash
                                   (Some content) (clock pageNum)) tx) with
      | Err c => inr (pageNum, c)
      | Ok tx' => insert_pages f clock filePath hash (S pageNum) rest tx'
      end
  end.

(** The deferred [tx.Rollback()]: the working copy [tx] of the
    transaction is dropped and the file holds what it held at [Begin]. *)
Definition Rollback (db tx : DB) : DB := db.

(** [db] is what the file holds; the transaction works on a copy [tx],
    which becomes the file at a successful COMMIT.  A COMMIT that fails
    leaves the transaction to the rollback like any other failure. *)
Definition UpsertPDFData (f : Faults) (clock : nat -> Timestamp) (db : DB)
  (filePath hash : string) (pageContents : list string) : DB * option error :=
  match exec f 0 (Ok db) with                                (* db.Begin() *)
  | Err c => (db, Some (Errorf "beginning transaction for %s: %w"
                               [S_ filePath] c))
  | Ok tx =>
  match exec f 1 (delete_pages filePath tx) with
  | Err c => (Rollback db tx,
              Some (Errorf "deleting existing pages for %s: %w"
                           [S_ filePath] c))
  | Ok tx =>
  match exec f 2 (prepare_insert tx) with
  | Err c => (Rollback db tx,
              Some (Errorf "preparing insert statement for %s: %w"
                           [S_ filePath] c))
  | Ok _ =>
  match insert_pages f clock filePath hash 0 pageContents tx with
  | inr (pageNum, c) =>
      (Rollback db tx,
       Some (Errorf "inserting page %d for %s: %w"
                    [D_ (Z.of_nat pageNum + 1); S_ filePath] c))
  | inl tx =>
  match exec f (3 + List.length pageContents) (Ok tx) with   (* tx.Commit() *)
  | Err c => (Rollback db tx,
              Some (Errorf "committing transaction for %s: %w"
                           [S_ filePath] c))
  | Ok committed => (committed, None)
  end end end end end.

(* ================================================================= *)
(** ** GetStoredHash *)

(** SELECT hash FROM pdfs WHERE path = ? LIMIT 1, read here as the first
    row of the path in rowid order.  [sql.ErrNoRows] gives the empty
    string and no error. *)
Definition GetStoredHash (f : Faults) (db : DB) (filePath : string)
  : string * option error :=
  match exec f 0 (Ok (find (fun r => String.eqb (path r) filePath)
                           (pdfs db))) with
  | Err c => (EmptyString, Some (Errorf "querying stored hash for %s: %w"
                                        [S_ filePath] c))
  | Ok None => (EmptyString, None)
  | Ok (Some r) => (hash r, None)
  end.

(* ================================================================= *)
(** ** Schema: createFTSTable, createTriggers, initSchema *)

Inductive TriggerName : Type :=
| after_insert
| after_delete
| after_update_content.

Definition trigger_ident (t : TriggerName) : string :=
  match t with
  | after_insert => "pdfs_after_insert"
  | after_delete => "pdfs_after_delete"
  | after_update_content => "pdfs_after_update_content"
  end.

Definition set_trigger (t : TriggerName) (b : bool) (ts : Triggers)
  : Triggers :=
  match t with
  | after_insert =>
      mkTriggers b (pdfs_after_delete ts) (pdfs_after_update_content ts)
  | after_delete =>
      mkTriggers (pdfs_after_insert ts) b (pdfs_after_update_content ts)
  | after_update_content =>
      mkTriggers (pdfs_after_insert ts) (pdfs_after_delete ts) b
  end.

(** CREATE TRIGGER IF NOT EXISTS t ... *)
Definition create_trigger (t : TriggerName) (db : DB) : DB :=
  mkDB (pdfs db) (pdfs_fts db) (set_trigger t true (triggers db)).

(** DROP TRIGGER IF EXISTS t *)
Definition drop_trigger (t : TriggerName) (db : DB) : DB :=
  mkDB (pdfs db) (pdfs_fts db) (set_trigger t false (triggers db)).

(** CREATE VIRTUAL TABLE IF NOT EXISTS pdfs_fts USING fts5(...) *)
Definition create_fts_table (db : DB) : DB :=
  match pdfs_fts db with
  | Some _ => db
  | None => mkDB (pdfs db) (Some []) (triggers db)
  end.

(** DROP TABLE IF EXISTS pdfs_fts *)
Definition drop_fts_table (db : DB) : DB :=
  mkDB (pdfs db) None (triggers db).

(** [createFTSTable(exec)]: one engine call, numbered [k], on the state
    the executor works on. *)
Definition createFTSTable (f : Faults) (k : nat) (db : DB)
  : DB * option error :=
  match exec f k (Ok (create_fts_table db)) with
  | Err c => (db, Some (Errorf "creating/configuring pdfs_fts table: %w" [] c))
  | Ok db' => (db', None)
  end.

Definition trigger_names : list TriggerName :=
  [after_insert; after_delete; after_update_content].

(** The loop of [createTriggers]: engine calls [k], [k+1], ...; it stops
    at the first one that fails, with the earlier triggers created. *)
Fixpoint create_triggers_from (f : Faults) (k : nat) (ts : list TriggerName)
  (db : DB) : DB * option error :=
  match ts with
  | [] => (db, None)
  | t :: rest =>
      match exec f k (Ok (create_trigger t db)) with
      | Err c => (db, Some (Errorf "creating trigger %s: %w"
                                   [S_ (trigger_ident t)] c))
      | Ok db' => create_triggers_from f (S k) rest db'
      end
  end.

Definition createTriggers (f : Faults) (k : nat) (db : DB)
  : DB * option error :=
  create_triggers_from f k trigger_names db.

(** [initSchema], outside any transaction: what a statement has done
    stays done when a later one fails. *)
Definition initSchema (f : Faults) (db : DB) : DB * option error :=
  match exec f 0 (Ok db) with            (* CREATE TABLE IF NOT EXISTS pdfs *)
  | Err c => (db, Some (Errorf "creating pdfs table: %w" [] c))
  | Ok db =>
  match createFTSTable f 1 db with
  | (db, Some e) => (db, Some e)
  | (db, None) => createTriggers f 2 db
  end end.

(** The store of a database file on which [New] has just succeeded for
    the first time (after any number of attempts that failed, see
    [New_from_blank]). *)
Definition fresh : DB := fst (initSchema None blank).

(* ================================================================= *)
(** ** RebuildFTS *)

(** The loop that drops the triggers: engine calls [k], [k+1], ... *)
Fixpoint drop_triggers_from (f : Faults) (k : nat) (ts : list TriggerName)
  (db : DB) : DB * option error :=
  match ts with
  | [] => (db, None)
  | t :: rest =>
      match exec f k (Ok (drop_trigger t db)) with
      | Err c => (db, Some (Errorf "dropping trigger %s: %w"
                                   [S_ (trigger_ident t)] c))
      | Ok db' => drop_triggers_from f (S k) rest db'
      end
  end.

(** INSERT INTO pdfs_fts (path, page_num, content_idx) VALUES (?, ?, ?) *)
Definition insert_entry (e : IndexEntry) (db : DB) : result DB :=
  match pdfs_fts db with
  | None => Err NoSuchTable
  | Some es => Ok (mkDB (pdfs db) (Some (es ++ [e])%list) (triggers db))
  end.

(** [for rows.Next()]: a row whose content is NULL does not scan into a
    Go string and is skipped with a warning; every other row costs one
    engine call, numbered [11 + repopulatedCount].  The cursor itself is
    taken to deliver every row of the table. *)
Fixpoint repopulate (f : Faults) (repopulatedCount : nat) (rows : list Page)
  (tx : DB) : (DB * nat) + error :=
  match rows with
  | [] => inl (tx, repopulatedCount)
  | r :: rest =>
      match content r with
      | None => repopulate f repopulatedCount rest tx
      | Some c =>
          match exec f (11 + repopulatedCount)
                  (insert_entry (mkEntry (path r) (page_num r) (Some c))
                                tx) with
          | Err e => inr (Errorf "inserting into FTS table for %s page %d: %w"
                                 [S_ (path r); D_ (page_num r)] e)
          | Ok tx' => repopulate f (S repopulatedCount) rest tx'
          end
      end
  end.

Definition RebuildFTS (f : Faults) (db : DB) : DB * option error :=
  match exec f 0 (Ok db) with                                (* db.Begin() *)
  | Err c => (db, Some (Errorf "beginning transaction: %w" [] c))
  | Ok tx =>
  match drop_triggers_from f 1 trigger_names tx with
  | (tx, Some e) => (Rollback db tx, Some e)
  | (tx, None) =>
  match exec f 4 (Ok (drop_fts_table tx)) with
  | Err c => (Rollback db tx,
              Some (Errorf "dropping pdfs_fts table: %w" [] c))
  | Ok tx =>
  match createFTSTable f 5 tx with
  | (tx, Some e) => (Rollback db tx, Some e)
  | (tx, None) =>
  match createTriggers f 6 tx with
  | (tx, Some e) => (Rollback db tx, Some e)
  | (tx, None) =>
  match exec f 9 (Ok (pdfs tx)) with
                            (* SELECT path, page_num, content FROM pdfs *)
  | Err c => (Rollback db tx,
              Some (Errorf "querying pdfs table for repopulation: %w" [] c))
  | Ok rows =>
  match exec f 10 (match pdfs_fts tx with
                   | Some _ => Ok tt
                   | None => Err NoSuchTable
                   end) with                                 (* tx.Prepare *)
  | Err c => (Rollback db tx,
              Some (Errorf "preparing FTS insert statement: %w" [] c))
  | Ok _ =>
  match repopulate f 0 rows tx with
  | inr e => (Rollback db tx, Some e)
  | inl (tx, repopulatedCount) =>
  match exec f (11 + repopulatedCount) (Ok tx) with          (* tx.Commit() *)
  | Err c => (Rollback db tx,
              Some (Errorf "committing FTS rebuild transaction: %w" [] c))
  | Ok committed => (committed, None)
  end end end end end end end end end.

(* ================================================================= *)
(** ** Search and LiveSearch *)

(** The FTS5 extension, as far as the two queries use it.  Only
    [content_idx] is indexed, so whether a row matches depends on that
    column alone; the rank of a row also depends on the rest of the
    index.  Ranks are real numbers in the engine; they are read here
    through any order-preserving coding into the integers. *)
Class FTS5 : Type := {
  fts5_query_ok : string -> bool;
  fts5_match : string -> option string -> bool;
  fts5_snippet : string -> option string ->
                 string -> string -> string -> Z -> string;
  fts5_rank : string -> list IndexEntry -> IndexEntry -> Z
}.

(** What a [*sql.Rows] gives to its reader: the rows that [Next] and
    [Scan] deliver, and then [rows.Err()].  [db.Query] prepares the
    statement and binds its operands; the statement is first stepped by
    [Next], so an error of the first step, as the one of a malformed MATCH
    operand, is found in [rows.Err()] and not in the error of the
    query. *)
Record Rows (R : Type) : Type := mkRows {
  rows_Next : list R;
  rows_Err : option SqlError
}.
Arguments mkRows {R} _ _.
Arguments rows_Next {R} _.
Arguments rows_Err {R} _.

(** A row of the result of [Search]. *)
Record SearchRow : Type := mkSearchRow {
  row_path : string;
  row_page_num : Z;
  row_snippet : string;
  row_last_scanned : Timestamp
}.

(** A row of the result of [LiveSearch], with the rank it is ordered by. *)
Record LiveRow : Type := mkLiveRow {
  live_path : string;
  live_page_num : Z;
  live_snippet : string;
  live_rank : Z
}.


Section Sorting.
Context {A : Type} (leb : A -> A -> bool).

Fixpoint insert_by (x : A) (l : list A) : list A :=
  match l with
  | [] => [x]
  | y :: l' => if leb x y then x :: l else y :: insert_by x l'
  end.

(** ORDER BY, as a stable insertion sort. *)
Fixpoint sort_by (l : list A) : list A :=
  match l with
  | [] => []
  | x :: l' => insert_by x (sort_by l')
  end.
End Sorting.

(** LIMIT ?: a negative operand means no limit. *)
Definition sql_limit {A : Type} (limit : Z) (rows : list A) : list A :=
  if limit <? 0 then rows else firstn (Z.to_nat limit) rows.

(** ORDER BY p.path, p.page_num; TEXT compares bytewise. *)
Definition by_path_page (a b : SearchRow) : bool :=
  String.ltb (row_path a) (row_path b)
  || (String.eqb (row_path a) (row_path b)
      && (row_page_num a <=? row_page_num b)).

(** ORDER BY rank *)
Definition by_rank (a b : LiveRow) : bool := live_rank a <=? live_rank b.

Section Queries.
Context {engine : FTS5}.

(** FROM pdfs_fts JOIN pdfs AS p ON pdfs_fts.path = p.path
    AND pdfs_fts.page_num = p.page_num WHERE pdfs_fts MATCH ?,
    with the select list of [Search]. *)
Definition search_join (queryTerm : string) (es : list IndexEntry)
  (ps : list Page) : list SearchRow :=
  flat_map
    (fun e =>
       map (fun p => mkSearchRow (path p) (page_num p)
                       (fts5_snippet queryTerm (content_idx e)
                                     "[HL]" "[/HL]" "..." 25)
                       (last_scanned p))
           (filter (fun p => entry_at p e) ps))
    (filter (fun e => fts5_match queryTerm (content_idx e)) es).

(** The same join with the select list of [LiveSearch]. *)
Definition live_join (queryTerm : string) (es : list IndexEntry)
  (ps : list Page) : list LiveRow :=
  flat_map
    (fun e =>
       map (fun p => mkLiveRow (path p) (page_num p)
                       (fts5_snippet queryTerm (content_idx e)
                                     ">>>" "<<<" " ... " 15)
                       (fts5_rank queryTerm es e))
           (filter (fun p => entry_at p e) ps))
    (filter (fun e => fts5_match queryTerm (content_idx e)) es).

(** What [db.Query] answers to a MATCH query on the index.  The query
    itself fails when the engine call does, or when the statement cannot
    be prepared because pdfs_fts is missing.  Otherwise it returns rows
    and no error: those of the query when the operand of MATCH is an
    FTS5 query, and, when it is not, no row and the syntax error in
    [rows.Err()]. *)
Definition match_query {R : Type} (f : Faults) (db : DB) (queryTerm : string)
  (rows : list IndexEntry -> list R) : result (Rows R) :=
  exec f 0 (match pdfs_fts db with
            | None => Err NoSuchTable
            | Some es =>
                if fts5_query_ok queryTerm then Ok (mkRows (rows es) None)
                else Ok (mkRows [] (Some MatchSyntax))
            end).

(** The rows of the Go result are [None] for a nil pointer. *)
Definition Search (f : Faults) (db : DB) (queryTerm : string) (limit : Z)
  : option (Rows SearchRow) * option SqlError :=
  match match_query f db queryTerm
          (fun es => sql_limit limit
                       (sort_by by_path_page
                                (search_join queryTerm es (pdfs db)))) with
  | Ok rows => (Some rows, None)
  | Err c => (None, Some c)
  end.

Definition LiveSearch (f : Faults) (db : DB) (queryTerm : string) (limit : Z)
  : option (Rows LiveRow) * option SqlError :=
  if String.eqb queryTerm "" then (None, None)
  else
    match match_query f db queryTerm
            (fun es => sql_limit limit
                         (sort_by by_rank
                                  (live_join queryTerm es (pdfs db)))) with
    | Ok rows => (Some rows, None)
    | Err c => (None, Some c)
    end.

End Queries.

(* ================================================================= *)
(** ** The extractor: HashFile and ExtractPagesText *)

(** What [pdf.Extractor] reaches outside the program: the bytes of a
    file ([None]: [os.Open] or [io.Copy] fails), SHA-1 (the 20-byte sum
    as a number below 2^160), the pages MuPDF finds in a file ([None]:
    [fitz.New] fails; per page, [None]: [doc.Text] fails), and
    [CleanText], a total function: the transformers it chains report no
    error, so the panic of [normalizeUnicode] is not reached. *)
Record Extractor : Type := mkExtractor {
  read_file : string -> option (list Byte.byte);
  sha1_Sum : list Byte.byte -> N;
  fitz_pages : string -> option (list (option string));
  CleanText : string -> string
}.

Definition hex_char (d : N) : ascii :=
  match String.get (N.to_nat d) "0123456789abcdef" with
  | Some c => c
  | None => "0"%char
  end.

(** The [k] lowest hexadecimal digits of [n], highest first. *)
Fixpoint hex_digits (k : nat) (n : N) : string :=
  match k with
  | O => EmptyString
  | S k' =>
      String (hex_char (N.land (N.shiftr n (4 * N.of_nat k')) 15))
             (hex_digits k' n)
  end.

(** [hex.EncodeToString(hasher.Sum(nil))]: 20 bytes, 40 digits. *)
Definition HashFile (e : Extractor) (filePath : string) : option string :=
  match read_file e filePath with
  | None => None
  | Some bytes => Some (hex_digits 40 (sha1_Sum e bytes))
  end.

(** A page whose text cannot be extracted contributes the empty string. *)
Definition ExtractPagesText (e : Extractor) (pdfPath : string)
  : option (list string) :=
  match fitz_pages e pdfPath with
  | None => None
  | Some pages =>
      Some (map (fun p => match p with
                          | None => EmptyString
                          | Some text => CleanText e text
                          end) pages)
  end.

(* ================================================================= *)
(** ** The scan phases: checkHashes and processPDFs *)

Record PDFFileInfo : Type := mkPDFFileInfo {
  Path : string;
  CurrentHash : string;
  StoredHash : string;
  NeedsUpdate : bool
}.

(** A line on stderr: the format and the path it is printed for. *)
Inductive Warning : Type :=
| Warn (format : string) (p : string).

(** The loop of [checkHashes] from the [i]-th file on: the entries
    appended and the warnings printed, in the order of the files.
    [faults i] is the fault of the [GetStoredHash] call made for the
    [i]-th file. *)
Fixpoint check_hashes_from (pdfProcessor : Extractor) (faults : nat -> Faults)
  (db : DB) (forceRescan : bool) (i : nat) (pdfFiles : list string)
  : list PDFFileInfo * list Warning :=
  match pdfFiles with
  | [] => ([], [])
  | p :: rest =>
      let (filesToProcess, warnings) :=
        check_hashes_from pdfProcessor faults db forceRescan (S i) rest in
      match HashFile pdfProcessor p with
      | None =>
          (filesToProcess,
           Warn "Warning: Failed to calculate hash for %s: %v\n" p :: warnings)
      | Some currentHash =>
          match GetStoredHash (faults i) db p with
          | (_, Some _) =>
              (filesToProcess,
               Warn "Warning: Failed to get stored hash for %s: %v\n" p
                 :: warnings)
          | (storedHash, None) =>
              let needsUpdate :=
                forceRescan || negb (String.eqb currentHash storedHash) in
              if needsUpdate
              then (mkPDFFileInfo p currentHash storedHash true
                    :: filesToProcess,
                  warnings)
              else (filesToProcess, warnings)
          end
      end
  end.

(** The slice and the error [checkHashes] returns, and what it wrote on
    stderr. *)
Definition checkHashes (pdfProcessor : Extractor) (faults : nat -> Faults)
  (db : DB) (pdfFiles : list string) (forceRescan : bool)
  : (list PDFFileInfo * option error) * list Warning :=
  let (filesToProcess, warnings) :=
    check_hashes_from pdfProcessor faults db forceRescan 0 pdfFiles in
  ((filesToProcess, None), warnings).

(** What the loop of [processPDFs] writes for one document: a warning on
    stderr, or the line "Updated database entry for" of the log. *)
Inductive Outcome : Type :=
| FailedToProcess (p : string)          (* extraction failed *)
| FailedToStore (p : string) (e : error) (* the transaction failed *)
| Updated (p : string).

Record Processed : Type := mkProcessed {
  store : DB;                   (* the database when the loop ends *)
  count : nat;                  (* the int returned: processedCount *)
  returned : option error;      (* the error returned *)
  outcomes : list Outcome       (* one per document, in order *)
}.

Definition and_then (o : Outcome) (r : Processed) : Processed :=
  mkProcessed (store r) (count r) (returned r) (o :: outcomes r).

(** The loop of [processPDFs] from the [i]-th document on.  [faults i]
    and [clock i] are the fault and the clock of its [UpsertPDFData]. *)
Fixpoint process_from (pdfProcessor : Extractor) (faults : nat -> Faults)
  (clock : nat -> nat -> Timestamp) (i : nat) (processedCount : nat)
  (db : DB) (filesToProcess : list PDFFileInfo) : Processed :=
  match filesToProcess with
  | [] => mkProcessed db processedCount None []
  | fileInfo :: rest =>
      match ExtractPagesText pdfProcessor (Path fileInfo) with
      | None =>
          and_then (FailedToProcess (Path fileInfo))
            (process_from pdfProcessor faults clock (S i)
                          processedCount db rest)
      | Some pageContents =>
          match UpsertPDFData (faults i) (clock i) db (Path fileInfo)
                  (CurrentHash fileInfo) pageContents with
          | (db', Some e) =>
              and_then (FailedToStore (Path fileInfo) e)
                (process_from pdfProcessor faults clock (S i)
                              processedCount db' rest)
          | (db', None) =>
              and_then (Updated (Path fileInfo))
                (process_from pdfProcessor faults clock (S i)
                              (S processedCount) db' rest)
          end
      end
  end.

Definition processPDFs (pdfProcessor : Extractor) (faults : nat -> Faults)
  (clock : nat -> nat -> Timestamp) (db : DB)
  (filesToProcess : list PDFFileInfo) : Processed :=
  process_from pdfProcessor faults clock 0 0 db filesToProcess.

(* ================================================================= *)
(** ** Histories of the store *)

(** What a command does to the database file, with the fault it meets:
    it opens it ([database.New], which runs [initSchema]), and then
    upserts documents or rebuilds the index. *)
Inductive Call : Type :=
| CallNew (f : Faults)
| CallUpsert (f : Faults) (clock : nat -> Timestamp) (filePath hash : string)
             (pageContents : list string)
| CallRebuild (f : Faults).

Definition call (db : DB) (c : Call) : DB :=
  match c with
  | CallNew f => fst (initSchema f db)
  | CallUpsert f clock filePath hash pageContents =>
      fst (UpsertPDFData f clock db filePath hash pageContents)
  | CallRebuild f => fst (RebuildFTS f db)
  end.

(** The store after the calls of a history, made one after the other. *)
Definition run (history : list Call) (db : DB) : DB :=
  fold_left call history db.

(* ----------------------------------------------------------------- *)
(** *** Predicates the theorems are stated with *)

(** The Page the [i]-th entry of a call of [UpsertPDFData] becomes. *)
Definition page_of (clock : nat -> Timestamp) (filePath hash : string)
  (i : nat) (content : string) : Page :=
  mkPage filePath (Z.of_nat i + 1) hash (Some content) (clock i).

Fixpoint pages_from (clock : nat -> Timestamp) (filePath hash : string)
  (i : nat) (pageContents : list string) : list Page :=
  match pageContents with
  | [] => []
  | c :: rest =>
      page_of clock filePath hash i c
        :: pages_from clock filePath hash (S i) rest
  end.

(** The IndexEntry that matches a Page. *)
Definition entry_of (r : Page) : IndexEntry :=
  mkEntry (path r) (page_num r) (content r).

Definition pages_of_path (p : string) (db : DB) : list Page :=
  filter (fun r => String.eqb (path r) p) (pdfs db).

Definition other_pages (p : string) (db : DB) : list Page :=
  filter (fun r => negb (String.eqb (path r) p)) (pdfs db).

Definition entries (db : DB) : list IndexEntry :=
  match pdfs_fts db with
  | Some es => es
  | None => []
  end.

Definition entries_of_path (p : string) (db : DB) : list IndexEntry :=
  filter (fun e => String.eqb (fts_path e) p) (entries db).

(** The IndexEntries at the key of a Page, and the Pages at the key of
    an IndexEntry. *)
Definition entries_at (r : Page) (db : DB) : list IndexEntry :=
  filter (entry_at r) (entries db).

Definition pages_at (e : IndexEntry) (db : DB) : list Page :=
  filter (fun r => entry_at r e) (pdfs db).

(** Every trigger that exists finds its table. *)
Definition schema_ok (db : DB) : bool :=
  compiles (pdfs_after_insert (triggers db)
            || pdfs_after_delete (triggers db)) db.

(** The fault, if there is one, falls after the engine call [n]. *)
Definition survives (f : Faults) (n : nat) : bool :=
  match f with
  | None => true
  | Some k => Nat.ltb n k
  end.

(** What the index holds after the Pages [new] were inserted into
    [pdfs] of [db]. *)
Definition index_after_insert (db : DB) (new : list Page)
  : option (list IndexEntry) :=
  if pdfs_after_insert (triggers db)
  then option_map (fun es => es ++ map entry_of new)%list (pdfs_fts db)
  else pdfs_fts db.

(** The index after the DELETE: without the entries at the key of a
    deleted Page. *)
Definition index_after_delete (filePath : string) (db : DB)
  : option (list IndexEntry) :=
  if pdfs_after_delete (triggers db)
  then option_map
         (filter (fun e => negb (existsb (fun r => entry_at r e)
                                         (pages_of_path filePath db))))
         (pdfs_fts db)
  else pdfs_fts db.

(** The store a successful [UpsertPDFData] leaves. *)
Definition replaced (clock : nat -> Timestamp) (db : DB)
  (filePath h : string) (pageContents : list string) : DB :=
  let new := pages_from clock filePath h 0 pageContents in
  let deleted := mkDB (other_pages filePath db)
                      (index_after_delete filePath db) (triggers db) in
  mkDB (other_pages filePath db ++ new) (index_after_insert deleted new)
       (triggers db).

Definition has_content (r : Page) : bool :=
  match content r with
  | Some _ => true
  | None => false
  end.

(** The store a successful [RebuildFTS] leaves. *)
Definition rebuilt (db : DB) : DB :=
  mkDB (pdfs db) (Some (map entry_of (filter has_content (pdfs db))))
       all_triggers.

Definition key (r : Page) : string * Z := (path r, page_num r).

Definition entry_key (e : IndexEntry) : string * Z :=
  (fts_path e, fts_page_num e).

(** What every store the program builds satisfies: the three triggers
    exist, the index is the image of [pdfs] row by row, the primary key
    holds, no content is NULL, and a path has one fingerprint. *)
Record consistent (db : DB) : Prop := mkConsistent {
  c_triggers : triggers db = all_triggers;
  c_index : pdfs_fts db = Some (map entry_of (pdfs db));
  c_keys : NoDup (map key (pdfs db));
  c_content : forall r, In r (pdfs db) -> has_content r = true;
  c_hash : forall r r', In r (pdfs db) -> In r' (pdfs db) ->
                        path r = path r' -> hash r = hash r'
}.

(** The fingerprint stored for a path: the one [GetStoredHash] reads,
    or none when the path has no Page. *)
Definition stored_fingerprint (db : DB) (p : string) : option string :=
  option_map hash (find (fun r => String.eqb (path r) p) (pdfs db)).

(** The string [GetStoredHash] returns for a stored fingerprint. *)
Definition or_empty (h : option string) : string :=
  match h with
  | Some s => s
  | None => EmptyString
  end.

Definition outcome_path (o : Outcome) : string :=
  match o with
  | FailedToProcess p => p
  | FailedToStore p _ => p
  | Updated p => p
  end.

Definition is_updated (o : Outcome) : bool :=
  match o with
  | Updated _ => true
  | _ => false
  end.

(** Whether a document gets stored, from what concerns this document
    alone: its pages can be extracted and no engine call of its
    transaction fails (and the schema it runs on is in order). *)
Definition gets_stored (pdfProcessor : Extractor) (f : Faults) (db : DB)
  (fileInfo : PDFFileInfo) : bool :=
  match ExtractPagesText pdfProcessor (Path fileInfo) with
  | None => false
  | Some pageContents =>
      survives f (3 + List.length pageContents) && schema_ok db
  end.

(** What the body of the loop of [checkHashes] does with one file. *)
Definition check_one (pdfProcessor : Extractor) (f : Faults) (db : DB)
  (forceRescan : bool) (p : string) : list PDFFileInfo * list Warning :=
  match HashFile pdfProcessor p with
  | None => ([], [Warn "Warning: Failed to calculate hash for %s: %v\n" p])
  | Some currentHash =>
      match GetStoredHash f db p with
      | (_, Some _) =>
          ([], [Warn "Warning: Failed to get stored hash for %s: %v\n" p])
      | (storedHash, None) =>
          if forceRescan || negb (String.eqb currentHash storedHash)
          then ([mkPDFFileInfo p currentHash storedHash true], [])
          else ([], [])
      end
  end.

(** The files of a list, each with its position counted from [i]. *)
Fixpoint numbered {A : Type} (i : nat) (l : list A) : list (nat * A) :=
  match l with
  | [] => []
  | x :: l' => (i, x) :: numbered (S i) l'
  end.



(* ----------------------------------------------------------------- *)
(** *** A small world for the examples *)

(** One file, a.pdf, of four bytes and two pages. *)
Definition two_page_world : Extractor :=
  mkExtractor
    (fun p => if String.eqb p "a.pdf"
              then Some [Byte.x25; Byte.x50; Byte.x44; Byte.x46] else None)
    (fun bytes => N.of_nat (List.length bytes))
    (fun p => if String.eqb p "a.pdf"
              then Some [Some "foo bar"%string; Some "baz qux"%string]
              else None)
    (fun text => text).

(** One file, empty.pdf, that MuPDF opens and finds no page in. *)
Definition zero_page_world : Extractor :=
  mkExtractor
    (fun p => if String.eqb p "empty.pdf" then Some [Byte.x25] else None)
    (fun bytes => N.of_nat (List.length bytes))
    (fun p => if String.eqb p "empty.pdf" then Some [] else None)
    (fun text => text).

Definition ticking (i : nat) : Timestamp := Z.of_nat i.

Definition no_fault (i : nat) : Faults := None.

Fixpoint contains (q s : string) : bool :=
  String.prefix q s
  || match s with
     | EmptyString => false
     | String _ s' => contains q s'
     end.

(** An engine for the examples: a row matches when its text contains
    the query, the snippet is the marked query, the rank the page. *)
#[local] Instance substring_engine : FTS5 := {|
  fts5_query_ok q := negb (String.eqb q "");
  fts5_match q c := match c with
                    | Some s => contains q s
                    | None => false
                    end;
  fts5_snippet q c hl_start hl_end ellipsis tokens :=
    (hl_start ++ q ++ hl_end)%string;
  fts5_rank q es e := fts_page_num e
|}.

(** The store of the two-page document with fingerprint h1. *)
Definition scenario_B : DB :=
  fst (UpsertPDFData None ticking fresh "a.pdf" "h1"
                     ["foo bar"%string; "baz qux"%string]).

(* ----------------------------------------------------------------- *)
(** *** Predicates of the further properties *)

(** The Pages whose content matches a query. *)
Definition matching_pages {engine : FTS5} (queryTerm : string) (db : DB)
  : list Page :=
  filter (fun p => fts5_match queryTerm (content p)) (pdfs db).

Definition row_key (r : SearchRow) : string * Z := (row_path r, row_page_num r).

Definition live_key (r : LiveRow) : string * Z := (live_path r, live_page_num r).

(* ================================================================= *)
(** ** The scan command: crawlPDFs and runScanCommand *)

Definition is_ascii_byte (c : ascii) : bool := (N_of_ascii c <? 128)%N.

Definition is_upper (c : ascii) : bool :=
  ((65 <=? N_of_ascii c) && (N_of_ascii c <=? 90))%N.

(** c += 'a' - 'A' *)
Definition lower_byte (c : ascii) : ascii :=
  if is_upper c then ascii_of_N (N_of_ascii c + 32) else c.

Fixpoint all_ascii (s : string) : bool :=
  match s with
  | EmptyString => true
  | String c s' => is_ascii_byte c && all_ascii s'
  end.

Fixpoint lower_bytes (s : string) : string :=
  match s with
  | EmptyString => EmptyString
  | String c s' => String (lower_byte c) (lower_bytes s')
  end.

(** [strings.ToLower]: byte by byte on a string of ASCII bytes, and
    [strings.Map(unicode.ToLower, s)], here [unicode_lower], on any
    other. *)
Definition ToLower (unicode_lower : string -> string) (s : string) : string :=
  if all_ascii s then lower_bytes s else unicode_lower s.

(** [strings.HasSuffix]:
    len(s) >= len(suffix) && s[len(s)-len(suffix):] == suffix *)
Definition HasSuffix (s suffix : string) : bool :=
  (String.length suffix <=? String.length s)%nat
  && String.eqb (substring (String.length s - String.length suffix)
                           (String.length suffix) s)
                suffix.

(** What [filepath.WalkDir] hands to its function at one call: an error
    met on a path, or an entry and whether it is a directory. *)
Inductive Visit : Type :=
| VisitError (p : string)
| VisitEntry (p : string) (isDir : bool).

Definition visit_path (v : Visit) : string :=
  match v with
  | VisitError p => p
  | VisitEntry p _ => p
  end.

(** The error a walk function may return. *)
Inductive WalkError : Type :=
| WalkFailed.

(** [filepath.WalkDir] for a function that never asks to skip: the
    function is called on what the walk reaches, in lexical order, and
    the walk stops at the first error the function returns, which it
    returns itself.  What the walk reaches is an input. *)
Fixpoint WalkDir {S : Type} (fn : Visit -> S -> S * option WalkError)
  (visits : list Visit) (s : S) : S * option WalkError :=
  match visits with
  | [] => (s, None)
  | v :: rest =>
      match fn v s with
      | (s', Some e) => (s', Some e)
      | (s', None) => WalkDir fn rest s'
      end
  end.

(** The function [crawlPDFs] walks with; its state is [pdfFiles] and
    the log. *)
Definition crawl_fn (unicode_lower : string -> string) (verbose : bool)
  (v : Visit) (s : list string * list Warning)
  : (list string * list Warning) * option WalkError :=
  let (pdfFiles, logged) := s in
  match v with
  | VisitError p =>
      ((pdfFiles,
        if verbose
        then (logged ++ [Warn "Warning: Error accessing %s: %v" p])%list
        else logged),
       None)                                        (* Continue walking *)
  | VisitEntry p true => ((pdfFiles, logged), None)
  | VisitEntry p false =>
      if HasSuffix (ToLower unicode_lower p) ".pdf"
      then (((pdfFiles ++ [p])%list, logged), None)
      else ((pdfFiles, logged), None)
  end.

Definition crawlPDFs (unicode_lower : string -> string) (verbose : bool)
  (visits : list Visit) : (list string * option WalkError) * list Warning :=
  match WalkDir (crawl_fn unicode_lower verbose) visits ([], []) with
  | ((pdfFiles, logged), err) => ((pdfFiles, err), logged)
  end.

(** What [runScanCommand] prints on stdout. *)
Inductive Printed : Type :=
| Phase1_Discovering
| NoPDFFilesFound
| FoundPDFFiles (n : nat)
| Phase2_CheckingHashes
| AllUpToDate
| FilesNeedProcessing (n : nat)
| Phase3_Processing
| ScanCompleted (processed updated : nat).

(** The errors [runScanCommand] wraps. *)
Inductive ScanError : Type :=
| CrawlingPDFs (e : WalkError)
| CheckingHashes (e : error)
| ProcessingPDFs (e : error).

Record Scanned : Type := mkScanned {
  scan_store : DB;                 (* the database when the command ends *)
  scan_error : option ScanError;   (* the error returned *)
  scan_stdout : list Printed
}.

(** [runScanCommand(folder, forceRescan)]; [visits] is what the walk of
    [folder] reaches, [faults2] and [faults3] are the faults of the
    second and third phase. *)
Definition runScanCommand (unicode_lower : string -> string)
  (pdfProcessor : Extractor) (verbose : bool) (visits : list Visit)
  (faults2 faults3 : nat -> Faults) (clock : nat -> nat -> Timestamp)
  (db : DB) (forceRescan : bool) : Scanned :=
  match fst (crawlPDFs unicode_lower verbose visits) with
  | (_, Some e) => mkScanned db (Some (CrawlingPDFs e)) [Phase1_Discovering]
  | (pdfFiles, None) =>
  if Nat.eqb (List.length pdfFiles) 0
  then mkScanned db None [Phase1_Discovering; NoPDFFilesFound]
  else
  match fst (checkHashes pdfProcessor faults2 db pdfFiles forceRescan) with
  | (_, Some e) =>
      mkScanned db (Some (CheckingHashes e))
                [Phase1_Discovering; FoundPDFFiles (List.length pdfFiles);
                 Phase2_CheckingHashes]
  | (filesToProcess, None) =>
  if Nat.eqb (List.length filesToProcess) 0
  then mkScanned db None
                 [Phase1_Discovering; FoundPDFFiles (List.length pdfFiles);
                  Phase2_CheckingHashes; AllUpToDate]
  else
  let r := processPDFs pdfProcessor faults3 clock db filesToProcess in
  match returned r with
  | Some e =>
      mkScanned (store r) (Some (ProcessingPDFs e))
                [Phase1_Discovering; FoundPDFFiles (List.length pdfFiles);
                 Phase2_CheckingHashes;
                 FilesNeedProcessing (List.length filesToProcess);
                 Phase3_Processing]
  | None =>
      mkScanned (store r) None
                [Phase1_Discovering; FoundPDFFiles (List.length pdfFiles);
                 Phase2_CheckingHashes;
                 FilesNeedProcessing (List.length filesToProcess);
                 Phase3_Processing;
                 ScanCompleted (List.length pdfFiles) (count r)]
  end end end.

(** ** The extractor: ExtractText and ExtractAllText *)

(** The text of the pages that can be extracted, each followed by a
    newline; a page that cannot is left out. *)
Definition ExtractText (e : Extractor) (pdfPath : string) : option string :=
  match fitz_pages e pdfPath with
  | None => None
  | Some pages =>
      Some (fold_left (fun allText p =>
                         match p with
                         | None => allText
                         | Some text => (allText ++ text ++ "
")%string
                         end) pages EmptyString)
  end.

Definition ExtractAllText (e : Extractor) (filePath : string)
  : option string :=
  match ExtractText e filePath with
  | None => None
  | Some rawText => Some (CleanText e rawText)
  end.

(** The visits [crawlPDFs] keeps: entries that are not directories and
    whose lower-cased path ends in .pdf. *)
Definition is_pdf_visit (unicode_lower : string -> string) (v : Visit) : bool :=
  match v with
  | VisitEntry p false => HasSuffix (ToLower unicode_lower p) ".pdf"
  | _ => false
  end.

Definition is_error_visit (v : Visit) : bool :=
  match v with
  | VisitError _ => true
  | VisitEntry _ _ => false
  end.

(** The calls of [UpsertPDFData] the loop of [processPDFs] makes, from
    the [i]-th document on. *)
Fixpoint upsert_calls (pdfProcessor : Extractor) (faults : nat -> Faults)
  (clock : nat -> nat -> Timestamp) (i : nat)
  (filesToProcess : list PDFFileInfo) : list Call :=
  match filesToProcess with
  | [] => []
  | fileInfo :: rest =>
      match ExtractPagesText pdfProcessor (Path fileInfo) with
      | None => upsert_calls pdfProcessor faults clock (S i) rest
      | Some pageContents =>
          CallUpsert (faults i) (clock i) (Path fileInfo)
                     (CurrentHash fileInfo) pageContents
            :: upsert_calls pdfProcessor faults clock (S i) rest
      end
  end.

Definition can_hash (pdfProcessor : Extractor) (p : string) : bool :=
  match HashFile pdfProcessor p with
  | Some _ => true
  | None => false
  end.

(** What [ExtractPagesText] stores for a page of the document. *)
Definition page_text (e : Extractor) (p : option string) : string :=
  match p with
  | None => EmptyString
  | Some text => CleanText e text
  end.

(* ================================================================= *)
(** ** The size of the database file: formatFileSize *)

(** An int64 after an arithmetic operation. *)
Definition wrap64 (z : Z) : Z := (z + 2 ^ 63) mod 2 ^ 64 - 2 ^ 63.

Definition units : list string := ["KB"; "MB"; "GB"; "TB"]%string.

(** What [formatFileSize] returns: [fmt.Sprintf("%d B", bytes)], or
    [fmt.Sprintf("%.1f %s", float64(bytes)/float64(div), unit)], whose
    rounding is not described here; or the panic of an index out of
    the range of [units]. *)
Inductive FormattedSize : Type :=
| InBytes (bytes : Z)
| InUnits (bytes div : Z) (unit : string)
| IndexOutOfRange (exp : nat)
| StillLooping.

(** for n := bytes / unit; n >= unit; n /= unit { div *= unit; exp++ } *)
Fixpoint size_loop (fuel : nat) (n div : Z) (exp : nat)
  : option (Z * nat) :=
  if n >=? 1024
  then match fuel with
       | O => None
       | S fuel' =>
           size_loop fuel' (Z.quot n 1024) (wrap64 (div * 1024)) (S exp)
       end
  else Some (div, exp).

Definition formatFileSize (bytes : Z) : FormattedSize :=
  if bytes <? 1024 then InBytes bytes
  else
    match size_loop 64 (Z.quot bytes 1024) 1024 0 with
    | None => StillLooping
    | Some (div, exp) =>
        match nth_error units exp with
        | Some unit => InUnits bytes div unit
        | None => IndexOutOfRange exp
        end
    end.

(* ================================================================= *)
(** ** Where the database is: the config package *)

Record Config : Type := mkConfig { DBPath : string; Verbose : bool }.

(** What the package asks of the operating system: the working
    directory, whether [os.Stat] of a path returns no error, and the
    functions of [path/filepath]. *)
Record FileSystem : Type := mkFileSystem {
  os_Getwd : option string;
  os_Stat : string -> bool;
  filepath_Join : string -> string -> string;
  filepath_Dir : string -> string;
  filepath_Abs : string -> option string
}.

Inductive ConfigError : Type :=
| FailedToGetCurrentDirectory
| NoExistingDatabaseFound
| FailedToCreateDatabasePath.

Definition dbName : string := "fts.db".

(** The loop of [FindExistingDBPath], from [currentDir] upwards:
    [Some (Some dbPath)] is the database found, [Some None] the break
    at the root, [None] a loop that is still climbing after [fuel]
    directories. *)
Fixpoint search_up (fs : FileSystem) (fuel : nat) (currentDir : string)
  : option (option string) :=
  match fuel with
  | O => None
  | S fuel' =>
      let dbPath := filepath_Join fs currentDir dbName in
      if os_Stat fs dbPath then Some (Some dbPath)
      else
        let parentDir := filepath_Dir fs currentDir in
        if String.eqb parentDir currentDir then Some None
        else search_up fs fuel' parentDir
  end.

Definition FindExistingDBPath (fs : FileSystem) (fuel : nat) (c : Config)
  : option (Config * option ConfigError) :=
  match os_Getwd fs with
  | None => Some (c, Some FailedToGetCurrentDirectory)
  | Some currentDir =>
      match search_up fs fuel currentDir with
      | None => None
      | Some (Some dbPath) => Some (mkConfig dbPath (Verbose c), None)
      | Some None => Some (c, Some NoExistingDatabaseFound)
      end
  end.

Definition CreateDBPath (fs : FileSystem) (c : Config)
  : Config * option ConfigError :=
  match filepath_Abs fs dbName with
  | None => (c, Some FailedToCreateDatabasePath)
  | Some absPath => (mkConfig absPath (Verbose c), None)
  end.

Definition FindOrCreateDBPath (fs : FileSystem) (fuel : nat) (c : Config)
  : option (Config * option ConfigError) :=
  match FindExistingDBPath fs fuel c with
  | None => None
  | Some (c', None) => Some (c', None)
  | Some (c', Some _) => Some (CreateDBPath fs c')
  end.

(** The [k]-th ancestor of a directory. *)
Definition ancestor (fs : FileSystem) (k : nat) (dir : string) : string :=
  Nat.iter k (filepath_Dir fs) dir.

(** A directory tree for the examples: /home/u/docs, with a database in
    /home and another in the root. *)
Definition small_tree : FileSystem :=
  mkFileSystem
    (Some "/home/u/docs"%string)
    (fun p => String.eqb p "/home/fts.db" || String.eqb p "/fts.db")
    (fun d n => if String.eqb d "/" then ("/" ++ n)%string
                else (d ++ "/" ++ n)%string)
    (fun d => if String.eqb d "/home/u/docs" then "/home/u"%string
              else if String.eqb d "/home/u" then "/home"%string
                   else "/"%string)
    (fun n => Some ("/home/u/docs/" ++ n)%string).

(* ================================================================= *)
(** ** Grouping the results by file *)

(** The loop that [queryDBForLiveSearch] and [runSearchCommand] run over
    the results of a search keeps, in a map, a pointer
    [&groupedResults[len(groupedResults)-1]] for every path, and appends
    the Pages through it, while [append] may move [groupedResults] to a
    new backing array.  The memory is modelled: backing arrays in a heap,
    a slice as an array and a length, a pointer as an array and an
    index.  The Pages of an element are the Pages seen through its slice
    header. *)
Record pageResult : Type := mkPageResult {
  PageNum : Z;
  Snippet : string
}.

Record fileResult : Type := mkFileResult {
  fr_Path : string;
  fr_Pages : list pageResult
}.

Record Slice : Type := mkSlice { sl_array : nat; sl_len : nat }.

Record Pointer : Type := mkPointer { ptr_array : nat; ptr_index : nat }.

Record GroupState : Type := mkGroupState {
  heap : list (list fileResult);
  groupedResults : Slice;
  resultMap : list (string * Pointer)
}.

Fixpoint map_lookup (k : string) (m : list (string * Pointer))
  : option Pointer :=
  match m with
  | [] => None
  | (k', v) :: rest => if String.eqb k k' then Some v else map_lookup k rest
  end.

Fixpoint update_nth {A : Type} (i : nat) (f : A -> A) (l : list A) : list A :=
  match l, i with
  | [], _ => []
  | x :: rest, O => f x :: rest
  | x :: rest, S i' => x :: update_nth i' f rest
  end.

(** The elements a slice shows. *)
Definition elements (st : GroupState) : list fileResult :=
  firstn (sl_len (groupedResults st))
         (nth (sl_array (groupedResults st)) (heap st) []).

(** groupedResults = append(groupedResults, fileRes).  [grows len]
    tells whether the runtime grows a slice of this length: then the
    elements are copied to a new array and the old one stays as it is;
    otherwise the element is written after the last one, in place. *)
Definition append_file (grows : nat -> bool) (fileRes : fileResult)
           (st : GroupState) : GroupState :=
  let s := groupedResults st in
  if grows (sl_len s)
  then mkGroupState (heap st ++ [elements st ++ [fileRes]])
                    (mkSlice (List.length (heap st)) (S (sl_len s)))
                    (resultMap st)
  else mkGroupState (update_nth (sl_array s)
                                (fun _ => elements st ++ [fileRes])
                                (heap st))
                    (mkSlice (sl_array s) (S (sl_len s)))
                    (resultMap st).

(** One turn of the loop; [None] is the dereference of a nil pointer. *)
Definition group_step (grows : nat -> bool) (st : GroupState)
           (result : SearchRow) : option GroupState :=
  let st1 :=
    match map_lookup (row_path result) (resultMap st) with
    | Some _ => st
    | None =>
        let st' := append_file grows (mkFileResult (row_path result) []) st in
        let s := groupedResults st' in
        mkGroupState (heap st') s
                     ((row_path result, mkPointer (sl_array s) (sl_len s - 1)%nat)
                        :: resultMap st')
    end in
  let pageRes := mkPageResult (row_page_num result) (row_snippet result) in
  match map_lookup (row_path result) (resultMap st1) with
  | None => None
  | Some ptr =>
      Some (mkGroupState
              (update_nth (ptr_array ptr)
                 (update_nth (ptr_index ptr)
                    (fun fr => mkFileResult (fr_Path fr)
                                            (fr_Pages fr ++ [pageRes])))
                 (heap st1))
              (groupedResults st1) (resultMap st1))
  end.

Fixpoint group_loop (grows : nat -> bool) (searchResults : list SearchRow)
         (st : GroupState) : option GroupState :=
  match searchResults with
  | [] => Some st
  | result :: rest =>
      match group_step grows st result with
      | None => None
      | Some st' => group_loop grows rest st'
      end
  end.

(** [var groupedResults []fileResult] is the nil slice: no element. *)
Definition group_start : GroupState :=
  mkGroupState [[]] (mkSlice 0 0) [].

Definition group_by_path (grows : nat -> bool) (searchResults : list SearchRow)
  : option (list fileResult) :=
  match group_loop grows searchResults group_start with
  | None => None
  | Some st => Some (elements st)
  end.

(** Every Page of the grouped results, with its path, in order. *)
Definition grouped_pages (groups : list fileResult)
  : list (string * pageResult) :=
  flat_map (fun g => map (fun pg => (fr_Path g, pg)) (fr_Pages g)) groups.

Definition page_of_row (r : SearchRow) : string * pageResult :=
  (row_path r, mkPageResult (row_page_num r) (row_snippet r)).

(** Results in which the rows of one path follow one another: a path
    that the list has left does not come back. *)
Fixpoint contiguous_from (seen : list string) (current : option string)
         (rows : list SearchRow) : Prop :=
  match rows with
  | [] => True
  | r :: rest =>
      (current = Some (row_path r) \/ ~ In (row_path r) seen)
      /\ contiguous_from (row_path r :: seen) (Some (row_path r)) rest
  end.

Definition contiguous (rows : list SearchRow) : Prop :=
  contiguous_from [] None rows.

(** The growth of a short slice.  A nil slice has no capacity, and the
    capacity of a slice of fewer than 16 elements doubles when it is
    reached: [append] moves the slice at the lengths 0, 1, 2, 4 and 8.
    Longer slices are not described: for them the capacity depends on
    the size classes of the allocator, and the examples stay below. *)
Definition grows_below_16 (len : nat) : bool :=
  Nat.eqb len 0 || Nat.eqb len 1 || Nat.eqb len 2 || Nat.eqb len 4
  || Nat.eqb len 8.

(** What the loop keeps, turn after turn: [acc] are the Pages grouped so
    far, [seen] the paths met, [current] the path of the last row. *)
Definition group_inv (st : GroupState) (acc : list (string * pageResult))
           (seen : list string) (current : option string) : Prop :=
  let s := groupedResults st in
  (sl_array s < List.length (heap st))%nat
  /\ List.length (nth (sl_array s) (heap st) []) = sl_len s
  /\ grouped_pages (elements st) = acc
  /\ NoDup (map fr_Path (elements st))
  /\ (forall p, In p (map fr_Path (elements st)) <-> In p seen)
  /\ (forall p, map_lookup p (resultMap st) = None <-> ~ In p seen)
  /\ (forall p, current = Some p ->
        map_lookup p (resultMap st)
        = Some (mkPointer (sl_array s) (sl_len s - 1)%nat)
        /\ exists front g, elements st = front ++ [g] /\ fr_Path g = p)
  /\ Forall (fun g => fr_Pages g <> []) (elements st).

(* ================================================================= *)
(** * Proofs *)

(** ** The engine call *)

Lemma exec_Ok {A : Type} (f : Faults) (k : nat) (s : result A) (a : A) :
  exec f k s = Ok a <-> fails f k = false /\ s = Ok a.
Proof.
  unfold exec. destruct (fails f k); split.
  - discriminate.
  - intros [H _]. discriminate.
  - auto.
  - intros [_ H]. exact H.
Qed.

Lemma survives_fails (f : Faults) (n k : nat) :
  survives f n = true -> (k <= n)%nat -> fails f k = false.
Proof.
  destruct f as [j|]; simpl; auto.
  intros H Hk. apply Nat.ltb_lt in H. apply Nat.eqb_neq. lia.
Qed.

Lemma fails_survives (f : Faults) (n : nat) :
  (forall k, (k <= n)%nat -> fails f k = false) -> survives f n = true.
Proof.
  destruct f as [j|]; simpl; auto.
  intros H. apply Nat.ltb_lt.
  destruct (Nat.le_gt_cases j n) as [Hle|Hgt]; [|exact Hgt].
  specialize (H j Hle). rewrite Nat.eqb_refl in H. discriminate.
Qed.

(** ** The INSERT loop of UpsertPDFData *)

Lemma pages_from_length clock filePath h i pcs :
  List.length (pages_from clock filePath h i pcs) = List.length pcs.
Proof.
  revert i. induction pcs as [|c pcs IH]; intros i; simpl; auto.
Qed.

Lemma pages_from_path clock filePath h i pcs :
  map path (pages_from clock filePath h i pcs)
  = repeat filePath (List.length pcs).
Proof.
  revert i. induction pcs as [|c pcs IH]; intros i; simpl; f_equal; auto.
Qed.

Lemma pages_from_hash clock filePath h i pcs :
  map hash (pages_from clock filePath h i pcs)
  = repeat h (List.length pcs).
Proof.
  revert i. induction pcs as [|c pcs IH]; intros i; simpl; f_equal; auto.
Qed.

Lemma pages_from_page_num clock filePath h i pcs :
  map page_num (pages_from clock filePath h i pcs)
  = map Z.of_nat (seq (S i) (List.length pcs)).
Proof.
  revert i. induction pcs as [|c pcs IH]; intros i; simpl; auto.
  f_equal; [lia | apply IH].
Qed.

Lemma pages_from_content clock filePath h i pcs :
  map content (pages_from clock filePath h i pcs) = map Some pcs.
Proof.
  revert i. induction pcs as [|c pcs IH]; intros i; simpl; f_equal; auto.
Qed.

Lemma pages_from_last_scanned clock filePath h i pcs :
  map last_scanned (pages_from clock filePath h i pcs)
  = map clock (seq i (List.length pcs)).
Proof.
  revert i. induction pcs as [|c pcs IH]; intros i; simpl; f_equal; auto.
Qed.

Lemma In_pages_from clock filePath h i pcs r :
  In r (pages_from clock filePath h i pcs) ->
  path r = filePath /\ hash r = h
  /\ Z.of_nat i + 1 <= page_num r <= Z.of_nat i + Z.of_nat (List.length pcs)
  /\ content r <> None.
Proof.
  revert i. induction pcs as [|c pcs IH]; intros i; simpl; [tauto|].
  intros [<-|H].
  - simpl. repeat split; try lia. discriminate.
  - apply IH in H. destruct H as (? & ? & ? & ?). repeat split; auto; lia.
Qed.

Lemma insert_page_Ok r db db' :
  insert_page r db = Ok db' ->
  existsb (same_pk r) (pdfs db) = false
  /\ compiles (pdfs_after_insert (triggers db)) db = true
  /\ pdfs db' = (pdfs db ++ [r])%list
  /\ triggers db' = triggers db
  /\ pdfs_fts db' = index_after_insert db [r].
Proof.
  unfold insert_page, index_after_insert, compiles, after_insert_body, entry_of.
  destruct (existsb (same_pk r) (pdfs db)); [discriminate|].
  destruct (pdfs_after_insert (triggers db)); destruct (pdfs_fts db);
    simpl; intros H; inversion H; subst; simpl; auto.
Qed.

Lemma insert_page_succeeds r db :
  existsb (same_pk r) (pdfs db) = false ->
  compiles (pdfs_after_insert (triggers db)) db = true ->
  exists db', insert_page r db = Ok db'.
Proof.
  unfold insert_page, compiles. intros -> H.
  destruct (pdfs_after_insert (triggers db)); destruct (pdfs_fts db);
    simpl in *; try discriminate; eauto.
Qed.

Lemma index_after_insert_app db db' l1 l2 :
  triggers db' = triggers db ->
  pdfs_fts db' = index_after_insert db l1 ->
  index_after_insert db' l2 = index_after_insert db (l1 ++ l2).
Proof.
  unfold index_after_insert. intros -> ->.
  destruct (pdfs_after_insert (triggers db)); auto.
  destruct (pdfs_fts db); simpl; auto.
  now rewrite map_app, app_assoc.
Qed.

Lemma compiles_after_insert db db' l fired :
  pdfs_fts db' = index_after_insert db l ->
  compiles fired db' = compiles fired db.
Proof.
  unfold compiles, index_after_insert. intros ->.
  destruct (pdfs_after_insert (triggers db)); destruct (pdfs_fts db); auto.
Qed.

Lemma insert_pages_inl f clock filePath h pcs :
  forall i tx tx',
    insert_pages f clock filePath h i pcs tx = inl tx' ->
    pdfs tx' = (pdfs tx ++ pages_from clock filePath h i pcs)%list
    /\ triggers tx' = triggers tx
    /\ pdfs_fts tx' = index_after_insert tx (pages_from clock filePath h i pcs)
    /\ (forall k, (3 + i <= k < 3 + i + List.length pcs)%nat ->
                  fails f k = false).
Proof.
  induction pcs as [|c pcs IH]; intros i tx tx'; simpl.
  - intros H. inversion H; subst. rewrite app_nil_r.
    repeat split; auto.
    + unfold index_after_insert.
      destruct (pdfs_after_insert (triggers tx')); auto.
      destruct (pdfs_fts tx'); simpl; auto. now rewrite app_nil_r.
    + intros k Hk. lia.
  - destruct (exec f (S (S (S i))) _) as [tx1|e] eqn:E; [|discriminate].
    apply exec_Ok in E. destruct E as [Hf E].
    apply insert_page_Ok in E. destruct E as (_ & _ & Hp & Ht & Hi).
    intros H. apply IH in H. destruct H as (Hp' & Ht' & Hi' & Hf').
    repeat split.
    + rewrite Hp', Hp, <- app_assoc. reflexivity.
    + congruence.
    + rewrite Hi'.
      apply (index_after_insert_app tx tx1 [_] _ Ht Hi).
    + intros k Hk.
      destruct (Nat.eq_dec k (3 + i)) as [->|Hne]; [exact Hf|].
      apply Hf'. lia.
Qed.

Lemma existsb_same_pk_false r l :
  (forall r', In r' l -> path r' = path r -> page_num r' <> page_num r) ->
  existsb (same_pk r) l = false.
Proof.
  intros H. apply not_true_is_false. intros E.
  apply existsb_exists in E. destruct E as (r' & Hin & Hk).
  unfold same_pk in Hk. apply andb_true_iff in Hk. destruct Hk as [Hp Hn].
  apply String.eqb_eq in Hp. apply Z.eqb_eq in Hn.
  apply (H r' Hin); congruence.
Qed.

Lemma insert_pages_succeeds f clock filePath h pcs :
  forall i tx,
    (forall r, In r (pdfs tx) -> path r = filePath -> page_num r <= Z.of_nat i) ->
    compiles (pdfs_after_insert (triggers tx)) tx = true ->
    (forall k, (3 + i <= k < 3 + i + List.length pcs)%nat -> fails f k = false) ->
    exists tx', insert_pages f clock filePath h i pcs tx = inl tx'.
Proof.
  induction pcs as [|c pcs IH]; intros i tx Hfree Hc Hf; simpl.
  - eauto.
  - set (r := mkPage filePath (Z.of_nat i + 1) h (Some c) (clock i)).
    destruct (insert_page_succeeds r tx) as [tx1 E1]; auto.
    { apply existsb_same_pk_false. intros r' Hin Hp. simpl in *.
      specialize (Hfree r' Hin Hp). lia. }
    assert (E : exec f (S (S (S i))) (insert_page r tx) = Ok tx1).
    { apply exec_Ok. split; [apply Hf; simpl; lia | exact E1]. }
    rewrite E.
    apply insert_page_Ok in E1. destruct E1 as (_ & _ & Hp & Ht & Hi).
    apply IH.
    + intros r' Hin Hpath. rewrite Hp in Hin. apply in_app_or in Hin.
      destruct Hin as [Hin|[<-|[]]].
      * specialize (Hfree r' Hin Hpath). lia.
      * simpl. lia.
    + rewrite Ht. rewrite (compiles_after_insert tx tx1 [r]); auto.
    + intros k Hk. apply Hf. simpl in *. lia.
Qed.

(** ** DELETE FROM pdfs WHERE path = ? *)

Lemma fold_after_delete old :
  forall es,
    fold_left (fun es r => after_delete_body r es) old es
    = filter (fun e => negb (existsb (fun r => entry_at r e) old)) es.
Proof.
  induction old as [|r old IH]; intros es; simpl.
  - induction es as [|e es IHes]; simpl; auto. now rewrite <- IHes.
  - rewrite IH. unfold after_delete_body.
    induction es as [|e es IHes]; simpl; auto.
    destruct (entry_at r e); simpl; auto.
    destruct (existsb _ old); simpl; auto. now rewrite IHes.
Qed.

Lemma delete_pages_Ok filePath db db' :
  delete_pages filePath db = Ok db' <->
  compiles (pdfs_after_delete (triggers db)) db = true
  /\ db' = mkDB (other_pages filePath db) (index_after_delete filePath db)
                (triggers db).
Proof.
  unfold delete_pages, compiles, index_after_delete, other_pages, pages_of_path.
  destruct (pdfs_after_delete (triggers db)); destruct (pdfs_fts db);
    simpl; try rewrite fold_after_delete; split;
    try (intros H; inversion H; auto; fail);
    try (intros [H1 H2]; subst; auto; discriminate).
Qed.

(** ** UpsertPDFData, case by case *)

Lemma fails_not_survives f k n :
  fails f k = true -> (k <= n)%nat -> survives f n = false.
Proof.
  intros Hf Hk. destruct (survives f n) eqn:E; auto.
  rewrite (survives_fails f n k E Hk) in Hf. discriminate.
Qed.

Lemma compiles_after_delete filePath db fired :
  compiles fired (mkDB (other_pages filePath db)
                       (index_after_delete filePath db) (triggers db))
  = compiles fired db.
Proof.
  unfold compiles, index_after_delete. simpl.
  destruct (pdfs_after_delete (triggers db)); destruct (pdfs_fts db); auto.
Qed.

Lemma schema_ok_split db :
  schema_ok db = true <->
  compiles (pdfs_after_delete (triggers db)) db = true
  /\ compiles (pdfs_after_insert (triggers db)) db = true.
Proof.
  unfold schema_ok, compiles.
  destruct (pdfs_fts db); [tauto|].
  destruct (pdfs_after_insert (triggers db));
    destruct (pdfs_after_delete (triggers db)); simpl; intuition congruence.
Qed.

Lemma other_pages_path filePath db r :
  In r (other_pages filePath db) -> path r <> filePath.
Proof.
  unfold other_pages. intros H. apply filter_In in H. destruct H as [_ H].
  apply negb_true_iff in H. now apply String.eqb_neq in H.
Qed.

Lemma UpsertPDFData_cases f clock db filePath h pcs :
  (survives f (3 + List.length pcs) = true /\ schema_ok db = true
   /\ UpsertPDFData f clock db filePath h pcs
      = (replaced clock db filePath h pcs, None))
  \/ ((survives f (3 + List.length pcs) = false \/ schema_ok db = false)
      /\ exists e, UpsertPDFData f clock db filePath h pcs = (db, Some e)).
Proof.
  unfold UpsertPDFData, exec, Rollback.
  destruct (fails f 0) eqn:F0.
  { right. split; [left; apply (fails_not_survives f 0); auto; lia | eauto]. }
  destruct (fails f 1) eqn:F1.
  { right. split; [left; apply (fails_not_survives f 1); auto; lia | eauto]. }
  destruct (delete_pages filePath db) as [tx|c] eqn:D.
  2:{ right. split; [|eauto]. right.
      destruct (schema_ok db) eqn:S; auto.
      apply schema_ok_split in S. destruct S as [S _].
      pose proof (proj2 (delete_pages_Ok filePath db _) (conj S eq_refl)).
      congruence. }
  apply delete_pages_Ok in D. destruct D as [Cd ->].
  destruct (fails f 2) eqn:F2.
  { right. split; [left; apply (fails_not_survives f 2); auto; lia | eauto]. }
  unfold prepare_insert. cbn [triggers].
  rewrite compiles_after_delete.
  destruct (compiles (pdfs_after_insert (triggers db)) db) eqn:Ci.
  2:{ right. split; [|eauto]. right.
      destruct (schema_ok db) eqn:S; auto.
      apply schema_ok_split in S. destruct S as [_ S]. congruence. }
  assert (Sok : schema_ok db = true) by (apply schema_ok_split; auto).
  set (tx := mkDB (other_pages filePath db) (index_after_delete filePath db)
                  (triggers db)).
  destruct (insert_pages f clock filePath h 0 pcs tx) as [tx'|[j c]] eqn:I.
  - apply insert_pages_inl in I. destruct I as (Hp & Ht & Hi & Hf).
    destruct (fails f (3 + List.length pcs)) eqn:F3.
    { right. split; [left; apply (fails_not_survives f (3 + List.length pcs));
                     auto; lia | eauto]. }
    left. split; [|split; auto].
    + apply fails_survives. intros k Hk.
      destruct (Nat.eq_dec k 0) as [->|]; auto.
      destruct (Nat.eq_dec k 1) as [->|]; auto.
      destruct (Nat.eq_dec k 2) as [->|]; auto.
      destruct (Nat.eq_dec k (3 + List.length pcs)) as [->|]; auto.
      apply Hf. lia.
    + unfold replaced. fold tx.
      destruct tx' as [ps es ts]. simpl in *. subst. reflexivity.
  - right. split; [|eauto]. left.
    destruct (survives f (3 + List.length pcs)) eqn:S; auto.
    destruct (insert_pages_succeeds f clock filePath h pcs 0 tx) as [tx' E].
    + intros r Hin Hpath. apply other_pages_path in Hin. contradiction.
    + unfold tx. rewrite compiles_after_delete. exact Ci.
    + intros k Hk. apply (survives_fails f _ k S). lia.
    + congruence.
Qed.

(** C1.  [UpsertPDFData] is all-or-nothing.  Whatever the path, the
    fingerprint, the page sequence and the fault: either the call
    returns no error, and [pdfs] then holds the Pages of the other paths
    followed by exactly one new Page per entry of the sequence, numbered
    1..n, each with the given fingerprint, its entry as content and the
    time of its INSERT; or the call returns an error and the store is
    exactly the store before the call.  The call returns no error
    exactly when no engine call up to the COMMIT fails and every
    trigger finds its table. *)
Theorem UpsertPDFData_all_or_nothing :
  forall (f : Faults) (clock : nat -> Timestamp) (db : DB)
         (filePath h : string) (pageContents : list string),
    let n := List.length pageContents in
    let after := fst (UpsertPDFData f clock db filePath h pageContents) in
    let err := snd (UpsertPDFData f clock db filePath h pageContents) in
    ((err = None
      /\ exists new : list Page,
           pdfs after = (other_pages filePath db ++ new)%list
           /\ map path new = repeat filePath n
           /\ map page_num new = map Z.of_nat (seq 1 n)
           /\ map hash new = repeat h n
           /\ map content new = map Some pageContents
           /\ map last_scanned new = map clock (seq 0 n))
     \/ (err <> None /\ after = db))
    /\ (err = None <-> survives f (3 + n) = true /\ schema_ok db = true).
Proof.
  intros f clock db filePath h pageContents n after err.
  subst after err.
  destruct (UpsertPDFData_cases f clock db filePath h pageContents)
    as [(Hs & Hok & ->)|(Hno & e & ->)]; simpl.
  - split.
    + left. split; [reflexivity|].
      exists (pages_from clock filePath h 0 pageContents).
      split; [reflexivity|].
      split; [apply pages_from_path|].
      split; [apply pages_from_page_num|].
      split; [apply pages_from_hash|].
      split; [apply pages_from_content | apply pages_from_last_scanned].
    + split; auto.
  - split.
    + right. split; [discriminate | reflexivity].
    + split; [discriminate|].
      intros [Hs Hok]. subst n. simpl in Hs, Hno. destruct Hno; congruence.
Qed.

(** ** RebuildFTS, case by case *)

Lemma has_content_Some r c : content r = Some c -> has_content r = true.
Proof. unfold has_content. now intros ->. Qed.

Lemma has_content_None r : content r = None -> has_content r = false.
Proof. unfold has_content. now intros ->. Qed.

Lemma repopulate_inl f rows :
  forall k tx tx' k',
    repopulate f k rows tx = inl (tx', k') ->
    k' = (k + List.length (filter has_content rows))%nat
    /\ pdfs tx' = pdfs tx /\ triggers tx' = triggers tx
    /\ pdfs_fts tx'
       = option_map (fun es => es ++ map entry_of (filter has_content rows))%list
                    (pdfs_fts tx)
    /\ (forall j, (11 + k <= j < 11 + k')%nat -> fails f j = false).
Proof.
  induction rows as [|r rows IH]; intros k tx tx' k'; simpl.
  - intros H. inversion H; subst. repeat split; auto; try lia.
    destruct (pdfs_fts tx'); simpl; auto. now rewrite app_nil_r.
  - destruct (content r) as [c|] eqn:C.
    + rewrite (has_content_Some r c C).
      destruct (exec f _ _) as [tx1|e] eqn:E; [|discriminate].
      apply exec_Ok in E. destruct E as [Hf E].
      unfold insert_entry in E.
      destruct (pdfs_fts tx) as [es|] eqn:Es; [|discriminate].
      inversion E; subst tx1; clear E.
      intros H. apply IH in H. cbn [pdfs pdfs_fts triggers option_map] in H.
      destruct H as (-> & Hp & Ht & Hi & Hfs).
      split; [simpl; lia|].
      split; [exact Hp|]. split; [exact Ht|]. split.
      * rewrite Hi. simpl. f_equal. rewrite <- app_assoc. simpl.
        unfold entry_of at 2. rewrite C. reflexivity.
      * intros j Hj.
        destruct (Nat.eq_dec j (11 + k)) as [->|Hne]; [exact Hf|].
        apply Hfs. simpl in Hj. lia.
    + rewrite (has_content_None r C). intros H. apply IH in H. exact H.
Qed.

Lemma repopulate_succeeds f rows :
  forall k tx es,
    pdfs_fts tx = Some es ->
    (forall j, (11 + k <= j < 11 + k + List.length (filter has_content rows))%nat ->
               fails f j = false) ->
    exists r, repopulate f k rows tx = inl r.
Proof.
  induction rows as [|r rows IH]; intros k tx es Es Hf; simpl.
  - eauto.
  - simpl in Hf. destruct (content r) as [c|] eqn:C.
    + rewrite (has_content_Some r c C) in Hf.
      unfold exec, insert_entry. rewrite Es.
      assert (F : fails f (11 + k) = false) by (apply Hf; simpl; lia).
      simpl in F. rewrite F.
      eapply IH; [reflexivity|].
      intros j Hj. apply Hf. simpl in Hj |- *. lia.
    + rewrite (has_content_None r C) in Hf. eapply IH; eauto.
Qed.

Lemma RebuildFTS_cases f db :
  let n := List.length (filter has_content (pdfs db)) in
  (survives f (11 + n) = true /\ RebuildFTS f db = (rebuilt db, None))
  \/ (survives f (11 + n) = false
      /\ exists e, RebuildFTS f db = (db, Some e)).
Proof.
  intros n.
  destruct (RebuildFTS f db) as [db' err] eqn:HR.
  unfold RebuildFTS, createFTSTable, createTriggers, trigger_names in HR.
  unfold drop_triggers_from, create_triggers_from, exec, Rollback in HR.
  destruct (fails f 0) eqn:F0.
  { inversion HR. right.
    split; [apply (fails_not_survives f 0); auto; lia | eauto]. }
  destruct (fails f 1) eqn:F1.
  { inversion HR. right.
    split; [apply (fails_not_survives f 1); auto; lia | eauto]. }
  destruct (fails f 2) eqn:F2.
  { inversion HR. right.
    split; [apply (fails_not_survives f 2); auto; lia | eauto]. }
  destruct (fails f 3) eqn:F3.
  { inversion HR. right.
    split; [apply (fails_not_survives f 3); auto; lia | eauto]. }
  destruct (fails f 4) eqn:F4.
  { inversion HR. right.
    split; [apply (fails_not_survives f 4); auto; lia | eauto]. }
  destruct (fails f 5) eqn:F5.
  { inversion HR. right.
    split; [apply (fails_not_survives f 5); auto; lia | eauto]. }
  destruct (fails f 6) eqn:F6.
  { inversion HR. right.
    split; [apply (fails_not_survives f 6); auto; lia | eauto]. }
  destruct (fails f 7) eqn:F7.
  { inversion HR. right.
    split; [apply (fails_not_survives f 7); auto; lia | eauto]. }
  destruct (fails f 8) eqn:F8.
  { inversion HR. right.
    split; [apply (fails_not_survives f 8); auto; lia | eauto]. }
  destruct (fails f 9) eqn:F9.
  { inversion HR. right.
    split; [apply (fails_not_survives f 9); auto; lia | eauto]. }
  destruct (fails f 10) eqn:F10.
  { inversion HR. right.
    split; [apply (fails_not_survives f 10); auto; lia | eauto]. }
  unfold create_trigger, drop_trigger, create_fts_table, drop_fts_table,
    set_trigger in HR.
  cbn [pdfs pdfs_fts triggers pdfs_after_insert pdfs_after_delete
       pdfs_after_update_content] in HR.
  change (mkTriggers true true true) with all_triggers in HR.
  set (tx := mkDB (pdfs db) (Some []) all_triggers) in HR.
  destruct (repopulate f 0 (pdfs db) tx) as [[tx' k']|e] eqn:R.
  - apply repopulate_inl in R. simpl in R.
    destruct R as (-> & Hp & Ht & Hi & Hfs). fold n in HR, Hfs.
    destruct (fails f (11 + n)) eqn:F11.
    { inversion HR. right.
      split; [apply (fails_not_survives f (11 + n)); auto | eauto]. }
    inversion HR; subst db' err. left. split.
    + apply fails_survives. intros j Hj.
      do 11 (destruct j as [|j]; [assumption|]).
      destruct (Nat.eq_dec (11 + j) (11 + n)) as [E|Hne].
      * simpl in E. rewrite E. exact F11.
      * apply Hfs. simpl in Hj, Hne |- *. lia.
    + unfold rebuilt. destruct tx' as [ps es ts]. simpl in *. subst.
      reflexivity.
  - inversion HR. right. split; [|eauto].
    destruct (survives f (11 + n)) eqn:S; auto.
    destruct (repopulate_succeeds f (pdfs db) 0 tx []) as [r E]; auto.
    + intros j Hj. apply (survives_fails f _ j S). fold n in Hj. lia.
    + congruence.
Qed.

(** ** The store stays consistent *)

Lemma entry_at_key r e : entry_at r e = true <-> entry_key e = key r.
Proof.
  unfold entry_at, entry_key, key. rewrite andb_true_iff.
  rewrite String.eqb_eq, Z.eqb_eq. split.
  - intros [-> ->]. reflexivity.
  - intros H. inversion H. auto.
Qed.

Lemma entry_key_of r : entry_key (entry_of r) = key r.
Proof. reflexivity. Qed.

Lemma NoDup_map_filter {A B : Type} (k : A -> B) (p : A -> bool) l :
  NoDup (map k l) -> NoDup (map k (filter p l)).
Proof.
  induction l as [|x l IH]; simpl; intros H; [constructor|].
  inversion H as [|? ? Hx Hl]; subst.
  destruct (p x); simpl; auto.
  constructor; auto.
  intros Hin. apply Hx. apply in_map_iff in Hin.
  destruct Hin as (y & Hy & Hin). apply filter_In in Hin.
  apply in_map_iff. exists y. tauto.
Qed.

(** In a list without two elements of the same key, the elements of a
    given key are one element. *)
Lemma filter_unique {A B : Type} (k : A -> B) (p : A -> bool) (b : B) l r :
  (forall x, p x = true <-> k x = b) ->
  NoDup (map k l) -> In r l -> k r = b -> filter p l = [r].
Proof.
  intros Hp. induction l as [|x l IH]; simpl; intros Hnd Hin Hk; [tauto|].
  inversion Hnd as [|? ? Hx Hl]; subst.
  assert (Hnone : forall l', ~ In (k r) (map k l') -> filter p l' = []).
  { induction l' as [|y l' IH']; simpl; intros Hn; auto.
    destruct (p y) eqn:Py.
    - apply Hp in Py. exfalso. apply Hn. left. congruence.
    - apply IH'. tauto. }
  destruct Hin as [->|Hin].
  - rewrite (proj2 (Hp r) eq_refl). f_equal. apply Hnone. exact Hx.
  - destruct (p x) eqn:Px.
    + apply Hp in Px. exfalso. apply Hx.
      rewrite Px. apply in_map_iff. exists r. auto.
    + apply IH; auto.
Qed.

Lemma existsb_deleted filePath ps r0 :
  In r0 ps ->
  existsb (fun r => entry_at r (entry_of r0))
          (filter (fun r => String.eqb (path r) filePath) ps)
  = String.eqb (path r0) filePath.
Proof.
  intros Hin. destruct (String.eqb (path r0) filePath) eqn:E.
  - apply existsb_exists. exists r0. split.
    + apply filter_In. auto.
    + apply entry_at_key. reflexivity.
  - apply not_true_is_false. intros H. apply existsb_exists in H.
    destruct H as (r & Hr & Hat). apply filter_In in Hr.
    destruct Hr as [_ Hr]. apply String.eqb_eq in Hr.
    apply entry_at_key in Hat. unfold entry_key, key in Hat. simpl in Hat.
    inversion Hat. apply String.eqb_neq in E. congruence.
Qed.

Lemma index_after_delete_consistent filePath db :
  consistent db ->
  index_after_delete filePath db = Some (map entry_of (other_pages filePath db)).
Proof.
  intros C. unfold index_after_delete, other_pages, pages_of_path.
  rewrite (c_triggers db C), (c_index db C). simpl. f_equal.
  rewrite filter_map_swap. f_equal.
  apply filter_ext_in. intros r Hin.
  now rewrite existsb_deleted.
Qed.

Lemma NoDup_keys_pages_from clock filePath h pcs :
  forall i, NoDup (map key (pages_from clock filePath h i pcs)).
Proof.
  induction pcs as [|c pcs IH]; intros i; simpl; constructor; auto.
  intros Hin. apply in_map_iff in Hin. destruct Hin as (r & Hk & Hin).
  apply In_pages_from in Hin. destruct Hin as (_ & _ & Hn & _).
  unfold key in Hk. simpl in Hk. inversion Hk. lia.
Qed.

Lemma consistent_fresh : consistent fresh.
Proof.
  split; simpl; auto; try tauto. constructor.
Qed.

Lemma consistent_replaced clock db filePath h pcs :
  consistent db -> consistent (replaced clock db filePath h pcs).
Proof.
  intros C. unfold replaced. split; cbn [pdfs pdfs_fts triggers].
  - apply (c_triggers db C).
  - unfold index_after_insert. cbn [pdfs pdfs_fts triggers].
    rewrite (c_triggers db C), (index_after_delete_consistent _ _ C). simpl.
    now rewrite map_app.
  - rewrite map_app. apply NoDup_app.
    + apply NoDup_map_filter. apply (c_keys db C).
    + apply NoDup_keys_pages_from.
    + intros k H1 H2. apply in_map_iff in H1. apply in_map_iff in H2.
      destruct H1 as (r1 & K1 & H1). destruct H2 as (r2 & K2 & H2).
      apply other_pages_path in H1. apply In_pages_from in H2.
      destruct H2 as (H2 & _). unfold key in *. subst k.
      inversion K2. congruence.
  - intros r Hin. apply in_app_or in Hin. destruct Hin as [Hin|Hin].
    + apply filter_In in Hin. apply (c_content db C). tauto.
    + apply In_pages_from in Hin. destruct Hin as (_ & _ & _ & Hc).
      unfold has_content. destruct (content r); congruence.
  - intros r r' Hin Hin' Hp.
    apply in_app_or in Hin. apply in_app_or in Hin'.
    destruct Hin as [Hin|Hin]; destruct Hin' as [Hin'|Hin'].
    + apply filter_In in Hin. apply filter_In in Hin'.
      apply (c_hash db C); tauto.
    + apply other_pages_path in Hin. apply In_pages_from in Hin'.
      destruct Hin' as (Hp' & _). congruence.
    + apply other_pages_path in Hin'. apply In_pages_from in Hin.
      destruct Hin as (Hp' & _). congruence.
    + apply In_pages_from in Hin. apply In_pages_from in Hin'.
      destruct Hin as (_ & -> & _). destruct Hin' as (_ & -> & _).
      reflexivity.
Qed.

Lemma filter_all {A : Type} (p : A -> bool) l :
  (forall x, In x l -> p x = true) -> filter p l = l.
Proof.
  induction l as [|x l IH]; simpl; intros H; auto.
  rewrite (H x) by auto. f_equal. apply IH. auto.
Qed.

(** On a consistent store a successful rebuild changes nothing. *)
Lemma rebuilt_consistent db : consistent db -> rebuilt db = db.
Proof.
  intros C. unfold rebuilt.
  rewrite (filter_all has_content) by apply (c_content db C).
  destruct db as [ps es ts]. simpl.
  pose proof (c_triggers _ C) as Ht. pose proof (c_index _ C) as Hi.
  simpl in Ht, Hi. now subst.
Qed.

Lemma consistent_UpsertPDFData f clock db filePath h pcs :
  consistent db ->
  consistent (fst (UpsertPDFData f clock db filePath h pcs)).
Proof.
  intros C.
  destruct (UpsertPDFData_cases f clock db filePath h pcs)
    as [(_ & _ & ->)|(_ & e & ->)]; simpl; auto.
  now apply consistent_replaced.
Qed.

Lemma consistent_RebuildFTS f db :
  consistent db -> consistent (fst (RebuildFTS f db)).
Proof.
  intros C.
  destruct (RebuildFTS_cases f db) as [(_ & ->)|(_ & e & ->)]; simpl; auto.
  now rewrite rebuilt_consistent.
Qed.

(** Opening a store that is in order changes nothing, whichever
    statement of [initSchema] fails. *)
Lemma initSchema_consistent f db :
  consistent db -> fst (initSchema f db) = db.
Proof.
  intros C. destruct db as [ps es ts].
  pose proof (c_triggers _ C) as Ht. pose proof (c_index _ C) as Hi.
  simpl in Ht, Hi. subst ts es.
  unfold initSchema, createFTSTable, createTriggers, trigger_names,
    create_triggers_from, exec.
  destruct (fails f 0); [reflexivity|].
  destruct (fails f 1); [reflexivity|].
  destruct (fails f 2); [reflexivity|].
  destruct (fails f 3); [reflexivity|].
  destruct (fails f 4); reflexivity.
Qed.

(** A database file before its first successful [New]: no Page, and no
    IndexEntry if the index exists at all. *)
Lemma New_from_blank (attempts : list Faults) :
  let file := fold_left (fun db f => fst (initSchema f db)) attempts blank in
  pdfs file = []
  /\ (pdfs_fts file = None \/ pdfs_fts file = Some [])
  /\ initSchema None file = (fresh, None).
Proof.
  assert (H : forall db,
             pdfs db = [] ->
             pdfs_fts db = None \/ pdfs_fts db = Some [] ->
             let file := fold_left (fun db f => fst (initSchema f db))
                                   attempts db in
             pdfs file = []
             /\ (pdfs_fts file = None \/ pdfs_fts file = Some [])
             /\ initSchema None file = (fresh, None)).
  { induction attempts as [|f fs IH]; intros db Hp Hi; simpl.
    - split; [exact Hp|]. split; [exact Hi|].
      destruct db as [ps es ts]. simpl in Hp, Hi. subst ps.
      destruct Hi as [->| ->]; reflexivity.
    - apply IH.
      + destruct db as [ps es ts]. simpl in Hp. subst ps.
        unfold initSchema, createFTSTable, createTriggers, trigger_names,
          create_triggers_from, exec.
        destruct (fails f 0); [reflexivity|].
        destruct (fails f 1); [reflexivity|].
        destruct (fails f 2); [destruct es; reflexivity|].
        destruct (fails f 3); [destruct es; reflexivity|].
        destruct (fails f 4); destruct es; reflexivity.
      + destruct db as [ps es ts]. simpl in Hi.
        unfold initSchema, createFTSTable, createTriggers, trigger_names,
          create_triggers_from, exec.
        destruct (fails f 0); [exact Hi|].
        destruct (fails f 1); [exact Hi|].
        destruct (fails f 2);
          [destruct Hi as [->| ->]; simpl; auto|].
        destruct (fails f 3);
          [destruct Hi as [->| ->]; simpl; auto|].
        destruct (fails f 4); destruct Hi as [->| ->]; simpl; auto. }
  apply H; simpl; auto.
Qed.

Lemma consistent_call db c : consistent db -> consistent (call db c).
Proof.
  destruct c; simpl; intros C.
  - now rewrite initSchema_consistent.
  - now apply consistent_UpsertPDFData.
  - now apply consistent_RebuildFTS.
Qed.

Lemma consistent_run history :
  forall db, consistent db -> consistent (run history db).
Proof.
  unfold run. induction history as [|c history IH]; simpl; intros db C; auto.
  apply IH. now apply consistent_call.
Qed.

Lemma schema_ok_consistent db : consistent db -> schema_ok db = true.
Proof.
  intros C. unfold schema_ok, compiles. now rewrite (c_index db C).
Qed.

Lemma option_string_eqb_eq a b : option_string_eqb a b = true <-> a = b.
Proof.
  destruct a as [x|], b as [y|]; simpl; split; try congruence.
  - intros H. apply String.eqb_eq in H. congruence.
  - intros H. inversion H. apply String.eqb_refl.
Qed.

Lemma NoDup_map_In_eq {A B : Type} (k : A -> B) l a b :
  NoDup (map k l) -> In a l -> In b l -> k a = k b -> a = b.
Proof.
  induction l as [|x l IH]; simpl; intros Hnd Ha Hb Hk; [tauto|].
  inversion Hnd as [|? ? Hx Hl]; subst.
  destruct Ha as [->|Ha]; destruct Hb as [->|Hb]; auto.
  - exfalso. apply Hx. rewrite Hk. now apply in_map.
  - exfalso. apply Hx. rewrite <- Hk. now apply in_map.
Qed.

Lemma same_pk_key a b : same_pk a b = true <-> key a = key b.
Proof.
  unfold same_pk, key. rewrite andb_true_iff, String.eqb_eq, Z.eqb_eq.
  split; [intros [-> ->]; reflexivity | intros H; inversion H; auto].
Qed.

(** The third trigger, which no statement of the source fires: were
    the content of a Page updated in place, its body would leave the
    index the image of [pdfs] again. *)
Lemma update_trigger_in_step l old c :
  NoDup (map key l) -> In old l ->
  let new := mkPage (path old) (page_num old) (hash old) c
                    (last_scanned old) in
  after_update_content_body old new (map entry_of l)
  = map entry_of (map (fun r => if same_pk old r then new else r) l).
Proof.
  intros Hnd Hin new. unfold after_update_content_body.
  rewrite !map_map.
  destruct (option_string_eqb (content new) (content old)) eqn:E.
  - apply option_string_eqb_eq in E. simpl in E.
    apply map_ext_in. intros r Hr.
    destruct (same_pk old r) eqn:K; auto.
    apply same_pk_key in K.
    assert (Hr' : old = r) by exact (NoDup_map_In_eq key l old r Hnd Hin Hr K).
    subst r. unfold new, entry_of. simpl. now rewrite E.
  - apply map_ext_in. intros r Hr.
    destruct (same_pk old r) eqn:K.
    + apply same_pk_key in K.
      assert (Hat : entry_at new (entry_of r) = true).
      { apply entry_at_key. rewrite entry_key_of. now rewrite <- K. }
      rewrite Hat. unfold entry_of, key in *. simpl in *.
      inversion K. reflexivity.
    + assert (Hat : entry_at new (entry_of r) = false).
      { apply not_true_is_false. intros H. apply entry_at_key in H.
        rewrite entry_key_of in H.
        assert (key old = key r) by (rewrite H; reflexivity).
        apply same_pk_key in H0. congruence. }
      now rewrite Hat.
Qed.

(** C2.  The Page/IndexEntry bijection holds after every history of
    [UpsertPDFData] and [RebuildFTS] calls (and of openings of the
    database in between) on a fresh store, whatever their arguments and
    whichever engine call fails in each: for every
    Page the IndexEntries at its key are exactly one, the entry with
    the path, the page number and the content of the Page; for every
    IndexEntry the Pages at its key are exactly one, and the IndexEntry
    has its path, page number and content. *)
Theorem page_index_bijection :
  forall (history : list Call),
    let db := run history fresh in
    (forall r, In r (pdfs db) -> entries_at r db = [entry_of r])
    /\ (forall e, In e (entries db) ->
          exists r, pages_at e db = [r] /\ entry_of r = e).
Proof.
  intros history db.
  assert (C : consistent db) by (apply consistent_run, consistent_fresh).
  unfold entries_at, pages_at, entries. rewrite (c_index db C).
  split.
  - intros r Hin.
    apply (filter_unique entry_key _ (key r)).
    + intros x. apply entry_at_key.
    + rewrite map_map. apply (c_keys db C).
    + now apply in_map.
    + reflexivity.
  - intros e Hin. apply in_map_iff in Hin. destruct Hin as (r & <- & Hin).
    exists r. split; [|reflexivity].
    apply (filter_unique key _ (key r)).
    + intros x. rewrite entry_at_key. rewrite entry_key_of.
      split; congruence.
    + apply (c_keys db C).
    + exact Hin.
    + reflexivity.
Qed.

(** ** GetStoredHash *)

Lemma GetStoredHash_cases f db p :
  (fails f 0 = false
   /\ GetStoredHash f db p = (or_empty (stored_fingerprint db p), None))
  \/ (fails f 0 = true
      /\ exists e, GetStoredHash f db p = (EmptyString, Some e)).
Proof.
  unfold GetStoredHash, exec, stored_fingerprint.
  destruct (fails f 0); [right; eauto|left].
  split; auto. destruct (find _ (pdfs db)); reflexivity.
Qed.

Lemma GetStoredHash_None db p :
  GetStoredHash None db p = (or_empty (stored_fingerprint db p), None).
Proof.
  destruct (GetStoredHash_cases None db p) as [[_ H]|[H _]]; auto.
  discriminate.
Qed.

Lemma stored_fingerprint_In db p r :
  (forall r r', In r (pdfs db) -> In r' (pdfs db) ->
                path r = path r' -> hash r = hash r') ->
  In r (pdfs db) -> path r = p ->
  stored_fingerprint db p = Some (hash r).
Proof.
  intros Hh Hin Hp. unfold stored_fingerprint.
  destruct (find _ (pdfs db)) as [r0|] eqn:F; simpl.
  - apply find_some in F. destruct F as [Hin0 E].
    apply String.eqb_eq in E. f_equal. apply Hh; auto. congruence.
  - exfalso. apply (find_none _ _ F) in Hin.
    apply String.eqb_neq in Hin. contradiction.
Qed.

(** C9.  After every history of calls on a fresh store, the Pages of a
    path all carry one fingerprint, and [GetStoredHash] returns, for the
    path of any Page, the fingerprint of that very Page: whichever Page
    of the path LIMIT 1 picks, the answer is the same. *)
Theorem single_fingerprint :
  forall (history : list Call),
    let db := run history fresh in
    (forall r r', In r (pdfs db) -> In r' (pdfs db) ->
                  path r = path r' -> hash r = hash r')
    /\ (forall r, In r (pdfs db) ->
                  GetStoredHash None db (path r) = (hash r, None)).
Proof.
  intros history db.
  assert (C : consistent db) by (apply consistent_run, consistent_fresh).
  split; [apply (c_hash db C)|].
  intros r Hin. rewrite GetStoredHash_None.
  rewrite (stored_fingerprint_In db (path r) r (c_hash db C) Hin eq_refl).
  reflexivity.
Qed.

(** ** checkHashes *)

(** What [checkHashes] decides for the [j]-th file, reading its fault
    at [faults (i + j)]: the entry it appends, if any. *)
Lemma In_check_hashes_from pp faults db forced files :
  forall i info,
    In info (fst (check_hashes_from pp faults db forced i files)) <->
    exists j,
      nth_error files j = Some (Path info)
      /\ HashFile pp (Path info) = Some (CurrentHash info)
      /\ GetStoredHash (faults (i + j)%nat) db (Path info)
         = (StoredHash info, None)
      /\ forced || negb (String.eqb (CurrentHash info) (StoredHash info)) = true
      /\ NeedsUpdate info = true.
Proof.
  induction files as [|p rest IH]; intros i info; simpl.
  - split; [tauto|]. intros (j & H & _). destruct j; discriminate.
  - specialize (IH (S i) info).
    destruct (check_hashes_from pp faults db forced (S i) rest)
      as [todo ws] eqn:R.
    simpl in IH.
    assert (Hrest :
      In info todo <->
      exists j, nth_error (p :: rest) (S j) = Some (Path info)
        /\ HashFile pp (Path info) = Some (CurrentHash info)
        /\ GetStoredHash (faults (i + S j)%nat) db (Path info)
           = (StoredHash info, None)
        /\ forced || negb (String.eqb (CurrentHash info) (StoredHash info)) = true
        /\ NeedsUpdate info = true).
    { rewrite IH. split; intros (j & H); exists j;
        [rewrite Nat.add_succ_r | rewrite Nat.add_succ_r in H]; exact H. }
    assert (Hskip :
      ~ (HashFile pp p = Some (CurrentHash info)
         /\ GetStoredHash (faults i) db p = (StoredHash info, None)
         /\ forced || negb (String.eqb (CurrentHash info) (StoredHash info)) = true
         /\ Path info = p) ->
      (In info todo <->
       exists j, nth_error (p :: rest) j = Some (Path info)
        /\ HashFile pp (Path info) = Some (CurrentHash info)
        /\ GetStoredHash (faults (i + j)%nat) db (Path info)
           = (StoredHash info, None)
        /\ forced || negb (String.eqb (CurrentHash info) (StoredHash info)) = true
        /\ NeedsUpdate info = true)).
    { intros Hno. rewrite Hrest. split.
      - intros (j & H). exists (S j). exact H.
      - intros ([|j] & H); [|exists j; exact H].
        exfalso. apply Hno. rewrite Nat.add_0_r in H. simpl in H.
        destruct H as (Hp & Hh & Hg & Hn & _). inversion Hp; subst p. tauto. }
    destruct (HashFile pp p) as [cur|] eqn:Hcur.
    2:{ simpl. apply Hskip. intros (H & _). discriminate. }
    destruct (GetStoredHash (faults i) db p) as [st [e|]] eqn:Hst.
    { simpl. apply Hskip. intros (_ & H & _). discriminate. }
    destruct (forced || negb (String.eqb cur st)) eqn:Hneeds.
    2:{ simpl. apply Hskip. intros (H1 & H2 & H3 & _).
        inversion H1; inversion H2; subst. congruence. }
    simpl. split.
    + intros [<-|Hin].
      * exists 0%nat. simpl. rewrite Nat.add_0_r. auto.
      * apply Hrest in Hin. destruct Hin as (j & H). exists (S j). exact H.
    + intros ([|j] & H).
      * left. rewrite Nat.add_0_r in H. simpl in H.
        destruct H as (Hp & Hh & Hg & _ & Hn). inversion Hp; subst p.
        destruct info as [ip ic ist inu]. simpl in *. congruence.
      * right. apply Hrest. exists j. exact H.
Qed.

Lemma hex_digits_length k n : String.length (hex_digits k n) = k.
Proof. induction k; simpl; auto. Qed.

(** A fingerprint is never the empty string: it has 40 digits. *)
Lemma HashFile_not_empty pp p h : HashFile pp p = Some h -> h <> EmptyString.
Proof.
  unfold HashFile. destruct (read_file pp p) as [bytes|]; [|discriminate].
  intros H E. rewrite E in H.
  pose proof (f_equal (fun o => match o with
                                | Some s => String.length s
                                | None => 1%nat
                                end) H) as L.
  cbv beta iota in L. rewrite hex_digits_length in L.
  cbn [String.length] in L. discriminate L.
Qed.

Lemma needs_update_false forced cur db p :
  cur <> EmptyString ->
  forced || negb (String.eqb cur (or_empty (stored_fingerprint db p))) = false
  <-> forced = false /\ stored_fingerprint db p = Some cur.
Proof.
  intros Hne. rewrite orb_false_iff, negb_false_iff, String.eqb_eq.
  destruct (stored_fingerprint db p) as [s|]; simpl.
  - split; intros [H1 H2]; split; congruence.
  - split; intros [H1 H2]; [contradiction | discriminate].
Qed.

Lemma checkHashes_todo pp faults db files forced :
  fst (fst (checkHashes pp faults db files forced))
  = fst (check_hashes_from pp faults db forced 0 files).
Proof.
  unfold checkHashes.
  now destruct (check_hashes_from pp faults db forced 0 files).
Qed.

Lemma checkHashes_returns_nil pp faults db files forced :
  snd (fst (checkHashes pp faults db files forced)) = None.
Proof.
  unfold checkHashes.
  now destruct (check_hashes_from pp faults db forced 0 files).
Qed.

(** Every entry of the worklist carries the fingerprint of its file. *)
Lemma checkHashes_CurrentHash pp faults db files forced info :
  In info (fst (fst (checkHashes pp faults db files forced))) ->
  In (Path info) files /\ HashFile pp (Path info) = Some (CurrentHash info).
Proof.
  rewrite checkHashes_todo. intros H.
  apply In_check_hashes_from in H. destruct H as (j & Hj & Hh & _).
  split; auto. eapply nth_error_In; eauto.
Qed.

(** C3.  The change detector.  Take a file of the list whose fingerprint
    [h] can be computed and whose stored fingerprint can be read.  It is
    left out of the worklist (Unchanged) if and only if the scan is not
    forced and [h] is the fingerprint stored for its path; otherwise it
    is in the worklist, with [h] as current hash and, as stored hash,
    the stored fingerprint (Stale) or the empty string when the path has
    no Page (New). *)
Theorem checkHashes_classification :
  forall (pdfProcessor : Extractor) (faults : nat -> Faults) (db : DB)
         (pdfFiles : list string) (forceRescan : bool)
         (i : nat) (p h : string),
    nth_error pdfFiles i = Some p ->
    HashFile pdfProcessor p = Some h ->
    fails (faults i) 0 = false ->
    let filesToProcess :=
      fst (fst (checkHashes pdfProcessor faults db pdfFiles forceRescan)) in
    (~ In p (map Path filesToProcess)
     <-> forceRescan = false /\ stored_fingerprint db p = Some h)
    /\ (In (mkPDFFileInfo p h (or_empty (stored_fingerprint db p)) true)
           filesToProcess
        <-> forceRescan = true \/ stored_fingerprint db p <> Some h).
Proof.
  intros pp faults db files forced i p h Hi Hh Hf todo.
  pose proof (HashFile_not_empty pp p h Hh) as Hne.
  pose proof (needs_update_false forced h db p Hne) as Hfalse.
  assert (Hstored : GetStoredHash (faults i) db p
                    = (or_empty (stored_fingerprint db p), None)).
  { destruct (GetStoredHash_cases (faults i) db p) as [[_ H]|[H _]];
      [exact H | congruence]. }
  assert (Hsel :
    In (mkPDFFileInfo p h (or_empty (stored_fingerprint db p)) true) todo
    <-> forced || negb (String.eqb h (or_empty (stored_fingerprint db p)))
        = true).
  { unfold todo. rewrite checkHashes_todo, In_check_hashes_from. simpl. split.
    - intros (j & _ & _ & _ & H & _). exact H.
    - intros H. exists i. auto. }
  assert (Hany : In p (map Path todo) ->
    forced || negb (String.eqb h (or_empty (stored_fingerprint db p))) = true).
  { intros Hin. apply in_map_iff in Hin. destruct Hin as (info & Hp & Hin).
    unfold todo in Hin. rewrite checkHashes_todo in Hin.
    apply In_check_hashes_from in Hin.
    destruct Hin as (j & _ & Hcur & Hst & Hn & _). rewrite Hp in *.
    assert (CurrentHash info = h) by congruence.
    destruct (GetStoredHash_cases (faults (0 + j)%nat) db p)
      as [[_ H']|[_ [e H']]]; rewrite H' in Hst; inversion Hst.
    congruence. }
  split.
  - rewrite <- Hfalse. split.
    + intros Hnot. apply not_true_is_false. intros Htrue.
      apply Hnot. apply Hsel in Htrue.
      apply in_map_iff. eexists. split; [|exact Htrue]. reflexivity.
    + intros Hno Hin. apply Hany in Hin. congruence.
  - rewrite Hsel. split.
    + intros Htrue. destruct forced; [left; reflexivity|right].
      intros Hs. assert (false = false /\ stored_fingerprint db p = Some h)
        as Hc by auto.
      apply Hfalse in Hc. congruence.
    + intros Hor. apply not_false_is_true. intros Hc.
      apply Hfalse in Hc. destruct Hc as [-> Hs].
      destruct Hor as [?|Hor]; [discriminate | contradiction].
Qed.

(** ** The fingerprint stored after a replacement *)

Lemma find_app {A : Type} (p : A -> bool) l1 l2 :
  find p (l1 ++ l2)
  = match find p l1 with
    | Some x => Some x
    | None => find p l2
    end.
Proof.
  induction l1 as [|x l1 IH]; simpl; auto. destruct (p x); auto.
Qed.

Lemma find_other_pages db p q :
  q <> p ->
  find (fun r => String.eqb (path r) p) (other_pages q db)
  = find (fun r => String.eqb (path r) p) (pdfs db).
Proof.
  intros Hne. unfold other_pages.
  induction (pdfs db) as [|r l IH]; simpl; auto.
  destruct (String.eqb (path r) q) eqn:Eq; simpl.
  - apply String.eqb_eq in Eq.
    assert (E : String.eqb (path r) p = false)
      by (apply String.eqb_neq; congruence).
    now rewrite E.
  - destruct (String.eqb (path r) p); auto.
Qed.

Lemma find_own_pages_none db p :
  find (fun r => String.eqb (path r) p) (other_pages p db) = None.
Proof.
  destruct (find _ (other_pages p db)) as [r|] eqn:F; auto.
  apply find_some in F. destruct F as [Hin E].
  apply other_pages_path in Hin. apply String.eqb_eq in E. contradiction.
Qed.

Lemma find_pages_from_other clock q h i pcs p :
  q <> p ->
  find (fun r => String.eqb (path r) p) (pages_from clock q h i pcs) = None.
Proof.
  intros Hne.
  destruct (find _ (pages_from clock q h i pcs)) as [r|] eqn:F; auto.
  apply find_some in F. destruct F as [Hin E].
  apply In_pages_from in Hin. destruct Hin as (Hp & _).
  apply String.eqb_eq in E. congruence.
Qed.

Lemma stored_replaced_other clock db q h pcs p :
  q <> p ->
  stored_fingerprint (replaced clock db q h pcs) p = stored_fingerprint db p.
Proof.
  intros Hne. unfold stored_fingerprint, replaced. cbn [pdfs].
  rewrite find_app, find_other_pages, find_pages_from_other by auto.
  now destruct (find _ (pdfs db)).
Qed.

Lemma stored_replaced_same clock db p h pcs :
  stored_fingerprint (replaced clock db p h pcs) p
  = match pcs with
    | [] => None
    | _ :: _ => Some h
    end.
Proof.
  unfold stored_fingerprint, replaced. cbn [pdfs].
  rewrite find_app, find_own_pages_none.
  destruct pcs as [|c pcs]; simpl; auto.
  now rewrite String.eqb_refl.
Qed.

Lemma pages_of_path_replaced clock db p h pcs :
  pages_of_path p (replaced clock db p h pcs) = pages_from clock p h 0 pcs.
Proof.
  unfold pages_of_path, replaced. cbn [pdfs]. rewrite filter_app.
  assert (E1 : filter (fun r => String.eqb (path r) p) (other_pages p db) = []).
  { unfold other_pages. induction (pdfs db) as [|r l IH]; simpl; auto.
    destruct (String.eqb (path r) p) eqn:E; simpl; auto. now rewrite E. }
  rewrite E1. simpl. apply filter_all.
  intros r Hin. apply In_pages_from in Hin. destruct Hin as (-> & _).
  apply String.eqb_refl.
Qed.

(** C10.  A document of zero pages.  On every store the program can
    have built: the extractor returns the empty sequence for it;
    [UpsertPDFData] with the empty sequence succeeds when the engine
    does, and leaves no Page and no IndexEntry for the path;
    [GetStoredHash] then returns the empty string and no error; and
    [checkHashes] puts the document on the worklist again, forced or
    not, with the empty string as stored hash. *)
Theorem zero_pages_reprocessed :
  forall (history : list Call) (pdfProcessor : Extractor)
         (clock : nat -> Timestamp) (p h : string) (forceRescan : bool),
    fitz_pages pdfProcessor p = Some [] ->
    HashFile pdfProcessor p = Some h ->
    let db := run history fresh in
    let after := fst (UpsertPDFData None clock db p h []) in
    ExtractPagesText pdfProcessor p = Some []
    /\ snd (UpsertPDFData None clock db p h []) = None
    /\ pages_of_path p after = []
    /\ entries_of_path p after = []
    /\ GetStoredHash None after p = (EmptyString, None)
    /\ checkHashes pdfProcessor (fun _ => None) after [p] forceRescan
       = (([mkPDFFileInfo p h EmptyString true], None), []).
Proof.
  intros history pp clock p h forced Hz Hh db after.
  assert (C : consistent db) by (apply consistent_run, consistent_fresh).
  assert (E : UpsertPDFData None clock db p h []
              = (replaced clock db p h [], None)).
  { destruct (UpsertPDFData_cases None clock db p h [])
      as [(_ & _ & H)|([H|H] & _)]; auto; [discriminate|].
    rewrite (schema_ok_consistent db C) in H. discriminate. }
  assert (C' : consistent after).
  { unfold after. rewrite E. simpl. now apply consistent_replaced. }
  assert (Hp : pages_of_path p after = []).
  { unfold after. rewrite E. simpl. now rewrite pages_of_path_replaced. }
  assert (Hs : stored_fingerprint after p = None).
  { unfold after. rewrite E. simpl. now rewrite stored_replaced_same. }
  split; [unfold ExtractPagesText; now rewrite Hz|].
  split; [now rewrite E|].
  split; [exact Hp|].
  split.
  { unfold entries_of_path, entries. rewrite (c_index after C').
    rewrite filter_map_swap. unfold pages_of_path in Hp.
    change (fun a => String.eqb (fts_path (entry_of a)) p)
      with (fun a => String.eqb (path a) p).
    now rewrite Hp. }
  split; [rewrite GetStoredHash_None, Hs; reflexivity|].
  unfold checkHashes, check_hashes_from. rewrite Hh.
  rewrite GetStoredHash_None, Hs. simpl.
  pose proof (HashFile_not_empty pp p h Hh) as Hne.
  apply String.eqb_neq in Hne. rewrite Hne.
  now rewrite orb_true_r.
Qed.

(** ** The two loops of the scan *)

Lemma check_hashes_from_numbered pp faults db forced files :
  forall i,
    check_hashes_from pp faults db forced i files
    = (List.concat (map (fun ip => fst (check_one pp (faults (fst ip)) db forced
                                             (snd ip)))
                   (numbered i files)),
       List.concat (map (fun ip => snd (check_one pp (faults (fst ip)) db forced
                                             (snd ip)))
                   (numbered i files))).
Proof.
  induction files as [|p rest IH]; intros i; simpl; auto.
  rewrite IH. unfold check_one.
  destruct (HashFile pp p) as [cur|]; simpl; auto.
  destruct (GetStoredHash (faults i) db p) as [st [e|]]; simpl; auto.
  destruct (forced || negb (String.eqb cur st)); simpl; auto.
Qed.

Lemma schema_ok_replaced clock db p h pcs :
  schema_ok (replaced clock db p h pcs) = schema_ok db.
Proof.
  unfold schema_ok, compiles, replaced, index_after_insert, index_after_delete.
  cbn [pdfs pdfs_fts triggers].
  destruct (pdfs_after_insert (triggers db));
    destruct (pdfs_after_delete (triggers db));
    destruct (pdfs_fts db); reflexivity.
Qed.

Lemma pages_of_path_replaced_other clock db q h pcs p :
  q <> p ->
  pages_of_path p (replaced clock db q h pcs) = pages_of_path p db.
Proof.
  intros Hne. unfold pages_of_path, replaced. cbn [pdfs]. rewrite filter_app.
  assert (E2 : filter (fun r => String.eqb (path r) p)
                      (pages_from clock q h 0 pcs) = []).
  { generalize 0%nat. induction pcs as [|c pcs IH]; intros i; simpl; auto.
    assert (E : String.eqb q p = false) by now apply String.eqb_neq.
    rewrite E. apply IH. }
  rewrite E2, app_nil_r. unfold other_pages.
  induction (pdfs db) as [|r l IH]; simpl; auto.
  destruct (String.eqb (path r) q) eqn:Eq; simpl.
  - apply String.eqb_eq in Eq.
    assert (E : String.eqb (path r) p = false)
      by (apply String.eqb_neq; congruence).
    now rewrite E.
  - destruct (String.eqb (path r) p); simpl; now rewrite IH.
Qed.

Lemma process_from_spec pp faults clock todo :
  forall i cnt db,
    let r := process_from pp faults clock i cnt db todo in
    returned r = None
    /\ map outcome_path (outcomes r) = map Path todo
    /\ count r = (cnt + List.length (filter is_updated (outcomes r)))%nat
    /\ schema_ok (store r) = schema_ok db
    /\ (forall j fileInfo,
          nth_error todo j = Some fileInfo ->
          exists o, nth_error (outcomes r) j = Some o
                    /\ outcome_path o = Path fileInfo
                    /\ is_updated o
                       = gets_stored pp (faults (i + j)%nat) db fileInfo)
    /\ (forall p, ~ In (Updated p) (outcomes r) ->
                  pages_of_path p (store r) = pages_of_path p db).
Proof.
  induction todo as [|fi rest IH]; intros i cnt db; simpl.
  - repeat split; auto.
    intros j fileInfo H. destruct j; discriminate.
  - assert (Hshift : forall (o : Outcome) (r' : Processed) db',
      schema_ok db' = schema_ok db ->
      (forall j fileInfo, nth_error rest j = Some fileInfo ->
         exists o', nth_error (outcomes r') j = Some o'
                    /\ outcome_path o' = Path fileInfo
                    /\ is_updated o'
                       = gets_stored pp (faults (S i + j)%nat) db' fileInfo) ->
      outcome_path o = Path fi ->
      is_updated o = gets_stored pp (faults i) db fi ->
      forall j fileInfo, nth_error (fi :: rest) j = Some fileInfo ->
        exists o', nth_error (outcomes (and_then o r')) j = Some o'
                   /\ outcome_path o' = Path fileInfo
                   /\ is_updated o'
                      = gets_stored pp (faults (i + j)%nat) db fileInfo).
    { intros o r' db' Hs Hrest Hp Hu [|j] fileInfo Hj; simpl in *.
      - inversion Hj; subst. exists o. rewrite Nat.add_0_r. auto.
      - destruct (Hrest j fileInfo Hj) as (o' & H1 & H2 & H3).
        exists o'. rewrite Nat.add_succ_r. repeat split; auto.
        rewrite H3. unfold gets_stored. now rewrite Hs. }
    destruct (ExtractPagesText pp (Path fi)) as [pages|] eqn:Ex.
    + destruct (UpsertPDFData_cases (faults i) (clock i) db (Path fi)
                  (CurrentHash fi) pages) as [(Hs & Hok & ->)|(Hno & e & ->)].
      * specialize (IH (S i) (S cnt)
                       (replaced (clock i) db (Path fi) (CurrentHash fi) pages)).
        destruct IH as (H1 & H2 & H3 & H4 & H5 & H6). simpl.
        split; [exact H1|]. split; [now rewrite H2|].
        split; [rewrite H3; lia|].
        split; [now rewrite H4, schema_ok_replaced|].
        split.
        -- apply (Hshift _ _ _ (schema_ok_replaced _ _ _ _ _) H5); auto.
           unfold gets_stored. rewrite Ex, Hs, Hok. reflexivity.
        -- intros p Hnot. rewrite H6 by tauto.
           apply pages_of_path_replaced_other. intros E. apply Hnot.
           left. now rewrite E.
      * specialize (IH (S i) cnt db).
        destruct IH as (H1 & H2 & H3 & H4 & H5 & H6). simpl.
        split; [exact H1|]. split; [now rewrite H2|].
        split; [exact H3|]. split; [exact H4|].
        split.
        -- apply (Hshift _ _ _ eq_refl H5); auto.
           unfold gets_stored. rewrite Ex.
           destruct Hno as [H | H]; rewrite H; [reflexivity|].
           now rewrite andb_false_r.
        -- intros p Hnot. apply H6. intros Hin. apply Hnot. right. exact Hin.
    + specialize (IH (S i) cnt db).
      destruct IH as (H1 & H2 & H3 & H4 & H5 & H6). simpl.
      split; [exact H1|]. split; [now rewrite H2|].
      split; [exact H3|]. split; [exact H4|].
      split.
      * apply (Hshift _ _ _ eq_refl H5); auto.
        unfold gets_stored. now rewrite Ex.
      * intros p Hnot. apply H6. intros Hin. apply Hnot. right. exact Hin.
Qed.

Lemma gets_stored_schema pp f db db' fi :
  schema_ok db' = schema_ok db ->
  gets_stored pp f db' fi = gets_stored pp f db fi.
Proof.
  intros H. unfold gets_stored. now rewrite H.
Qed.

(** A document that is stored: its transaction puts its pages in place
    of those of its path. *)
Lemma stored_step pp f clock db fi pcs :
  ExtractPagesText pp (Path fi) = Some pcs ->
  gets_stored pp f db fi = true ->
  UpsertPDFData f clock db (Path fi) (CurrentHash fi) pcs
  = (replaced clock db (Path fi) (CurrentHash fi) pcs, None).
Proof.
  intros Ex Hg. unfold gets_stored in Hg. rewrite Ex in Hg.
  apply andb_true_iff in Hg. destruct Hg as [Hs Hok].
  destruct (UpsertPDFData_cases f clock db (Path fi) (CurrentHash fi) pcs)
    as [(_ & _ & E)|([H|H] & _)]; [exact E| |]; congruence.
Qed.

(** A document that is not stored: the store stays as it was. *)
Lemma skipped_step pp f clock db fi pcs :
  ExtractPagesText pp (Path fi) = Some pcs ->
  gets_stored pp f db fi = false ->
  exists e, UpsertPDFData f clock db (Path fi) (CurrentHash fi) pcs
            = (db, Some e).
Proof.
  intros Ex Hg. unfold gets_stored in Hg. rewrite Ex in Hg.
  destruct (UpsertPDFData_cases f clock db (Path fi) (CurrentHash fi) pcs)
    as [(Hs & Hok & _)|(_ & e & E)]; [|eauto].
  rewrite Hs, Hok in Hg. discriminate.
Qed.

(** The Pages of a path are those of the last document stored for it. *)
Lemma process_from_last_stored pp faults clock todo :
  forall i cnt db j fileInfo pageContents,
    nth_error todo j = Some fileInfo ->
    ExtractPagesText pp (Path fileInfo) = Some pageContents ->
    gets_stored pp (faults (i + j)%nat) db fileInfo = true ->
    (forall k fi',
        (j < k)%nat -> nth_error todo k = Some fi' ->
        Path fi' = Path fileInfo ->
        gets_stored pp (faults (i + k)%nat) db fi' = false) ->
    pages_of_path (Path fileInfo)
                  (store (process_from pp faults clock i cnt db todo))
    = pages_from (clock (i + j)%nat) (Path fileInfo) (CurrentHash fileInfo) 0
                 pageContents.
Proof.
  induction todo as [|fi rest IH];
    intros i cnt db j fileInfo pcs Hnth Ex Hg Hlater.
  - destruct j; discriminate.
  - destruct j as [|j].
    + (* the document itself: stored here, not replaced afterwards *)
      injection Hnth as ->. rewrite Nat.add_0_r in *.
      cbn [process_from]. rewrite Ex.
      rewrite (stored_step pp (faults i) (clock i) db fileInfo pcs Ex Hg).
      cbn [store and_then].
      set (db' := replaced (clock i) db (Path fileInfo)
                           (CurrentHash fileInfo) pcs).
      destruct (process_from_spec pp faults clock rest (S i) (S cnt) db')
        as (_ & _ & _ & _ & H5 & H6).
      rewrite H6; [apply pages_of_path_replaced|].
      intros Hin. apply In_nth_error in Hin. destruct Hin as [k Hk].
      assert (Hsome : nth_error (map outcome_path
                        (outcomes (process_from pp faults clock (S i) (S cnt)
                                                db' rest))) k
                      = Some (Path fileInfo))
        by (rewrite nth_error_map, Hk; reflexivity).
      destruct (nth_error rest k) as [fi'|] eqn:Hfi.
      * destruct (H5 k fi' Hfi) as (o & Ho & Hp & Hu).
        rewrite Hk in Ho. injection Ho as <-.
        cbn [outcome_path is_updated] in Hp, Hu.
        rewrite (gets_stored_schema pp _ db db' fi'
                   (schema_ok_replaced _ _ _ _ _)) in Hu.
        assert (Hf : gets_stored pp (faults (i + S k)%nat) db fi' = false)
          by (apply Hlater; [lia | exact Hfi | now symmetry]).
        replace (i + S k)%nat with (S i + k)%nat in Hf by lia.
        congruence.
      * apply nth_error_None in Hfi.
        assert (Hlen : (k < List.length (outcomes
                         (process_from pp faults clock (S i) (S cnt)
                                       db' rest)))%nat)
          by (apply nth_error_Some; congruence).
        destruct (process_from_spec pp faults clock rest (S i) (S cnt) db')
          as (_ & Hmap & _).
        apply (f_equal (@List.length string)) in Hmap.
        rewrite !length_map in Hmap. lia.
    + (* a later document: the head changes nothing for the argument *)
      cbn [nth_error] in Hnth. cbn [process_from].
      assert (Hrec : forall cnt' db',
                schema_ok db' = schema_ok db ->
                pages_of_path (Path fileInfo)
                  (store (process_from pp faults clock (S i) cnt' db' rest))
                = pages_from (clock (i + S j)%nat) (Path fileInfo)
                             (CurrentHash fileInfo) 0 pcs).
      { intros cnt' db' Hs.
        replace (i + S j)%nat with (S i + j)%nat by lia.
        apply IH; [exact Hnth | exact Ex | |].
        - rewrite (gets_stored_schema pp _ db db' fileInfo Hs).
          replace (S i + j)%nat with (i + S j)%nat by lia. exact Hg.
        - intros k fi' Hk Hfi Hp.
          rewrite (gets_stored_schema pp _ db db' fi' Hs).
          replace (S i + k)%nat with (i + S k)%nat by lia.
          apply Hlater; [lia | exact Hfi | exact Hp]. }
      destruct (ExtractPagesText pp (Path fi)) as [pcs0|] eqn:Ex0.
      * destruct (UpsertPDFData_cases (faults i) (clock i) db (Path fi)
                    (CurrentHash fi) pcs0) as [(_ & _ & E)|(_ & e & E)];
          rewrite E; cbn [store and_then]; apply Hrec;
          [apply schema_ok_replaced | reflexivity].
      * cbn [store and_then]. apply Hrec. reflexivity.
Qed.

Lemma process_from_app pp faults clock l1 l2 :
  forall i cnt db,
    store (process_from pp faults clock i cnt db (l1 ++ l2))
    = store (process_from pp faults clock (i + List.length l1)%nat cnt
               (store (process_from pp faults clock i cnt db l1)) l2).
Proof.
  assert (Hcnt : forall todo i cnt cnt' db,
             store (process_from pp faults clock i cnt db todo)
             = store (process_from pp faults clock i cnt' db todo)).
  { induction todo as [|fi rest IH]; intros i cnt cnt' db; [reflexivity|].
    cbn [process_from].
    destruct (ExtractPagesText pp (Path fi)) as [pcs|];
      [|cbn [store and_then]; apply IH].
    destruct (UpsertPDFData (faults i) (clock i) db (Path fi)
                (CurrentHash fi) pcs) as [db' [e|]];
      cbn [store and_then]; apply IH. }
  induction l1 as [|fi rest IH]; intros i cnt db.
  - cbn. now rewrite Nat.add_0_r.
  - cbn [app process_from List.length].
    replace (i + S (List.length rest))%nat
      with (S i + List.length rest)%nat by lia.
    destruct (ExtractPagesText pp (Path fi)) as [pcs|];
      [|cbn [store and_then]; apply IH].
    destruct (UpsertPDFData (faults i) (clock i) db (Path fi)
                (CurrentHash fi) pcs) as [db' [e|]];
      cbn [store and_then]; rewrite IH;
      apply Hcnt.
Qed.

(** A document that is not stored leaves the store as the documents
    before it have left it. *)
Lemma process_from_skipped pp faults clock db todo j fileInfo :
  nth_error todo j = Some fileInfo ->
  gets_stored pp (faults j) db fileInfo = false ->
  store (process_from pp faults clock 0 0 db (firstn (S j) todo))
  = store (process_from pp faults clock 0 0 db (firstn j todo)).
Proof.
  intros Hnth Hg.
  assert (Hsplit : forall (l : list PDFFileInfo) k x,
             nth_error l k = Some x -> firstn (S k) l = firstn k l ++ [x]).
  { induction l as [|y l IH]; intros [|k] x H; try discriminate.
    - injection H as ->. reflexivity.
    - cbn [firstn app]. f_equal. apply IH. exact H. }
  specialize (Hsplit todo j fileInfo Hnth).
  assert (Hlen : List.length (firstn j todo) = j).
  { apply firstn_length_le. apply Nat.lt_le_incl.
    apply nth_error_Some. congruence. }
  rewrite Hsplit, process_from_app, Hlen. cbn [Nat.add].
  set (before := store (process_from pp faults clock 0 0 db (firstn j todo))).
  assert (Hs : schema_ok before = schema_ok db).
  { destruct (process_from_spec pp faults clock (firstn j todo) 0 0 db)
      as (_ & _ & _ & H4 & _). exact H4. }
  rewrite <- (gets_stored_schema pp _ db before fileInfo Hs) in Hg.
  cbn [process_from].
  destruct (ExtractPagesText pp (Path fileInfo)) as [pcs|] eqn:Ex;
    [|reflexivity].
  destruct (skipped_step pp (faults j) (clock j) before fileInfo pcs Ex Hg)
    as [e E].
  rewrite E. reflexivity.
Qed.

(** C8.  Failure isolation in the scan.  [checkHashes] returns no error
    and treats each file on its own: its result is, file by file, what
    the loop body gives for that file and its fault alone, so a file
    whose hash or stored hash cannot be read is left out with one
    warning and nothing else changes.  [processPDFs] returns no error
    either; it writes one outcome per document, in order; whether the
    [j]-th document is stored depends on its own extraction and on the
    faults of its own transaction only; the count returned is the
    number of documents stored.  As for the store: a document that is
    not stored leaves it as the documents before it have left it; when
    the loop ends, a path holds the Pages of the last document stored
    for it, numbered from 1 with its hash and its texts, whatever
    happened to the other documents; and the Pages of a path that no
    stored document names are the ones it had before. *)
Theorem per_document_failure_isolation :
  forall (pdfProcessor : Extractor) (faults : nat -> Faults)
         (clock : nat -> nat -> Timestamp) (db : DB)
         (pdfFiles : list string) (forceRescan : bool)
         (filesToProcess : list PDFFileInfo),
    let per_file :=
      map (fun ip => check_one pdfProcessor (faults (fst ip)) db forceRescan
                               (snd ip))
          (numbered 0 pdfFiles) in
    let r := processPDFs pdfProcessor faults clock db filesToProcess in
    checkHashes pdfProcessor faults db pdfFiles forceRescan
    = ((List.concat (map fst per_file), None), List.concat (map snd per_file))
    /\ returned r = None
    /\ map outcome_path (outcomes r) = map Path filesToProcess
    /\ count r = List.length (filter is_updated (outcomes r))
    /\ (forall j fileInfo,
          nth_error filesToProcess j = Some fileInfo ->
          exists o, nth_error (outcomes r) j = Some o
                    /\ outcome_path o = Path fileInfo
                    /\ is_updated o
                       = gets_stored pdfProcessor (faults j) db fileInfo)
    /\ (forall j fileInfo,
          nth_error filesToProcess j = Some fileInfo ->
          gets_stored pdfProcessor (faults j) db fileInfo = false ->
          store (processPDFs pdfProcessor faults clock db
                             (firstn (S j) filesToProcess))
          = store (processPDFs pdfProcessor faults clock db
                               (firstn j filesToProcess)))
    /\ (forall j fileInfo pageContents,
          nth_error filesToProcess j = Some fileInfo ->
          ExtractPagesText pdfProcessor (Path fileInfo) = Some pageContents ->
          gets_stored pdfProcessor (faults j) db fileInfo = true ->
          (forall k fi',
              (j < k)%nat -> nth_error filesToProcess k = Some fi' ->
              Path fi' = Path fileInfo ->
              gets_stored pdfProcessor (faults k) db fi' = false) ->
          pages_of_path (Path fileInfo) (store r)
          = pages_from (clock j) (Path fileInfo) (CurrentHash fileInfo) 0
                       pageContents)
    /\ (forall p, ~ In (Updated p) (outcomes r) ->
                  pages_of_path p (store r) = pages_of_path p db).
Proof.
  intros pp faults clock db files forced todo per_file r.
  split.
  { unfold checkHashes. rewrite check_hashes_from_numbered.
    unfold per_file. now rewrite !map_map. }
  destruct (process_from_spec pp faults clock todo 0 0 db)
    as (H1 & H2 & H3 & _ & H5 & H6).
  split; [exact H1|]. split; [exact H2|]. split; [exact H3|].
  split; [exact H5|].
  split.
  { intros j fileInfo Hnth Hg. unfold processPDFs.
    exact (process_from_skipped pp faults clock db todo j fileInfo Hnth Hg). }
  split; [|exact H6].
  intros j fileInfo pcs Hnth Ex Hg Hlater. unfold r, processPDFs.
  apply (process_from_last_stored pp faults clock todo 0 0 db j fileInfo pcs
           Hnth Ex Hg Hlater).
Qed.

(** ** Scanning twice *)

Lemma process_from_stored pp faults clock p H todo :
  ExtractPagesText pp p <> Some [] ->
  forall i cnt db,
    (forall fi, In fi todo -> Path fi = p -> CurrentHash fi = H) ->
    In (Updated p) (outcomes (process_from pp faults clock i cnt db todo))
    \/ stored_fingerprint db p = Some H ->
    stored_fingerprint (store (process_from pp faults clock i cnt db todo)) p
    = Some H.
Proof.
  intros Hpages. induction todo as [|fi rest IH]; intros i cnt db Hcur Hor.
  - simpl in *. tauto.
  - assert (Hcur' : forall fi', In fi' rest -> Path fi' = p ->
                                CurrentHash fi' = H)
      by (intros; apply Hcur; simpl; auto).
    simpl in Hor |- *.
    destruct (ExtractPagesText pp (Path fi)) as [pages|] eqn:Ex.
    + destruct (UpsertPDFData_cases (faults i) (clock i) db (Path fi)
                  (CurrentHash fi) pages) as [(_ & _ & E)|(_ & e & E)];
        rewrite E in Hor |- *; simpl in Hor |- *.
      * apply IH; auto.
        destruct (string_dec (Path fi) p) as [Hp|Hp].
        -- right. rewrite Hp in *. rewrite stored_replaced_same.
           destruct pages; [contradiction|].
           f_equal. apply Hcur; [left; reflexivity | exact Hp].
        -- rewrite stored_replaced_other by exact Hp.
           destruct Hor as [[Heq|Hin]|Hs]; auto.
           inversion Heq. contradiction.
      * apply IH; auto.
        destruct Hor as [[Heq|Hin]|Hs]; auto. discriminate.
    + simpl in Hor |- *. apply IH; auto.
      destruct Hor as [[Heq|Hin]|Hs]; auto. discriminate.
Qed.

Lemma GetStoredHash_after_upsert f clock db p h pages :
  pages <> [] ->
  snd (UpsertPDFData f clock db p h pages) = None ->
  GetStoredHash None (fst (UpsertPDFData f clock db p h pages)) p = (h, None).
Proof.
  intros Hne.
  destruct (UpsertPDFData_cases f clock db p h pages)
    as [(_ & _ & ->)|(_ & e & ->)]; simpl; [|discriminate].
  intros _. rewrite GetStoredHash_None, stored_replaced_same.
  destruct pages; [contradiction | reflexivity].
Qed.

Lemma rescan_skips pp faults1 faults2 faults3 clock db files p :
  let todo := fst (fst (checkHashes pp faults1 db files false)) in
  let done := processPDFs pp faults2 clock db todo in
  let again := fst (fst (checkHashes pp faults3 (store done) files false)) in
  In (Updated p) (outcomes done) ->
  ExtractPagesText pp p <> Some [] ->
  ~ In p (map Path again).
Proof.
  intros todo done again Hup Hpages Hin.
  destruct (process_from_spec pp faults2 clock todo 0 0 db)
    as (_ & Hpaths & _).
  fold (processPDFs pp faults2 clock db todo) in Hpaths. fold done in Hpaths.
  assert (Hp : In p (map Path todo)).
  { rewrite <- Hpaths. apply in_map_iff. exists (Updated p). auto. }
  apply in_map_iff in Hp. destruct Hp as (fi & Hfi & Hfi_in).
  pose proof (checkHashes_CurrentHash _ _ _ _ _ _ Hfi_in) as [_ Hh].
  rewrite Hfi in Hh.
  assert (Hs : stored_fingerprint (store done) p = Some (CurrentHash fi)).
  { apply process_from_stored; auto.
    intros fi' Hin' Hp'.
    pose proof (checkHashes_CurrentHash _ _ _ _ _ _ Hin') as [_ Hh'].
    rewrite Hp' in Hh'. congruence. }
  apply in_map_iff in Hin. destruct Hin as (info & Hinfo & Hin).
  unfold again in Hin. rewrite checkHashes_todo in Hin.
  apply In_check_hashes_from in Hin.
  destruct Hin as (j & _ & Hcur & Hst & Hn & _). rewrite Hinfo in *.
  destruct (GetStoredHash_cases (faults3 (0 + j)%nat) (store done) p)
    as [[_ H']|[_ [e H']]]; rewrite H' in Hst; inversion Hst as [Hst'].
  rewrite Hs in Hst'. simpl in Hst'.
  assert (CurrentHash info = CurrentHash fi) by congruence.
  rewrite <- Hst' in Hn. simpl in Hn.
  rewrite H, String.eqb_refl in Hn. discriminate.
Qed.

(** ** ORDER BY and LIMIT *)

Section SortingFacts.
Context {A : Type} (leb : A -> A -> bool).
Hypothesis leb_total : forall a b, leb a b = true \/ leb b a = true.
Hypothesis leb_trans :
  forall a b c, leb a b = true -> leb b c = true -> leb a c = true.


Lemma insert_by_perm x l : Permutation (x :: l) (insert_by leb x l).
Proof.
  induction l as [|y l IH]; simpl; auto.
  destruct (leb x y); auto.
  apply perm_trans with (y :: x :: l); [apply perm_swap|].
  now apply perm_skip.
Qed.

Lemma sort_by_perm l : Permutation l (sort_by leb l).
Proof.
  induction l as [|x l IH]; simpl; auto.
  apply perm_trans with (x :: sort_by leb l); [now apply perm_skip|].
  apply insert_by_perm.
Qed.




End SortingFacts.


Lemma sql_limit_prefix {A : Type} (limit : Z) (l : list A) :
  exists rest, l = (sql_limit limit l ++ rest)%list.
Proof.
  unfold sql_limit. destruct (limit <? 0).
  - exists []. now rewrite app_nil_r.
  - exists (skipn (Z.to_nat limit) l). now rewrite firstn_skipn.
Qed.

Lemma string_ltb_lt a b : String.ltb a b = true <-> String.compare a b = Lt.
Proof.
  unfold String.ltb. destruct (String.compare a b); split;
    congruence || discriminate.
Qed.






(** ** Search and LiveSearch *)

Section QueryFacts.
Context {engine : FTS5}.









Lemma RebuildFTS_None db : RebuildFTS None db = (rebuilt db, None).
Proof.
  destruct (RebuildFTS_cases None db) as [[_ H]|[H _]]; auto. discriminate.
Qed.

Lemma rebuilt_rebuilt db : rebuilt (rebuilt db) = rebuilt db.
Proof. reflexivity. Qed.

Lemma RebuildFTS_consistent f db :
  consistent db -> fst (RebuildFTS f db) = db.
Proof.
  intros C.
  destruct (RebuildFTS_cases f db) as [(_ & ->)|(_ & e & ->)]; simpl; auto.
  now apply rebuilt_consistent.
Qed.

(** C5.  [RebuildFTS] is idempotent.  On every store, when the engine
    does what it is asked, a rebuild succeeds, leaves [pdfs] as it is
    and the index with exactly the entries of the Pages that have a
    content, in the order of [pdfs]; any number of further rebuilds
    leaves that store unchanged, so [Search] returns the same result,
    rows and order, after one rebuild and after any number of them.  On
    every store the program can have built, every Page has a content
    and the index is in step, so a rebuild, failed or not, leaves one
    IndexEntry per Page and the very store it started from, and
    [Search] returns the same result, rows and order, before and after
    it. *)
Theorem RebuildFTS_idempotent :
  (forall (db : DB) (n : nat),
      RebuildFTS None db = (rebuilt db, None)
      /\ pdfs (rebuilt db) = pdfs db
      /\ entries (rebuilt db) = map entry_of (filter has_content (pdfs db))
      /\ Nat.iter (S n) (fun d => fst (RebuildFTS None d)) db = rebuilt db
      /\ (forall (g : Faults) (queryTerm : string) (limit : Z),
            Search g (Nat.iter (S n) (fun d => fst (RebuildFTS None d)) db)
                   queryTerm limit
            = Search g (fst (RebuildFTS None db)) queryTerm limit))
  /\ (forall (history : list Call) (f g : Faults) (queryTerm : string)
             (limit : Z),
        let db := run history fresh in
        entries (fst (RebuildFTS f db)) = map entry_of (pdfs db)
        /\ fst (RebuildFTS f db) = db
        /\ Search g (fst (RebuildFTS f db)) queryTerm limit
           = Search g db queryTerm limit).
Proof.
  split.
  - intros db n.
    assert (Hiter : Nat.iter (S n) (fun d => fst (RebuildFTS None d)) db
                    = rebuilt db).
    { induction n as [|n IH].
      + simpl. now rewrite RebuildFTS_None.
      + change (Nat.iter (S (S n)) (fun d => fst (RebuildFTS None d)) db)
          with (fst (RebuildFTS None
                  (Nat.iter (S n) (fun d => fst (RebuildFTS None d)) db))).
        rewrite IH, RebuildFTS_None. reflexivity. }
    split; [apply RebuildFTS_None|].
    split; [reflexivity|]. split; [reflexivity|].
    split; [exact Hiter|].
    intros g q limit. rewrite Hiter, RebuildFTS_None. reflexivity.
  - intros history f g q limit db.
    assert (C : consistent db) by (apply consistent_run, consistent_fresh).
    rewrite (RebuildFTS_consistent f db C).
    split; [|split; reflexivity].
    unfold entries. now rewrite (c_index db C).
Qed.
End QueryFacts.

(** C4, as amended.  Scanning twice.  After a successful
    [UpsertPDFData] of a non-empty page sequence, [GetStoredHash]
    returns the fingerprint just stored.  Hence, in a scan that is not
    forced followed by a second one over the same files, a document
    that the first scan stored with at least one page is not on the
    worklist of the second, whatever fails elsewhere in either scan;
    and when that is every file of the list, the second worklist is
    empty. *)
Theorem rescan_processes_nothing :
  forall (pdfProcessor : Extractor) (faults1 faults2 faults3 : nat -> Faults)
         (clock : nat -> nat -> Timestamp) (db : DB) (pdfFiles : list string),
    let first := fst (fst (checkHashes pdfProcessor faults1 db pdfFiles false)) in
    let done := processPDFs pdfProcessor faults2 clock db first in
    let second :=
      fst (fst (checkHashes pdfProcessor faults3 (store done) pdfFiles false)) in
    (forall f clk d p h pages,
        pages <> [] ->
        snd (UpsertPDFData f clk d p h pages) = None ->
        GetStoredHash None (fst (UpsertPDFData f clk d p h pages)) p
        = (h, None))
    /\ (forall p,
          In (Updated p) (outcomes done) ->
          ExtractPagesText pdfProcessor p <> Some [] ->
          ~ In p (map Path second))
    /\ ((forall p, In p pdfFiles ->
                   In (Updated p) (outcomes done)
                   /\ ExtractPagesText pdfProcessor p <> Some []) ->
        second = []).
Proof.
  intros pp faults1 faults2 faults3 clock db files first done second.
  split; [intros; now apply GetStoredHash_after_upsert|].
  split; [intros p; apply rescan_skips|].
  intros Hall. destruct second as [|info rest] eqn:E; [reflexivity|].
  exfalso.
  assert (Hin : In info second) by (rewrite E; left; reflexivity).
  pose proof (checkHashes_CurrentHash _ _ _ _ _ _ Hin) as [Hfile _].
  destruct (Hall _ Hfile) as [Hup Hpages].
  apply (rescan_skips pp faults1 faults2 faults3 clock db files
                      (Path info) Hup Hpages).
  apply in_map. exact Hin.
Qed.

(** * Examples *)

(** C4, as stated, fails on a document of zero pages: the first scan
    stores it (one document updated, no error), its transaction
    succeeds, and yet no fingerprint is stored for it, so the second
    scan puts it on the worklist again. *)
Lemma rescan_zero_page_document :
  let h := "0000000000000000000000000000000000000001"%string in
  let first :=
    fst (fst (checkHashes zero_page_world no_fault fresh ["empty.pdf"%string]
                          false)) in
  let done := processPDFs zero_page_world no_fault (fun _ => ticking) fresh
                          first in
  HashFile zero_page_world "empty.pdf" = Some h
  /\ outcomes done = [Updated "empty.pdf"]
  /\ count done = 1%nat
  /\ returned done = None
  /\ snd (UpsertPDFData None ticking fresh "empty.pdf" h []) = None
  /\ GetStoredHash None
       (fst (UpsertPDFData None ticking fresh "empty.pdf" h [])) "empty.pdf"
     = (EmptyString, None)
  /\ fst (GetStoredHash None
            (fst (UpsertPDFData None ticking fresh "empty.pdf" h []))
            "empty.pdf") <> h
  /\ fst (fst (checkHashes zero_page_world no_fault (store done)
                           ["empty.pdf"%string] false))
     = [mkPDFFileInfo "empty.pdf" h "" true].
Proof. vm_compute. repeat split. discriminate. Qed.

(** C5, as stated for every store state, fails on a store whose index
    has been emptied while its Pages are there: the content has not
    changed, the rebuild succeeds, and [Search] finds nothing before it
    and a row after it. *)
Lemma rebuild_changes_search :
  let emptied := mkDB (pdfs scenario_B) (Some []) all_triggers in
  let after := fst (RebuildFTS None emptied) in
  snd (RebuildFTS None emptied) = None
  /\ pdfs after = pdfs emptied
  /\ Search None emptied "bar" 5 = (Some (mkRows [] None), None)
  /\ Search None after "bar" 5
     = (Some (mkRows [mkSearchRow "a.pdf" 1 "[HL]bar[/HL]" 0] None), None)
  /\ Search None after "bar" 5 <> Search None emptied "bar" 5.
Proof. vm_compute. repeat split. discriminate. Qed.

Lemma checkHashes_classification_witness :
  let h := "0000000000000000000000000000000000000004"%string in
  let filesToProcess :=
    fst (fst (checkHashes two_page_world no_fault fresh ["a.pdf"%string]
                          false)) in
  nth_error ["a.pdf"%string] 0 = Some "a.pdf"%string
  /\ HashFile two_page_world "a.pdf" = Some h
  /\ fails (no_fault 0%nat) 0 = false
  /\ (~ In "a.pdf"%string (map Path filesToProcess)
      <-> false = false /\ stored_fingerprint fresh "a.pdf" = Some h)
  /\ (In (mkPDFFileInfo "a.pdf" h (or_empty (stored_fingerprint fresh "a.pdf"))
                        true) filesToProcess
      <-> false = true \/ stored_fingerprint fresh "a.pdf" <> Some h).
Proof.
  intros h filesToProcess.
  assert (H1 : nth_error ["a.pdf"%string] 0 = Some "a.pdf"%string)
    by reflexivity.
  assert (H2 : HashFile two_page_world "a.pdf" = Some h)
    by (vm_compute; reflexivity).
  assert (H3 : fails (no_fault 0%nat) 0 = false) by reflexivity.
  exact (conj H1 (conj H2 (conj H3
           (checkHashes_classification two_page_world no_fault fresh
              ["a.pdf"%string] false 0 "a.pdf" h H1 H2 H3)))).
Defined.

Lemma rescan_processes_nothing_witness :
  let first :=
    fst (fst (checkHashes two_page_world no_fault fresh ["a.pdf"%string]
                          false)) in
  let done := processPDFs two_page_world no_fault (fun _ => ticking) fresh
                          first in
  let second :=
    fst (fst (checkHashes two_page_world no_fault (store done)
                          ["a.pdf"%string] false)) in
  In (Updated "a.pdf") (outcomes done)
  /\ ExtractPagesText two_page_world "a.pdf" <> Some []
  /\ ~ In "a.pdf"%string (map Path second).
Proof.
  intros first done second.
  assert (H1 : In (Updated "a.pdf") (outcomes done))
    by (vm_compute; left; reflexivity).
  assert (H2 : ExtractPagesText two_page_world "a.pdf" <> Some [])
    by (vm_compute; discriminate).
  exact (conj H1 (conj H2
           (proj1 (proj2 (rescan_processes_nothing two_page_world no_fault
                            no_fault no_fault (fun _ => ticking) fresh
                            ["a.pdf"%string]))
                  "a.pdf"%string H1 H2))).
Defined.



Lemma zero_pages_reprocessed_witness :
  let h := "0000000000000000000000000000000000000001"%string in
  let after := fst (UpsertPDFData None ticking fresh "empty.pdf" h []) in
  fitz_pages zero_page_world "empty.pdf" = Some []
  /\ HashFile zero_page_world "empty.pdf" = Some h
  /\ ExtractPagesText zero_page_world "empty.pdf" = Some []
  /\ snd (UpsertPDFData None ticking fresh "empty.pdf" h []) = None
  /\ pages_of_path "empty.pdf" after = []
  /\ entries_of_path "empty.pdf" after = []
  /\ GetStoredHash None after "empty.pdf" = (EmptyString, None)
  /\ checkHashes zero_page_world (fun _ => None) after ["empty.pdf"%string]
                 false
     = (([mkPDFFileInfo "empty.pdf" h EmptyString true], None), []).
Proof.
  intros h after.
  assert (H1 : fitz_pages zero_page_world "empty.pdf" = Some [])
    by reflexivity.
  assert (H2 : HashFile zero_page_world "empty.pdf" = Some h)
    by (vm_compute; reflexivity).
  exact (conj H1 (conj H2
           (zero_pages_reprocessed [] zero_page_world ticking "empty.pdf" h
                                   false H1 H2))).
Defined.

Lemma page_index_bijection_witness :
  let history :=
    [CallNew None;
     CallUpsert None ticking "a.pdf" "h1" ["foo bar"%string; "baz qux"%string];
     CallRebuild (Some 12%nat)] in
  let r := mkPage "a.pdf" 1 "h1" (Some "foo bar"%string) 0 in
  In r (pdfs (run history fresh))
  /\ entries_at r (run history fresh) = [entry_of r].
Proof.
  intros history r.
  assert (H : In r (pdfs (run history fresh)))
    by (vm_compute; left; reflexivity).
  exact (conj H (proj1 (page_index_bijection history) r H)).
Defined.

Lemma single_fingerprint_witness :
  let history :=
    [CallUpsert None ticking "a.pdf" "h1" ["foo bar"%string; "baz qux"%string];
     CallUpsert (Some 4%nat) ticking "a.pdf" "h2" ["foo"%string; "bar"%string]] in
  let r := mkPage "a.pdf" 2 "h1" (Some "baz qux"%string) 1 in
  In r (pdfs (run history fresh))
  /\ GetStoredHash None (run history fresh) (path r) = (hash r, None).
Proof.
  intros history r.
  assert (H : In r (pdfs (run history fresh)))
    by (vm_compute; right; left; reflexivity).
  exact (conj H (proj2 (single_fingerprint history) r H)).
Defined.

Lemma per_document_failure_isolation_witness :
  let h := "0000000000000000000000000000000000000004"%string in
  let info := mkPDFFileInfo "a.pdf" h "" true in
  let todo := [mkPDFFileInfo "missing.pdf" h "" true; info] in
  let pageContents := ["foo bar"%string; "baz qux"%string] in
  let r := processPDFs two_page_world no_fault (fun _ => ticking) fresh todo in
  nth_error todo 1 = Some info
  /\ ExtractPagesText two_page_world (Path info) = Some pageContents
  /\ gets_stored two_page_world (no_fault 1%nat) fresh info = true
  /\ (exists o, nth_error (outcomes r) 1 = Some o
                /\ outcome_path o = "a.pdf"%string
                /\ is_updated o
                   = gets_stored two_page_world (no_fault 1%nat) fresh info)
  /\ pages_of_path (Path info) (store r)
     = pages_from ticking (Path info) (CurrentHash info) 0 pageContents.
Proof.
  intros h info todo pageContents r.
  assert (H : nth_error todo 1 = Some info) by reflexivity.
  assert (Ex : ExtractPagesText two_page_world (Path info)
               = Some pageContents) by reflexivity.
  assert (Hg : gets_stored two_page_world (no_fault 1%nat) fresh info = true)
    by reflexivity.
  assert (Hlater : forall k fi',
             (1 < k)%nat -> nth_error todo k = Some fi' ->
             Path fi' = Path info ->
             gets_stored two_page_world (no_fault k) fresh fi' = false).
  { intros [|[|[|k]]] fi' Hk Hn; try lia; discriminate. }
  pose proof (per_document_failure_isolation two_page_world no_fault
                (fun _ => ticking) fresh [] false todo) as T.
  destruct T as (_ & _ & _ & _ & T5 & _ & T7 & _).
  exact (conj H (conj Ex (conj Hg
           (conj (T5 1%nat info H)
                 (T7 1%nat info pageContents H Ex Hg Hlater))))).
Defined.

(** ** Scenarios *)

(** Scanning the two-page document stores two Pages and two
    IndexEntries; scanning again finds nothing to do. *)
Example scenario_two_pages :
  let first :=
    fst (fst (checkHashes two_page_world no_fault fresh ["a.pdf"%string]
                          false)) in
  let done := processPDFs two_page_world no_fault (fun _ => ticking) fresh
                          first in
  count done = 1%nat
  /\ map content (pdfs (store done))
     = [Some "foo bar"%string; Some "baz qux"%string]
  /\ map page_num (pdfs (store done)) = [1; 2]
  /\ map content_idx (entries (store done))
     = [Some "foo bar"%string; Some "baz qux"%string]
  /\ checkHashes two_page_world no_fault (store done) ["a.pdf"%string] false
     = (([], None), []).
Proof. vm_compute. repeat split. Qed.

(** Replacing the document: the Pages and IndexEntries of h1 are gone,
    those of h2 are there; and when the third INSERT fails, nothing has
    changed. *)
Example scenario_replace :
  let pages := ["foo bar baz"%string; "qux"%string; "quux"%string] in
  let ok := UpsertPDFData None ticking scenario_B "a.pdf" "h2" pages in
  let ko := UpsertPDFData (Some 5%nat) ticking scenario_B "a.pdf" "h2" pages in
  snd ok = None
  /\ map hash (pdfs (fst ok)) = ["h2"%string; "h2"%string; "h2"%string]
  /\ map content_idx (entries (fst ok))
     = [Some "foo bar baz"%string; Some "qux"%string; Some "quux"%string]
  /\ snd ko = Some (Errorf "inserting page %d for %s: %w"
                           [D_ 3; S_ "a.pdf"] IOFailure)
  /\ fst ko = scenario_B.
Proof. vm_compute. repeat split. Qed.

(** Searching "bar" with limit 5: one row, for page 1, with the markers
    around the match.  The empty string is no query of this engine:
    [Search] returns rows and no error for it, no row is delivered and
    the syntax error is in [rows.Err()]. *)
Example scenario_search :
  Search None scenario_B "bar" 5
  = (Some (mkRows [mkSearchRow "a.pdf" 1 "[HL]bar[/HL]" 0] None), None)
  /\ Search None scenario_B "ba" 1
     = (Some (mkRows [mkSearchRow "a.pdf" 1 "[HL]ba[/HL]" 0] None), None)
  /\ Search None scenario_B "" 5 = (Some (mkRows [] (Some MatchSyntax)), None)
  /\ LiveSearch None scenario_B "" 5 = (None, None).
Proof. vm_compute. repeat split. Qed.

(** One document cannot be opened, the transaction of another fails:
    the third is stored all the same and the count is 1. *)
Example scenario_failures :
  let h := "0000000000000000000000000000000000000004"%string in
  let todo := [mkPDFFileInfo "missing.pdf" h "" true;
               mkPDFFileInfo "a.pdf" h "" true;
               mkPDFFileInfo "a.pdf" h "" true] in
  let r := processPDFs two_page_world
             (fun i => if Nat.eqb i 1 then Some 4%nat else None)
             (fun _ => ticking) fresh todo in
  count r = 1%nat
  /\ returned r = None
  /\ outcomes r
     = [FailedToProcess "missing.pdf";
        FailedToStore "a.pdf"
          (Errorf "inserting page %d for %s: %w" [D_ 2; S_ "a.pdf"] IOFailure);
        Updated "a.pdf"]
  /\ map page_num (pdfs (store r)) = [1; 2]
  /\ map hash (pdfs (store r)) = [h; h].
Proof. vm_compute. repeat split. Qed.

(** Rebuilding an index that was lost: one entry per Page again. *)
Example scenario_rebuild :
  let lost := mkDB (pdfs scenario_B) (Some []) all_triggers in
  RebuildFTS None lost = (scenario_B, None)
  /\ RebuildFTS (Some 12%nat) lost
     = (lost, Some (Errorf "inserting into FTS table for %s page %d: %w"
                           [S_ "a.pdf"; D_ 2] IOFailure)).
Proof. vm_compute. repeat split. Qed.

(* ================================================================= *)
(** * Further properties of the store *)

(** ** Opening the database *)

(** X1.  [initSchema] can be retried.  Whatever statements failed in any
    number of earlier attempts on a new database file, the file holds no
    Page and no IndexEntry, and the first attempt in which the engine
    does what it is asked succeeds and leaves the complete schema:
    every statement is IF NOT EXISTS and picks up where the others
    stopped. *)
Theorem initSchema_retry :
  forall (attempts : list Faults),
    let file := fold_left (fun db f => fst (initSchema f db)) attempts blank in
    pdfs file = []
    /\ entries file = []
    /\ initSchema None file = (mkDB [] (Some []) all_triggers, None).
Proof.
  intros attempts file.
  destruct (New_from_blank attempts) as (Hp & Hi & Hn).
  fold file in Hp, Hi, Hn.
  split; [exact Hp|]. split; [|exact Hn].
  unfold entries. destruct Hi as [-> | ->]; reflexivity.
Qed.

(** X2.  Opening a database again changes nothing.  On every store the
    program can have built, [initSchema] leaves the file as it is,
    whichever of its statements fails, and returns an error exactly
    when one of its five engine calls, numbered 0 to 4, fails: CREATE
    TABLE pdfs, CREATE VIRTUAL TABLE pdfs_fts and the three CREATE
    TRIGGER. *)
Theorem initSchema_reopen :
  forall (history : list Call) (f : Faults),
    let db := run history fresh in
    fst (initSchema f db) = db
    /\ (snd (initSchema f db) = None <-> survives f 4 = true).
Proof.
  intros history f db.
  assert (C : consistent db) by (apply consistent_run, consistent_fresh).
  split; [now apply initSchema_consistent|].
  unfold initSchema, createFTSTable, createTriggers, trigger_names,
    create_triggers_from, exec.
  destruct (fails f 0) eqn:F0.
  { simpl. rewrite (fails_not_survives f 0 4 F0) by lia.
    split; discriminate. }
  destruct (fails f 1) eqn:F1.
  { simpl. rewrite (fails_not_survives f 1 4 F1) by lia.
    split; discriminate. }
  destruct (fails f 2) eqn:F2.
  { simpl. rewrite (fails_not_survives f 2 4 F2) by lia.
    split; discriminate. }
  destruct (fails f 3) eqn:F3.
  { simpl. rewrite (fails_not_survives f 3 4 F3) by lia.
    split; discriminate. }
  destruct (fails f 4) eqn:F4.
  { simpl. rewrite (fails_not_survives f 4 4 F4) by lia.
    split; discriminate. }
  simpl. split; [intros _|reflexivity].
  apply fails_survives. intros k Hk.
  do 5 (destruct k as [|k]; [assumption|]). lia.
Qed.

(** ** RebuildFTS *)

(** X3.  [RebuildFTS] is all-or-nothing and never touches [pdfs].
    Whichever engine call fails: either it returns no error and the
    store is the rebuilt one, or it returns an error and the store,
    index and triggers included, is the store before the call, although
    the triggers and the index were dropped on the way.  It succeeds
    exactly when none of its 12 + n engine calls, numbered 0 to 11 + n
    with the COMMIT last, fails; n is the number of Pages that have a
    content. *)
Theorem RebuildFTS_all_or_nothing :
  forall (f : Faults) (db : DB),
    let n := List.length (filter has_content (pdfs db)) in
    let after := fst (RebuildFTS f db) in
    let err := snd (RebuildFTS f db) in
    pdfs after = pdfs db
    /\ ((err = None /\ after = rebuilt db) \/ (err <> None /\ after = db))
    /\ (err = None <-> survives f (11 + n) = true).
Proof.
  intros f db n after err. subst after err.
  destruct (RebuildFTS_cases f db) as [(Hs & ->)|(Hs & e & ->)];
    fold n in Hs; simpl.
  - split; [reflexivity|]. split; [left; auto|]. split; auto.
  - split; [reflexivity|]. split; [right; split; [discriminate|reflexivity]|].
    split; [discriminate|]. intros H.
    change (S (S (S (S (S (S (S (S (S (S (S n)))))))))))
      with (11 + n)%nat in H.
    congruence.
Qed.

Lemma bijection_of_image db :
  pdfs_fts db = Some (map entry_of (pdfs db)) ->
  NoDup (map key (pdfs db)) ->
  (forall r, In r (pdfs db) -> entries_at r db = [entry_of r])
  /\ (forall e, In e (entries db) ->
        exists r, pages_at e db = [r] /\ entry_of r = e).
Proof.
  intros Hi Hk. unfold entries_at, pages_at, entries. rewrite Hi. split.
  - intros r Hin.
    apply (filter_unique entry_key _ (key r)).
    + intros x. apply entry_at_key.
    + now rewrite map_map.
    + now apply in_map.
    + reflexivity.
  - intros e Hin. apply in_map_iff in Hin. destruct Hin as (r & <- & Hin).
    exists r. split; [|reflexivity].
    apply (filter_unique key _ (key r)); auto.
    intros x. rewrite entry_at_key, entry_key_of. split; congruence.
Qed.

(** X4.  [RebuildFTS] repairs the index.  Take any store whose [pdfs]
    table respects its primary key and holds no NULL content, whatever
    its index holds (lost, stale, with orphans or duplicates, or
    dropped) and whichever triggers are missing.  After a rebuild that
    succeeds the three triggers exist, and Pages and IndexEntries are
    in bijection: one IndexEntry per Page, with its key and content. *)
Theorem RebuildFTS_repairs :
  forall (f : Faults) (db : DB),
    NoDup (map key (pdfs db)) ->
    (forall r, In r (pdfs db) -> has_content r = true) ->
    snd (RebuildFTS f db) = None ->
    let after := fst (RebuildFTS f db) in
    triggers after = all_triggers
    /\ pdfs after = pdfs db
    /\ (forall r, In r (pdfs after) -> entries_at r after = [entry_of r])
    /\ (forall e, In e (entries after) ->
          exists r, pages_at e after = [r] /\ entry_of r = e).
Proof.
  intros f db Hk Hc Herr after. subst after.
  destruct (RebuildFTS_cases f db) as [(_ & E)|(_ & e & E)];
    rewrite E in Herr |- *; simpl in Herr; [|discriminate].
  cbn [fst]. split; [reflexivity|]. split; [reflexivity|].
  apply bijection_of_image; [|exact Hk].
  unfold rebuilt. cbn [pdfs pdfs_fts].
  now rewrite (filter_all has_content) by exact Hc.
Qed.

(** ** UpsertPDFData and the other documents *)

Lemma entries_of_path_replaced_other clock db p h pcs q :
  p <> q ->
  entries_of_path q (replaced clock db p h pcs) = entries_of_path q db.
Proof.
  intros Hne. unfold entries_of_path, entries, replaced.
  cbn [pdfs pdfs_fts triggers].
  unfold index_after_insert, index_after_delete. cbn [pdfs pdfs_fts triggers].
  assert (Hnew : forall new,
    (forall r, In r new -> path r = p) ->
    filter (fun e => String.eqb (fts_path e) q) (map entry_of new) = []).
  { induction new as [|r new IH]; simpl; intros Hp; auto.
    rewrite (Hp r) by auto.
    assert (E : String.eqb p q = false) by now apply String.eqb_neq.
    rewrite E. apply IH. auto. }
  assert (Hdel : forall es,
    filter (fun e => String.eqb (fts_path e) q)
      (filter (fun e => negb (existsb (fun r => entry_at r e)
                                      (pages_of_path p db))) es)
    = filter (fun e => String.eqb (fts_path e) q) es).
  { induction es as [|e es IH]; simpl; auto.
    destruct (String.eqb (fts_path e) q) eqn:Eq.
    - assert (Ex : existsb (fun r => entry_at r e) (pages_of_path p db)
                   = false).
      { apply not_true_is_false. intros H. apply existsb_exists in H.
        destruct H as (r & Hr & Hat). apply filter_In in Hr.
        destruct Hr as [_ Hr]. apply String.eqb_eq in Hr.
        apply entry_at_key in Hat. unfold entry_key, key in Hat.
        inversion Hat. apply String.eqb_eq in Eq. congruence. }
      rewrite Ex. simpl. rewrite Eq. now rewrite IH.
    - destruct (negb _); simpl; [rewrite Eq|]; apply IH. }
  assert (Hp : forall r, In r (pages_from clock p h 0 pcs) -> path r = p).
  { intros r Hr. now apply In_pages_from in Hr. }
  destruct (pdfs_after_insert (triggers db));
    destruct (pdfs_after_delete (triggers db));
    destruct (pdfs_fts db) as [es|]; simpl; auto;
    rewrite ?filter_app, ?Hnew, ?app_nil_r, ?Hdel by exact Hp; reflexivity.
Qed.

(** X5.  [UpsertPDFData] leaves the other documents alone.  Whatever the
    store, the arguments and the fault, and whether the call succeeds
    or not, a path other than the one upserted keeps its Pages, its
    IndexEntries and its stored fingerprint. *)
Theorem UpsertPDFData_other_paths :
  forall (f : Faults) (clock : nat -> Timestamp) (db : DB)
         (filePath h : string) (pageContents : list string) (q : string),
    filePath <> q ->
    let after := fst (UpsertPDFData f clock db filePath h pageContents) in
    pages_of_path q after = pages_of_path q db
    /\ entries_of_path q after = entries_of_path q db
    /\ GetStoredHash None after q = GetStoredHash None db q.
Proof.
  intros f clock db p h pcs q Hne after. subst after.
  destruct (UpsertPDFData_cases f clock db p h pcs)
    as [(_ & _ & ->)|(_ & e & ->)]; simpl; [|auto].
  split; [now apply pages_of_path_replaced_other|].
  split; [now apply entries_of_path_replaced_other|].
  rewrite !GetStoredHash_None. now rewrite stored_replaced_other.
Qed.

Lemma entries_of_path_consistent db p :
  consistent db ->
  entries_of_path p db = map entry_of (pages_of_path p db).
Proof.
  intros C. unfold entries_of_path, entries, pages_of_path.
  rewrite (c_index db C), filter_map_swap. reflexivity.
Qed.

(** X6.  Atomic replace, seen from the index.  On every store the
    program can have built, after a successful [UpsertPDFData] the
    IndexEntries of the path are exactly one per entry of the new page
    sequence, numbered 1..n, with the new texts: nothing of the former
    version of the document can be found any more. *)
Theorem UpsertPDFData_replaces_index :
  forall (history : list Call) (f : Faults) (clock : nat -> Timestamp)
         (filePath h : string) (pageContents : list string),
    let db := run history fresh in
    let after := fst (UpsertPDFData f clock db filePath h pageContents) in
    snd (UpsertPDFData f clock db filePath h pageContents) = None ->
    map fts_page_num (entries_of_path filePath after)
    = map Z.of_nat (seq 1 (List.length pageContents))
    /\ map content_idx (entries_of_path filePath after)
       = map Some pageContents
    /\ map hash (pages_of_path filePath after)
       = repeat h (List.length pageContents).
Proof.
  intros history f clock p h pcs db after Herr.
  assert (C : consistent db) by (apply consistent_run, consistent_fresh).
  assert (C' : consistent after) by now apply consistent_UpsertPDFData.
  assert (E : pages_of_path p after = pages_from clock p h 0 pcs).
  { unfold after.
    destruct (UpsertPDFData_cases f clock db p h pcs)
      as [(_ & _ & E)|(_ & e & E)]; rewrite E in Herr |- *; simpl in *;
      [apply pages_of_path_replaced | discriminate]. }
  rewrite (entries_of_path_consistent after p C'), E, !map_map.
  split; [apply pages_from_page_num|].
  split; [apply pages_from_content | apply pages_from_hash].
Qed.

Lemma consistent_eq a b :
  consistent a -> consistent b -> pdfs a = pdfs b -> a = b.
Proof.
  intros Ca Cb E. destruct a as [pa ea ta], b as [pb eb tb].
  pose proof (c_triggers _ Ca) as Hta. pose proof (c_triggers _ Cb) as Htb.
  pose proof (c_index _ Ca) as Hia. pose proof (c_index _ Cb) as Hib.
  simpl in *. congruence.
Qed.

Lemma other_pages_replaced clock db p h pcs :
  other_pages p (replaced clock db p h pcs) = other_pages p db.
Proof.
  unfold other_pages at 1. unfold replaced. cbn [pdfs]. rewrite filter_app.
  assert (E1 : filter (fun r => negb (String.eqb (path r) p))
                      (other_pages p db) = other_pages p db).
  { apply filter_all. intros r Hr. apply other_pages_path in Hr.
    apply negb_true_iff. now apply String.eqb_neq. }
  assert (E2 : filter (fun r => negb (String.eqb (path r) p))
                      (pages_from clock p h 0 pcs) = []).
  { generalize 0%nat. induction pcs as [|c pcs IH]; intros i; simpl; auto.
    rewrite String.eqb_refl. simpl. apply IH. }
  now rewrite E1, E2, app_nil_r.
Qed.

(** X7.  The last upsert of a path wins.  On every store the program
    can have built, an [UpsertPDFData] that succeeds leaves the same
    store whether or not another upsert of the same path, successful or
    failed, came just before it; in particular storing a document twice
    is storing it once. *)
Theorem UpsertPDFData_last_wins :
  forall (history : list Call) (f1 : Faults) (clock1 clock2 : nat -> Timestamp)
         (filePath h1 h2 : string) (pages1 pages2 : list string),
    let db := run history fresh in
    let between := fst (UpsertPDFData f1 clock1 db filePath h1 pages1) in
    UpsertPDFData None clock2 between filePath h2 pages2
    = UpsertPDFData None clock2 db filePath h2 pages2.
Proof.
  intros history f1 clock1 clock2 p h1 h2 pages1 pages2 db between.
  assert (C : consistent db) by (apply consistent_run, consistent_fresh).
  assert (Cb : consistent between) by now apply consistent_UpsertPDFData.
  assert (Hok : forall d, consistent d ->
            UpsertPDFData None clock2 d p h2 pages2
            = (replaced clock2 d p h2 pages2, None)).
  { intros d Cd.
    destruct (UpsertPDFData_cases None clock2 d p h2 pages2)
      as [(_ & _ & E)|([H|H] & _)]; auto; [discriminate|].
    rewrite (schema_ok_consistent d Cd) in H. discriminate. }
  rewrite (Hok db C), (Hok between Cb). f_equal.
  apply consistent_eq; try now apply consistent_replaced.
  unfold replaced. cbn [pdfs]. f_equal.
  unfold between.
  destruct (UpsertPDFData_cases f1 clock1 db p h1 pages1)
    as [(_ & _ & ->)|(_ & e & ->)]; simpl; auto.
  apply other_pages_replaced.
Qed.

(** ** Search on a store in step *)

Section SearchFacts.
Context {engine : FTS5}.

Lemma join_of_image {R : Type} (mk : IndexEntry -> Page -> R) ps :
  NoDup (map key ps) ->
  forall l, incl l ps ->
    flat_map (fun e => map (mk e) (filter (fun p => entry_at p e) ps))
             (map entry_of l)
    = map (fun p => mk (entry_of p) p) l.
Proof.
  intros Hk. induction l as [|r l IH]; intros Hin; simpl; auto.
  rewrite IH by (intros x Hx; apply Hin; now right).
  assert (E : filter (fun p => entry_at p (entry_of r)) ps = [r]).
  { apply (filter_unique key _ (key r)); auto.
    - intros x. rewrite entry_at_key, entry_key_of. split; congruence.
    - apply Hin. now left. }
  now rewrite E.
Qed.

Lemma search_join_consistent db q :
  consistent db ->
  search_join q (entries db) (pdfs db)
  = map (fun p => mkSearchRow (path p) (page_num p)
                    (fts5_snippet q (content p) "[HL]" "[/HL]" "..." 25)
                    (last_scanned p))
        (matching_pages q db).
Proof.
  intros C. unfold search_join, entries, matching_pages.
  rewrite (c_index db C), filter_map_swap.
  rewrite (join_of_image
             (fun e p => mkSearchRow (path p) (page_num p)
                           (fts5_snippet q (content_idx e)
                                         "[HL]" "[/HL]" "..." 25)
                           (last_scanned p))
             (pdfs db) (c_keys db C)).
  - reflexivity.
  - intros x Hx. apply filter_In in Hx. tauto.
Qed.

Lemma live_join_consistent db q :
  consistent db ->
  live_join q (entries db) (pdfs db)
  = map (fun p => mkLiveRow (path p) (page_num p)
                    (fts5_snippet q (content p) ">>>" "<<<" " ... " 15)
                    (fts5_rank q (entries db) (entry_of p)))
        (matching_pages q db).
Proof.
  intros C. unfold live_join, entries, matching_pages.
  rewrite (c_index db C), filter_map_swap.
  rewrite (join_of_image
             (fun e p => mkLiveRow (path p) (page_num p)
                           (fts5_snippet q (content_idx e)
                                         ">>>" "<<<" " ... " 15)
                           (fts5_rank q (map entry_of (pdfs db)) e))
             (pdfs db) (c_keys db C)).
  - reflexivity.
  - intros x Hx. apply filter_In in Hx. tauto.
Qed.

Lemma NoDup_keys_matching db q :
  consistent db -> NoDup (map key (matching_pages q db)).
Proof.
  intros C. unfold matching_pages. apply NoDup_map_filter, (c_keys db C).
Qed.

Lemma NoDup_sql_limit {A : Type} (limit : Z) (l : list A) :
  NoDup l -> NoDup (sql_limit limit l).
Proof.
  unfold sql_limit. destruct (limit <? 0); auto. intros H.
  rewrite <- (firstn_skipn (Z.to_nat limit) l) in H.
  now apply NoDup_app_remove_r in H.
Qed.

Lemma sql_limit_map {A B : Type} (g : A -> B) (limit : Z) (l : list A) :
  map g (sql_limit limit l) = sql_limit limit (map g l).
Proof.
  unfold sql_limit. destruct (limit <? 0); auto. symmetry. apply firstn_map.
Qed.

Lemma sql_limit_all {A : Type} (limit : Z) (l : list A) :
  limit < 0 \/ Z.of_nat (List.length l) <= limit -> sql_limit limit l = l.
Proof.
  unfold sql_limit. intros [H|H].
  - apply Z.ltb_lt in H. now rewrite H.
  - destruct (limit <? 0); auto. apply firstn_all2. lia.
Qed.

(** X8.  On every store the program can have built, [Search] finds each
    matching Page once.  When the engine call works and the query is
    well-formed, the rows have pairwise different (path, page number);
    each is a Page whose content matches, with the snippet of that
    content; and when the limit is negative or at least the number of
    matching Pages, the rows are all the matching Pages, one row
    each. *)
Theorem Search_one_row_per_page :
  forall (history : list Call) (f : Faults) (queryTerm : string) (limit : Z),
    let db := run history fresh in
    let row_of (p : Page) :=
      mkSearchRow (path p) (page_num p)
                  (fts5_snippet queryTerm (content p) "[HL]" "[/HL]" "..." 25)
                  (last_scanned p) in
    fails f 0 = false ->
    fts5_query_ok queryTerm = true ->
    exists rows,
      Search f db queryTerm limit = (Some (mkRows rows None), None)
      /\ NoDup (map row_key rows)
      /\ (forall row, In row rows ->
            exists p, In p (pdfs db)
                      /\ fts5_match queryTerm (content p) = true
                      /\ row = row_of p)
      /\ (limit < 0
          \/ Z.of_nat (List.length (matching_pages queryTerm db)) <= limit ->
          Permutation rows (map row_of (matching_pages queryTerm db))).
Proof.
  intros history f q limit db row_of Hf Hq.
  assert (C : consistent db) by (apply consistent_run, consistent_fresh).
  unfold Search, match_query, exec. rewrite Hf, (c_index db C), Hq.
  eexists. split; [reflexivity|].
  pose proof (search_join_consistent db q C) as J.
  unfold entries in J. rewrite (c_index db C) in J. rewrite J.
  fold row_of.
  set (all := map row_of (matching_pages q db)).
  assert (Pall : Permutation all (sort_by by_path_page all))
    by apply sort_by_perm.
  assert (Kall : NoDup (map row_key all)).
  { unfold all. rewrite map_map.
    change (fun x => row_key (row_of x)) with key.
    now apply NoDup_keys_matching. }
  split.
  { rewrite sql_limit_map. apply NoDup_sql_limit.
    eapply Permutation_NoDup; [apply Permutation_map, Pall | exact Kall]. }
  split.
  { intros row Hin.
    destruct (sql_limit_prefix limit (sort_by by_path_page all))
      as [rest Hrest].
    assert (Hin' : In row all).
    { eapply Permutation_in; [apply Permutation_sym, Pall|].
      rewrite Hrest. apply in_or_app. now left. }
    unfold all in Hin'. apply in_map_iff in Hin'.
    destruct Hin' as (p & <- & Hp). unfold matching_pages in Hp.
    apply filter_In in Hp. exists p. tauto. }
  intros Hl. rewrite sql_limit_all.
  - apply Permutation_sym, Pall.
  - destruct Hl as [Hl|Hl]; [now left|right].
    rewrite <- (Permutation_length Pall). unfold all.
    now rewrite length_map.
Qed.

(** X9.  The two queries find the same Pages.  On every store the
    program can have built, for a well-formed non-empty query and no
    limit (a negative one), the (path, page number) pairs [LiveSearch]
    returns are those [Search] returns, each once, up to their order:
    the two differ in order and snippet only. *)
Theorem LiveSearch_same_pages :
  forall (history : list Call) (queryTerm : string) (limit limit' : Z),
    let db := run history fresh in
    queryTerm <> EmptyString ->
    fts5_query_ok queryTerm = true ->
    limit < 0 -> limit' < 0 ->
    exists rows live,
      Search None db queryTerm limit = (Some (mkRows rows None), None)
      /\ LiveSearch None db queryTerm limit' = (Some (mkRows live None), None)
      /\ Permutation (map row_key rows) (map live_key live)
      /\ NoDup (map live_key live).
Proof.
  intros history q limit limit' db Hne Hq Hl Hl'.
  assert (C : consistent db) by (apply consistent_run, consistent_fresh).
  apply String.eqb_neq in Hne.
  unfold Search, LiveSearch, match_query, exec. simpl fails.
  rewrite Hne, (c_index db C), Hq.
  eexists. eexists. split; [reflexivity|]. split; [reflexivity|].
  pose proof (search_join_consistent db q C) as J.
  pose proof (live_join_consistent db q C) as L.
  unfold entries in J, L. rewrite (c_index db C) in J, L. rewrite J, L.
  rewrite !sql_limit_all by now left.
  set (srow := fun p => mkSearchRow _ _ _ _).
  set (lrow := fun p => mkLiveRow _ _ _ _).
  assert (P : Permutation
                (map row_key (sort_by by_path_page
                                (map srow (matching_pages q db))))
                (map live_key (sort_by by_rank
                                 (map lrow (matching_pages q db))))).
  { apply perm_trans with (map key (matching_pages q db)).
    - apply Permutation_sym.
      apply perm_trans
        with (map row_key (map srow (matching_pages q db))).
      + rewrite map_map. apply Permutation_refl.
      + apply Permutation_map, sort_by_perm.
    - apply perm_trans
        with (map live_key (map lrow (matching_pages q db))).
      + rewrite map_map. apply Permutation_refl.
      + apply Permutation_map, sort_by_perm. }
  split; [exact P|].
  eapply Permutation_NoDup; [exact P|].
  eapply Permutation_NoDup.
  - apply Permutation_map, sort_by_perm.
  - rewrite map_map. change (fun x => row_key (srow x)) with key.
    now apply NoDup_keys_matching.
Qed.
End SearchFacts.

(* ================================================================= *)
(** * Further properties of the scan *)

(** ** crawlPDFs *)

Lemma WalkDir_crawl ul verbose visits :
  forall pdfFiles logged,
    WalkDir (crawl_fn ul verbose) visits (pdfFiles, logged)
    = ((pdfFiles ++ map visit_path (filter (is_pdf_visit ul) visits),
        logged ++ (if verbose
                   then map (fun v => Warn "Warning: Error accessing %s: %v"
                                           (visit_path v))
                            (filter is_error_visit visits)
                   else []))%list,
       None).
Proof.
  induction visits as [|v visits IH]; intros pdfFiles logged; simpl.
  - destruct verbose; now rewrite !app_nil_r.
  - destruct v as [p|p [|]]; simpl.
    + rewrite IH. destruct verbose; simpl; [|reflexivity].
      now rewrite <- app_assoc.
    + apply IH.
    + destruct (HasSuffix (ToLower ul p) ".pdf"); simpl; rewrite IH.
      * now rewrite <- app_assoc.
      * reflexivity.
Qed.

Lemma substring_all s : substring 0 (String.length s) s = s.
Proof. induction s as [|c s IH]; simpl; auto. now rewrite IH. Qed.

Lemma substring_suffix a b :
  substring (String.length a) (String.length b) (a ++ b)%string = b.
Proof.
  induction a as [|c a IH]; simpl; [apply substring_all | exact IH].
Qed.

Lemma string_length_app a b :
  String.length (a ++ b)%string = (String.length a + String.length b)%nat.
Proof. induction a as [|c a IH]; simpl; auto. Qed.

Lemma HasSuffix_app a b : HasSuffix (a ++ b)%string b = true.
Proof.
  unfold HasSuffix. rewrite string_length_app.
  apply andb_true_iff. split; [apply Nat.leb_le; lia|].
  replace (String.length a + String.length b - String.length b)%nat
    with (String.length a) by lia.
  rewrite substring_suffix. apply String.eqb_refl.
Qed.

Lemma all_ascii_app a b :
  all_ascii (a ++ b)%string = all_ascii a && all_ascii b.
Proof.
  induction a as [|c a IH]; simpl; auto. now rewrite IH, andb_assoc.
Qed.

Lemma lower_bytes_app a b :
  lower_bytes (a ++ b)%string = (lower_bytes a ++ lower_bytes b)%string.
Proof. induction a as [|c a IH]; simpl; auto. now rewrite IH. Qed.

Lemma lower_byte_ascii c d :
  lower_byte c = d -> is_ascii_byte d = true -> is_ascii_byte c = true.
Proof.
  unfold lower_byte, is_upper, is_ascii_byte. intros <-.
  destruct ((65 <=? N_of_ascii c) && (N_of_ascii c <=? 90))%N eqn:E; auto.
  intros _. apply andb_true_iff in E. destruct E as [_ E].
  apply N.leb_le in E. apply N.ltb_lt. lia.
Qed.

(** X10.  What [crawlPDFs] discovers.  It never returns an error,
    whatever errors the walk meets: they are skipped (and logged when
    verbose, one line each).  A path it returns is an entry of the walk
    that is not a directory.  And the extension is matched whatever its
    case: a file whose path is made of ASCII bytes and ends in a dot
    and the letters p, d, f, each in either case, is returned. *)
Theorem crawlPDFs_discovers :
  forall (unicode_lower : string -> string) (verbose : bool)
         (visits : list Visit),
    let pdfFiles := fst (fst (crawlPDFs unicode_lower verbose visits)) in
    snd (fst (crawlPDFs unicode_lower verbose visits)) = None
    /\ List.length (snd (crawlPDFs unicode_lower verbose visits))
       = (if verbose then List.length (filter is_error_visit visits)
          else 0%nat)
    /\ (forall p, In p pdfFiles -> In (VisitEntry p false) visits)
    /\ (forall stem x y z,
          all_ascii stem = true ->
          lower_byte x = "p"%char -> lower_byte y = "d"%char ->
          lower_byte z = "f"%char ->
          let p := (stem ++ String "." (String x (String y (String z ""))))%string in
          In (VisitEntry p false) visits -> In p pdfFiles).
Proof.
  intros ul verbose visits pdfFiles. subst pdfFiles.
  unfold crawlPDFs. rewrite WalkDir_crawl. cbn [fst snd app].
  split; [reflexivity|].
  split; [destruct verbose; [apply length_map | reflexivity]|].
  split.
  - intros p Hin. apply in_map_iff in Hin. destruct Hin as (v & Hv & Hin).
    apply filter_In in Hin. destruct Hin as [Hin Hpdf].
    destruct v as [q|q [|]]; simpl in Hpdf; try discriminate.
    simpl in Hv. now subst q.
  - intros stem x y z Hstem Hx Hy Hz Hin.
    set (p := (stem ++ String "." (String x (String y (String z ""))))%string)
      in *.
    apply in_map_iff. exists (VisitEntry p false). split; [reflexivity|].
    apply filter_In. split; [exact Hin|]. simpl.
    assert (Hascii : all_ascii p = true).
    { unfold p. rewrite all_ascii_app, Hstem. simpl.
      rewrite (lower_byte_ascii x _ Hx), (lower_byte_ascii y _ Hy),
        (lower_byte_ascii z _ Hz) by reflexivity.
      reflexivity. }
    unfold ToLower. rewrite Hascii. unfold p.
    rewrite lower_bytes_app. simpl. rewrite Hx, Hy, Hz.
    apply HasSuffix_app.
Qed.

(** ** processPDFs as a history of the store *)

Lemma process_from_run pp faults clock todo :
  forall i cnt db,
    store (process_from pp faults clock i cnt db todo)
    = run (upsert_calls pp faults clock i todo) db.
Proof.
  unfold run.
  induction todo as [|fi rest IH]; intros i cnt db;
    cbn [process_from upsert_calls]; auto.
  destruct (ExtractPagesText pp (Path fi)) as [pages|];
    cbn [fold_left call store and_then].
  - destruct (UpsertPDFData (faults i) (clock i) db (Path fi)
                (CurrentHash fi) pages) as [db' [e|]];
      cbn [fst store and_then]; apply IH.
  - apply IH.
Qed.

(** X11.  A scan leaves a store the program can have built.  The store
    after [processPDFs], whatever failed in it, is the store after the
    history extended by one [UpsertPDFData] call per document that
    could be extracted; hence Pages and IndexEntries are in bijection
    after it, and the Pages of a path have one fingerprint. *)
Theorem processPDFs_keeps_store :
  forall (history : list Call) (pdfProcessor : Extractor)
         (faults : nat -> Faults) (clock : nat -> nat -> Timestamp)
         (filesToProcess : list PDFFileInfo),
    let after :=
      store (processPDFs pdfProcessor faults clock (run history fresh)
                         filesToProcess) in
    after
    = run (history ++ upsert_calls pdfProcessor faults clock 0 filesToProcess)
          fresh
    /\ (forall r, In r (pdfs after) -> entries_at r after = [entry_of r])
    /\ (forall e, In e (entries after) ->
          exists r, pages_at e after = [r] /\ entry_of r = e)
    /\ (forall r r', In r (pdfs after) -> In r' (pdfs after) ->
                     path r = path r' -> hash r = hash r').
Proof.
  intros history pp faults clock todo after.
  assert (E : after
              = run (history ++ upsert_calls pp faults clock 0 todo) fresh).
  { unfold after, processPDFs. rewrite process_from_run.
    unfold run. now rewrite fold_left_app. }
  assert (C : consistent after)
    by (rewrite E; apply consistent_run, consistent_fresh).
  split; [exact E|].
  destruct (bijection_of_image after (c_index after C) (c_keys after C))
    as [B1 B2].
  split; [exact B1|]. split; [exact B2 | apply (c_hash after C)].
Qed.

(** ** runScanCommand *)

Lemma check_hashes_from_length pp faults db forced files :
  forall i,
    (List.length (fst (check_hashes_from pp faults db forced i files))
     <= List.length files)%nat.
Proof.
  induction files as [|p rest IH]; intros i; simpl; auto.
  specialize (IH (S i)).
  destruct (check_hashes_from pp faults db forced (S i) rest) as [todo ws].
  simpl in IH.
  destruct (HashFile pp p); simpl; [|lia].
  destruct (GetStoredHash (faults i) db p) as [st [e|]]; simpl; [lia|].
  destruct (forced || negb (String.eqb _ st)); simpl; lia.
Qed.

Lemma processPDFs_count pp faults clock db todo :
  returned (processPDFs pp faults clock db todo) = None
  /\ (count (processPDFs pp faults clock db todo) <= List.length todo)%nat.
Proof.
  destruct (process_from_spec pp faults clock todo 0 0 db)
    as (H1 & H2 & H3 & _).
  split; [exact H1|].
  unfold processPDFs. rewrite H3. simpl.
  rewrite <- (length_map Path todo), <- H2, length_map.
  apply filter_length_le.
Qed.

(** X12.  [runScanCommand] never returns an error, and says what it
    did.  Whatever the walk meets and whichever hash, extraction or
    transaction fails, the command ends in one of three ways: no PDF
    file was found, and the store is untouched; files were found and
    none needs processing, and the store is untouched; or it reports
    the number of files found and the number updated, with
    updated <= needing processing <= found. *)
Theorem runScanCommand_outcomes :
  forall (unicode_lower : string -> string) (pdfProcessor : Extractor)
         (verbose : bool) (visits : list Visit)
         (faults2 faults3 : nat -> Faults) (clock : nat -> nat -> Timestamp)
         (db : DB) (forceRescan : bool),
    let r := runScanCommand unicode_lower pdfProcessor verbose visits
                            faults2 faults3 clock db forceRescan in
    let found :=
      List.length (fst (fst (crawlPDFs unicode_lower verbose visits))) in
    scan_error r = None
    /\ ((found = 0%nat /\ scan_store r = db
         /\ scan_stdout r = [Phase1_Discovering; NoPDFFilesFound])
        \/ (found <> 0%nat /\ scan_store r = db
            /\ scan_stdout r = [Phase1_Discovering; FoundPDFFiles found;
                                Phase2_CheckingHashes; AllUpToDate])
        \/ (exists needed updated,
               scan_stdout r = [Phase1_Discovering; FoundPDFFiles found;
                                Phase2_CheckingHashes;
                                FilesNeedProcessing needed;
                                Phase3_Processing;
                                ScanCompleted found updated]
               /\ (updated <= needed <= found)%nat /\ (0 < needed)%nat)).
Proof.
  intros ul pp verbose visits faults2 faults3 clock db forced r found.
  subst r found. unfold runScanCommand.
  unfold crawlPDFs. rewrite WalkDir_crawl. cbn [fst snd app].
  set (files := map visit_path (filter (is_pdf_visit ul) visits)).
  destruct (Nat.eqb_spec (List.length files) 0) as [E0|E0].
  { simpl. split; [reflexivity|]. left. auto. }
  pose proof (checkHashes_todo pp faults2 db files forced) as Htodo.
  pose proof (checkHashes_returns_nil pp faults2 db files forced) as Hnil.
  destruct (fst (checkHashes pp faults2 db files forced)) as [todo err].
  simpl in Htodo, Hnil. subst err.
  destruct (Nat.eqb_spec (List.length todo) 0) as [E1|E1].
  { simpl. split; [reflexivity|]. right. left. auto. }
  destruct (processPDFs_count pp faults3 clock db todo) as [Hret Hcount].
  rewrite Hret. simpl. split; [reflexivity|]. right. right.
  eexists. eexists. split; [reflexivity|].
  pose proof (check_hashes_from_length pp faults2 db forced files 0) as Hlen.
  rewrite <- Htodo in Hlen. lia.
Qed.

Lemma find_filter_hd {A : Type} (p : A -> bool) l :
  find p l = hd_error (filter p l).
Proof.
  induction l as [|x l IH]; simpl; auto. destruct (p x); auto.
Qed.

Lemma stored_by_pages db db' p :
  pages_of_path p db' = pages_of_path p db ->
  stored_fingerprint db' p = stored_fingerprint db p.
Proof.
  unfold stored_fingerprint, pages_of_path. rewrite !find_filter_hd.
  now intros ->.
Qed.

(** After the two phases of a scan in which the engine does what it is
    asked, every file that can be hashed and has at least one page has
    its fingerprint stored. *)
Lemma scan_stores_fingerprints pp clock db files p h c pages :
  schema_ok db = true ->
  In p files ->
  HashFile pp p = Some h ->
  ExtractPagesText pp p = Some (c :: pages) ->
  let todo := fst (fst (checkHashes pp no_fault db files false)) in
  stored_fingerprint (store (processPDFs pp no_fault clock db todo)) p
  = Some h.
Proof.
  intros Hok Hin Hh Hx todo.
  destruct (process_from_spec pp no_fault clock todo 0 0 db)
    as (_ & Hpaths & _ & _ & Hnth & Hframe).
  fold (processPDFs pp no_fault clock db todo) in Hpaths, Hnth, Hframe.
  destruct (in_dec string_dec p (map Path todo)) as [Hp|Hp].
  - apply in_map_iff in Hp. destruct Hp as (fi & Hfi & Hfi_in).
    pose proof (checkHashes_CurrentHash _ _ _ _ _ _ Hfi_in) as [_ Hcur].
    rewrite Hfi, Hh in Hcur.
    assert (Hcur' : h = CurrentHash fi) by congruence.
    rewrite Hcur'.
    apply process_from_stored.
    + rewrite Hx. discriminate.
    + intros fi' Hin' Hp'.
      pose proof (checkHashes_CurrentHash _ _ _ _ _ _ Hin') as [_ Hh'].
      rewrite Hp', Hh in Hh'. congruence.
    + left. apply In_nth_error in Hfi_in. destruct Hfi_in as [j Hj].
      destruct (Hnth j fi Hj) as (o & Ho & Hop & Hup).
      unfold gets_stored in Hup. rewrite Hfi, Hx, Hok in Hup.
      simpl in Hup. destruct o as [q|q e|q]; try discriminate.
      simpl in Hop. rewrite Hfi in Hop. subst q.
      eapply nth_error_In; eauto.
  - rewrite (stored_by_pages db _ p).
    + apply In_nth_error in Hin. destruct Hin as [j Hj].
      pose proof (HashFile_not_empty pp p h Hh) as Hne.
      apply (needs_update_false false h db p Hne).
      apply not_true_is_false. intros Hneed. apply Hp.
      apply in_map_iff.
      exists (mkPDFFileInfo p h (or_empty (stored_fingerprint db p)) true).
      split; [reflexivity|].
      unfold todo. rewrite checkHashes_todo. apply In_check_hashes_from.
      exists j. simpl. rewrite GetStoredHash_None. auto.
    + apply Hframe. intros Hup. apply Hp. rewrite <- Hpaths.
      apply in_map_iff. exists (Updated p). auto.
Qed.

Lemma runScanCommand_store ul pp verbose visits faults2 faults3 clock db
      forced :
  let files := fst (fst (crawlPDFs ul verbose visits)) in
  scan_store (runScanCommand ul pp verbose visits faults2 faults3 clock db
                             forced)
  = store (processPDFs pp faults3 clock db
             (fst (fst (checkHashes pp faults2 db files forced)))).
Proof.
  intros files. unfold runScanCommand.
  assert (Hcrawl : fst (crawlPDFs ul verbose visits) = (files, None)).
  { unfold files, crawlPDFs. now rewrite WalkDir_crawl. }
  rewrite Hcrawl.
  destruct (Nat.eqb_spec (List.length files) 0) as [E0|E0].
  { destruct files; [reflexivity | discriminate]. }
  pose proof (checkHashes_returns_nil pp faults2 db files forced) as Hnil.
  destruct (fst (checkHashes pp faults2 db files forced)) as [t err].
  simpl in Hnil. subst err. cbn [fst].
  destruct (Nat.eqb_spec (List.length t) 0) as [E1|E1].
  - destruct t; [reflexivity | discriminate].
  - cbv zeta.
    destruct (processPDFs_count pp faults3 clock db t) as [-> _].
    reflexivity.
Qed.

(** X13.  Scanning twice, as a command.  Let a scan that is not forced
    run with an engine that does what it is asked, over files that can
    all be hashed and have at least one page each.  Then a second scan
    of the same files, not forced either, finds nothing to do whatever
    fails in it: it returns no error, does not reach the third phase,
    and leaves the store exactly as the first scan left it. *)
Theorem runScanCommand_twice :
  forall (unicode_lower : string -> string) (pdfProcessor : Extractor)
         (verbose : bool) (visits : list Visit)
         (faults2 faults3 : nat -> Faults)
         (clock clock' : nat -> nat -> Timestamp) (db : DB),
    schema_ok db = true ->
    (forall p, In p (fst (fst (crawlPDFs unicode_lower verbose visits))) ->
       exists h c pages,
         HashFile pdfProcessor p = Some h
         /\ ExtractPagesText pdfProcessor p = Some (c :: pages)) ->
    let first := runScanCommand unicode_lower pdfProcessor verbose visits
                                no_fault no_fault clock db false in
    let second := runScanCommand unicode_lower pdfProcessor verbose visits
                                 faults2 faults3 clock' (scan_store first)
                                 false in
    scan_error second = None
    /\ scan_store second = scan_store first
    /\ ~ In Phase3_Processing (scan_stdout second).
Proof.
  intros ul pp verbose visits faults2 faults3 clock clock' db Hok Hfiles
         first second.
  set (files := fst (fst (crawlPDFs ul verbose visits))) in *.
  assert (Hcrawl : fst (crawlPDFs ul verbose visits) = (files, None)).
  { unfold files, crawlPDFs. now rewrite WalkDir_crawl. }
  set (todo := fst (fst (checkHashes pp no_fault db files false))).
  set (db1 := store (processPDFs pp no_fault clock db todo)).
  assert (Hfirst : scan_store first = db1)
    by apply runScanCommand_store.
  subst second. rewrite Hfirst.
  (* the second scan selects nothing *)
  assert (Hnone : fst (checkHashes pp faults2 db1 files false) = ([], None)).
  { pose proof (checkHashes_todo pp faults2 db1 files false) as Htodo.
    pose proof (checkHashes_returns_nil pp faults2 db1 files false) as Hnil.
    destruct (fst (checkHashes pp faults2 db1 files false)) as [t err].
    simpl in Htodo, Hnil. subst err. f_equal.
    destruct t as [|info rest]; [reflexivity|]. exfalso.
    assert (Hin : In info (fst (check_hashes_from pp faults2 db1 false 0
                                                  files)))
      by (rewrite <- Htodo; now left).
    apply In_check_hashes_from in Hin.
    destruct Hin as (j & Hj & Hcur & Hst & Hn & _).
    apply nth_error_In in Hj.
    destruct (Hfiles _ Hj) as (h & c & pages & Hh & Hx).
    pose proof (scan_stores_fingerprints pp clock db files (Path info)
                  h c pages Hok Hj Hh Hx) as Hs.
    change (stored_fingerprint db1 (Path info) = Some h) in Hs.
    destruct (GetStoredHash_cases (faults2 (0 + j)%nat) db1 (Path info))
      as [[_ H']|[_ [e H']]]; rewrite H' in Hst; inversion Hst as [Hst'].
    rewrite Hs in Hst'. simpl in Hst'.
    assert (CurrentHash info = h) by congruence.
    rewrite <- Hst', H in Hn. simpl in Hn.
    rewrite String.eqb_refl in Hn. discriminate. }
  unfold runScanCommand. rewrite Hcrawl, Hnone.
  destruct (Nat.eqb (List.length files) 0); simpl.
  - split; [reflexivity|]. split; [reflexivity|].
    intros [H|[H|[]]]; discriminate.
  - split; [reflexivity|]. split; [reflexivity|].
    intros [H|[H|[H|[H|[]]]]]; discriminate.
Qed.

(** ** checkHashes on a forced or first scan *)

Lemma check_hashes_from_all pp db forced files :
  forced = true \/ pdfs db = [] ->
  forall i,
    map Path (fst (check_hashes_from pp no_fault db forced i files))
    = filter (can_hash pp) files
    /\ List.length (snd (check_hashes_from pp no_fault db forced i files))
       = List.length (filter (fun p => negb (can_hash pp p)) files).
Proof.
  intros Hall. induction files as [|p rest IH]; intros i; simpl; auto.
  destruct (IH (S i)) as [IH1 IH2].
  destruct (check_hashes_from pp no_fault db forced (S i) rest)
    as [todo ws]. simpl in IH1, IH2.
  destruct (HashFile pp p) as [cur|] eqn:Hcur.
  - assert (Hc : can_hash pp p = true)
      by (unfold can_hash; now rewrite Hcur).
    rewrite Hc. simpl.
    unfold no_fault. rewrite GetStoredHash_None.
    assert (Hn : forced
                 || negb (String.eqb cur
                            (or_empty (stored_fingerprint db p))) = true).
    { destruct Hall as [-> | Hempty]; [reflexivity|].
      unfold stored_fingerprint. rewrite Hempty. simpl.
      pose proof (HashFile_not_empty pp p cur Hcur) as Hne.
      apply String.eqb_neq in Hne. rewrite Hne. apply orb_true_r. }
    rewrite Hn. simpl. split; [now rewrite IH1 | exact IH2].
  - assert (Hc : can_hash pp p = false)
      by (unfold can_hash; now rewrite Hcur).
    rewrite Hc. simpl. split; [exact IH1 | now rewrite IH2].
Qed.

(** X14.  A forced scan, and a first one.  When the scan is forced, or
    the store holds no Page yet, and the stored fingerprints can be
    read, the worklist of [checkHashes] is every file whose fingerprint
    can be computed, in the order of discovery and whether or not it
    changed; every other file gets one warning; and the stored hash of
    an entry is what [GetStoredHash] returns for its path. *)
Theorem checkHashes_selects_all :
  forall (pdfProcessor : Extractor) (db : DB) (pdfFiles : list string)
         (forceRescan : bool),
    forceRescan = true \/ pdfs db = [] ->
    let r := checkHashes pdfProcessor no_fault db pdfFiles forceRescan in
    map Path (fst (fst r)) = filter (can_hash pdfProcessor) pdfFiles
    /\ List.length (snd r)
       = List.length (filter (fun p => negb (can_hash pdfProcessor p))
                             pdfFiles)
    /\ (forall info, In info (fst (fst r)) ->
          NeedsUpdate info = true
          /\ HashFile pdfProcessor (Path info) = Some (CurrentHash info)
          /\ GetStoredHash None db (Path info) = (StoredHash info, None)).
Proof.
  intros pp db files forced Hall r. subst r.
  destruct (check_hashes_from_all pp db forced files Hall 0) as [H1 H2].
  rewrite checkHashes_todo. split; [exact H1|].
  split.
  - unfold checkHashes.
    destruct (check_hashes_from pp no_fault db forced 0 files). exact H2.
  - intros info Hin. apply In_check_hashes_from in Hin.
    destruct Hin as (j & _ & Hh & Hs & _ & Hn). auto.
Qed.

(** ** The pages of a document and their numbers *)

Lemma nth_error_pages_from clock p h pcs :
  forall i k,
    nth_error (pages_from clock p h i pcs) k
    = option_map (page_of clock p h (i + k)) (nth_error pcs k).
Proof.
  induction pcs as [|c pcs IH]; intros i k.
  - destruct k; reflexivity.
  - destruct k as [|k]; simpl.
    + now rewrite Nat.add_0_r.
    + rewrite IH. now rewrite Nat.add_succ_r.
Qed.

(** X15.  Page numbers follow the document.  [ExtractPagesText] fails
    only when the document cannot be opened, as [ExtractText] and
    [ExtractAllText] do; otherwise it returns one text per page of the
    document, the empty string for a page whose text cannot be
    extracted, so that no page number shifts.  After [UpsertPDFData]
    stored these texts, the [k]-th page of the document (counted from
    0) is the Page numbered [k + 1] of the path, with its cleaned text,
    or the empty string if it could not be extracted. *)
Theorem ExtractPagesText_numbering :
  forall (pdfProcessor : Extractor) (f : Faults) (clock : nat -> Timestamp)
         (db : DB) (p h : string),
    (ExtractPagesText pdfProcessor p = None
     <-> fitz_pages pdfProcessor p = None)
    /\ (ExtractText pdfProcessor p = None
        <-> fitz_pages pdfProcessor p = None)
    /\ (ExtractAllText pdfProcessor p = None
        <-> fitz_pages pdfProcessor p = None)
    /\ (forall pages,
          fitz_pages pdfProcessor p = Some pages ->
          exists pageContents,
            ExtractPagesText pdfProcessor p = Some pageContents
            /\ List.length pageContents = List.length pages
            /\ (snd (UpsertPDFData f clock db p h pageContents) = None ->
                forall k pg,
                  nth_error pages k = Some pg ->
                  In (mkPage p (Z.of_nat k + 1) h
                             (Some (page_text pdfProcessor pg)) (clock k))
                     (pdfs (fst (UpsertPDFData f clock db p h
                                               pageContents))))).
Proof.
  intros pp f clock db p h.
  unfold ExtractAllText, ExtractText, ExtractPagesText.
  destruct (fitz_pages pp p) as [pages|].
  - split; [split; discriminate|]. split; [split; discriminate|].
    split; [split; discriminate|].
    intros pages' E. inversion E; subst pages'. clear E.
    exists (map (page_text pp) pages).
    split; [reflexivity|]. split; [apply length_map|].
    intros Herr k pg Hk.
    destruct (UpsertPDFData_cases f clock db p h (map (page_text pp) pages))
      as [(_ & _ & E)|(_ & e & E)];
      rewrite E in Herr |- *; simpl in Herr; [|discriminate].
    cbn [fst]. unfold replaced. cbn [pdfs]. apply in_or_app. right.
    apply (nth_error_In _ k). rewrite nth_error_pages_from.
    rewrite nth_error_map, Hk. reflexivity.
  - split; [tauto|]. split; [tauto|]. split; [tauto|]. discriminate.
Qed.

(** ** The fingerprint of HashFile *)

Lemma land_15 x : N.land x 15 = (x mod 16)%N.
Proof. change 15%N with (N.ones 4). now rewrite N.land_ones. Qed.

Lemma land_15_lt x : (N.land x 15 < 16)%N.
Proof. rewrite land_15. now apply N.mod_lt. Qed.

Lemma below_16 d :
  (d < 16)%N ->
  In d [0; 1; 2; 3; 4; 5; 6; 7; 8; 9; 10; 11; 12; 13; 14; 15]%N.
Proof.
  intros H.
  assert (E : d = N.of_nat (N.to_nat d)) by now rewrite N2Nat.id.
  assert (Hn : In (N.to_nat d) (seq 0 16)) by (apply in_seq; lia).
  rewrite E. apply (in_map N.of_nat) in Hn. exact Hn.
Qed.

Lemma hex_char_inj d d' :
  (d < 16)%N -> (d' < 16)%N -> hex_char d = hex_char d' -> d = d'.
Proof.
  intros H H'. apply below_16 in H. apply below_16 in H'.
  simpl in H, H'.
  repeat (destruct H as [<-|H]; [|]);
    try contradiction;
    repeat (destruct H' as [<-|H']; [|]);
    try contradiction; intros E; try reflexivity; discriminate E.
Qed.

Lemma hex_char_digit d :
  (d < 16)%N -> In (hex_char d) (list_ascii_of_string "0123456789abcdef").
Proof.
  intros H. apply below_16 in H. simpl in H.
  repeat (destruct H as [<-|H]; [simpl; tauto|]). contradiction.
Qed.

Lemma nibble_eq_iff n m s :
  N.land (N.shiftr n s) 15 = N.land (N.shiftr m s) 15
  <-> forall b, (b < 4)%N -> N.testbit n (b + s) = N.testbit m (b + s).
Proof.
  change 15%N with (N.ones 4). split.
  - intros E b Hb.
    apply (f_equal (fun x => N.testbit x b)) in E.
    rewrite !N.land_spec, !N.shiftr_spec', N.ones_spec_low in E by exact Hb.
    now rewrite !andb_true_r in E.
  - intros H. apply N.bits_inj. intros b.
    rewrite !N.land_spec, !N.shiftr_spec'.
    destruct (N.lt_ge_cases b 4) as [Hb|Hb].
    + now rewrite (H b Hb).
    + rewrite N.ones_spec_high by exact Hb. now rewrite !andb_false_r.
Qed.

Lemma hex_digits_eq_iff k n m :
  hex_digits k n = hex_digits k m
  <-> forall b, (b < 4 * N.of_nat k)%N -> N.testbit n b = N.testbit m b.
Proof.
  induction k as [|k IH].
  - simpl. split; [intros _ b Hb; lia | reflexivity].
  - cbn [hex_digits]. split.
    + intros E. injection E as Ec Es.
      apply hex_char_inj in Ec; try apply land_15_lt.
      rewrite nibble_eq_iff in Ec. rewrite IH in Es.
      intros b Hb.
      destruct (N.lt_ge_cases b (4 * N.of_nat k)) as [Hlow|Hhigh];
        [now apply Es|].
      replace b with (b - 4 * N.of_nat k + 4 * N.of_nat k)%N by lia.
      apply Ec. lia.
    + intros H. f_equal.
      * f_equal. apply nibble_eq_iff. intros b Hb. apply H. lia.
      * apply IH. intros b Hb. apply H. lia.
Qed.

Lemma mod_pow2_eq_iff n m K :
  (n mod 2 ^ K = m mod 2 ^ K)%N
  <-> forall b, (b < K)%N -> N.testbit n b = N.testbit m b.
Proof.
  split.
  - intros E b Hb.
    rewrite <- (N.mod_pow2_bits_low n K b Hb),
            <- (N.mod_pow2_bits_low m K b Hb).
    now rewrite E.
  - intros H. apply N.bits_inj. intros b.
    destruct (N.lt_ge_cases b K) as [Hb|Hb].
    + rewrite !N.mod_pow2_bits_low by exact Hb. now apply H.
    + now rewrite !N.mod_pow2_bits_high by exact Hb.
Qed.

Lemma hex_digits_chars k n c :
  In c (list_ascii_of_string (hex_digits k n)) ->
  In c (list_ascii_of_string "0123456789abcdef").
Proof.
  induction k as [|k IH]; cbn [hex_digits list_ascii_of_string];
    [intros []|].
  intros [<-|H]; [|now apply IH].
  apply hex_char_digit, land_15_lt.
Qed.

(** X16.  The fingerprint is the SHA-1 sum, and nothing but it.
    [HashFile] fails exactly when the file cannot be read.  The
    fingerprint of a file that can be read is 40 characters long, all
    of them lower-case hexadecimal digits; and two files have the same
    fingerprint if and only if their 160-bit SHA-1 sums are equal:
    the encoding loses nothing. *)
Theorem HashFile_fingerprint :
  forall (pdfProcessor : Extractor) (p q : string),
    (HashFile pdfProcessor p = None <-> read_file pdfProcessor p = None)
    /\ (forall bytes bytes',
          read_file pdfProcessor p = Some bytes ->
          read_file pdfProcessor q = Some bytes' ->
          exists h h',
            HashFile pdfProcessor p = Some h
            /\ HashFile pdfProcessor q = Some h'
            /\ String.length h = 40%nat
            /\ (forall c, In c (list_ascii_of_string h) ->
                  In c (list_ascii_of_string "0123456789abcdef"))
            /\ (h = h' <->
                (sha1_Sum pdfProcessor bytes mod 2 ^ 160
                 = sha1_Sum pdfProcessor bytes' mod 2 ^ 160)%N)).
Proof.
  intros pp p q. unfold HashFile. split.
  - destruct (read_file pp p); split; congruence.
  - intros bytes bytes' -> ->.
    eexists. eexists. split; [reflexivity|]. split; [reflexivity|].
    split; [apply hex_digits_length|].
    split; [intros c; apply hex_digits_chars|].
    rewrite hex_digits_eq_iff, mod_pow2_eq_iff. reflexivity.
Qed.

(* ================================================================= *)
(** * Further properties of the commands *)

(** ** formatFileSize *)

Lemma wrap64_small z : - 2 ^ 63 <= z < 2 ^ 63 -> wrap64 z = z.
Proof.
  intros H. unfold wrap64. rewrite Z.mod_small; lia.
Qed.

Lemma size_loop_spec bytes :
  0 <= bytes < 2 ^ 63 ->
  forall fuel n exp,
    0 <= n < 1024 ^ Z.of_nat fuel * 1024 ->
    1 <= n ->
    1024 ^ (Z.of_nat exp + 1) * n <= bytes
    < 1024 ^ (Z.of_nat exp + 1) * (n + 1) ->
    exists k,
      size_loop fuel n (1024 ^ (Z.of_nat exp + 1)) exp
      = Some (1024 ^ (Z.of_nat k + 1), k)
      /\ 1024 ^ (Z.of_nat k + 1) <= bytes < 1024 * 1024 ^ (Z.of_nat k + 1)
      /\ (exp <= k)%nat.
Proof.
  intros Hb. induction fuel as [|fuel IH]; intros n exp Hn H1 Hinv.
  - simpl in Hn. cbn [size_loop].
    destruct (Z.geb_spec n 1024) as [Hge|Hlt]; [lia|].
    exists exp. split; [reflexivity|]. split; [|lia]. nia.
  - cbn [size_loop].
    destruct (Z.geb_spec n 1024) as [Hge|Hlt].
    + assert (Hpos : 0 < 1024 ^ (Z.of_nat exp + 1))
        by (apply Z.pow_pos_nonneg; lia).
      assert (Hq : 1024 * Z.quot n 1024 <= n < 1024 * (Z.quot n 1024 + 1)).
      { rewrite Z.quot_div_nonneg by lia.
        pose proof (Z.mul_div_le n 1024). 
        pose proof (Z.mul_succ_div_gt n 1024). lia. }
      assert (Hq1 : 1 <= Z.quot n 1024).
      { rewrite Z.quot_div_nonneg by lia.
        apply Z.div_le_lower_bound; lia. }
      assert (Hpow : 1024 ^ (Z.of_nat exp + 1) * 1024
                     = 1024 ^ (Z.of_nat (S exp) + 1)).
      { replace (Z.of_nat (S exp) + 1) with (Z.of_nat exp + 1 + 1) by lia.
        rewrite (Z.pow_add_r 1024 (Z.of_nat exp + 1) 1) by lia.
        reflexivity. }
      rewrite wrap64_small by nia. rewrite Hpow.
      destruct (IH (Z.quot n 1024) (S exp)) as (k & E & Hk & Hle).
      * rewrite Nat2Z.inj_succ, Z.pow_succ_r in Hn by lia. nia.
      * exact Hq1.
      * rewrite <- Hpow. nia.
      * exists k. split; [exact E|]. split; [exact Hk | lia].
    + exists exp. split; [reflexivity|]. split; [|lia]. nia.
Qed.

(** X17.  The unit [formatFileSize] picks.  For an int64 size: below
    1024 it prints the bytes; from 1024 to below 2^50 it prints the
    size divided by a power of 1024 with the matching unit among KB,
    MB, GB, TB, and the quotient lies between 1 and 1024; from 2^50
    (one pebibyte) on, the loop leaves an index past the end of its
    four units, and the function panics.  The loop always ends and
    [div] never overflows. *)
Theorem formatFileSize_units :
  forall (bytes : Z),
    - 2 ^ 63 <= bytes < 2 ^ 63 ->
    (bytes < 1024 -> formatFileSize bytes = InBytes bytes)
    /\ (1024 <= bytes ->
        exists k,
          1024 ^ (Z.of_nat k + 1) <= bytes < 1024 * 1024 ^ (Z.of_nat k + 1)
          /\ formatFileSize bytes
             = match nth_error units k with
               | Some unit => InUnits bytes (1024 ^ (Z.of_nat k + 1)) unit
               | None => IndexOutOfRange k
               end
          /\ (bytes < 2 ^ 50 <-> (k < 4)%nat)).
Proof.
  intros bytes Hb. unfold formatFileSize. split.
  - intros H. apply Z.ltb_lt in H. now rewrite H.
  - intros H. destruct (Z.ltb_spec bytes 1024) as [|_]; [lia|].
    assert (Hq : 1024 * Z.quot bytes 1024 <= bytes
                 < 1024 * (Z.quot bytes 1024 + 1)).
    { rewrite Z.quot_div_nonneg by lia.
      pose proof (Z.mul_div_le bytes 1024).
      pose proof (Z.mul_succ_div_gt bytes 1024). lia. }
    assert (Hb' : 0 <= bytes < 2 ^ 63) by lia.
    destruct (size_loop_spec bytes Hb' 64
                (Z.quot bytes 1024) 0) as (k & E & Hk & _).
    + split; [lia|].
      assert (bytes < 1024 ^ 7) by (simpl; lia).
      change (Z.of_nat 64) with 64. 
      assert (1024 ^ 7 <= 1024 ^ 64 * 1024)
        by (change (1024 ^ 64 * 1024) with (1024 ^ 65);
            apply Z.pow_le_mono_r; lia).
      lia.
    + lia.
    + change (1024 ^ (Z.of_nat 0 + 1)) with 1024. lia.
    + change (1024 ^ (Z.of_nat 0 + 1)) with 1024 in E. rewrite E.
      exists k. split; [exact Hk|]. split; [reflexivity|].
      change (2 ^ 50) with (1024 ^ 5). split.
      * intros Hlt.
        destruct (Nat.lt_ge_cases k 4) as [|Hge]; [assumption|].
        assert (1024 ^ 5 <= 1024 ^ (Z.of_nat k + 1))
          by (apply Z.pow_le_mono_r; lia).
        lia.
      * intros Hlt.
        assert (1024 ^ (Z.of_nat k + 1) <= 1024 ^ 4)
          by (apply Z.pow_le_mono_r; lia).
        change (1024 ^ 5) with (1024 * 1024 ^ 4). lia.
Qed.

(* ================================================================= *)
(** * Examples of the further properties *)

Lemma RebuildFTS_repairs_witness :
  let db := mkDB (pdfs scenario_B) None no_triggers in
  let after := fst (RebuildFTS None db) in
  NoDup (map key (pdfs db))
  /\ (forall r, In r (pdfs db) -> has_content r = true)
  /\ snd (RebuildFTS None db) = None
  /\ triggers after = all_triggers
  /\ pdfs after = pdfs db
  /\ (forall r, In r (pdfs after) -> entries_at r after = [entry_of r])
  /\ (forall e, In e (entries after) ->
        exists r, pages_at e after = [r] /\ entry_of r = e).
Proof.
  intros db after.
  assert (H1 : NoDup (map key (pdfs db))).
  { vm_compute. repeat constructor; simpl; intuition discriminate. }
  assert (H2 : forall r, In r (pdfs db) -> has_content r = true).
  { intros r Hr. vm_compute in Hr.
    destruct Hr as [<-|[<-|[]]]; reflexivity. }
  assert (H3 : snd (RebuildFTS None db) = None) by (vm_compute; reflexivity).
  exact (conj H1 (conj H2 (conj H3 (RebuildFTS_repairs None db H1 H2 H3)))).
Defined.

Lemma UpsertPDFData_other_paths_witness :
  let after :=
    fst (UpsertPDFData (Some 3%nat) ticking scenario_B "b.pdf" "h2"
                       ["one"%string; "two"%string]) in
  "b.pdf"%string <> "a.pdf"%string
  /\ pages_of_path "a.pdf" after = pages_of_path "a.pdf" scenario_B
  /\ entries_of_path "a.pdf" after = entries_of_path "a.pdf" scenario_B
  /\ GetStoredHash None after "a.pdf" = GetStoredHash None scenario_B "a.pdf".
Proof.
  intros after.
  assert (H : "b.pdf"%string <> "a.pdf"%string) by discriminate.
  exact (conj H (UpsertPDFData_other_paths (Some 3%nat) ticking scenario_B
                   "b.pdf" "h2" ["one"%string; "two"%string] "a.pdf" H)).
Defined.

Lemma UpsertPDFData_replaces_index_witness :
  let history :=
    [CallUpsert None ticking "a.pdf" "h1" ["foo bar"%string; "baz qux"%string]] in
  let db := run history fresh in
  let pageContents := ["new"%string; "text"%string; "here"%string] in
  let after := fst (UpsertPDFData None ticking db "a.pdf" "h2" pageContents) in
  snd (UpsertPDFData None ticking db "a.pdf" "h2" pageContents) = None
  /\ map fts_page_num (entries_of_path "a.pdf" after)
     = map Z.of_nat (seq 1 (List.length pageContents))
  /\ map content_idx (entries_of_path "a.pdf" after)
     = map Some pageContents
  /\ map hash (pages_of_path "a.pdf" after)
     = repeat "h2"%string (List.length pageContents).
Proof.
  intros history db pageContents after.
  assert (H : snd (UpsertPDFData None ticking db "a.pdf" "h2" pageContents)
              = None) by (vm_compute; reflexivity).
  exact (conj H (UpsertPDFData_replaces_index history None ticking
                   "a.pdf" "h2" pageContents H)).
Defined.

Lemma Search_one_row_per_page_witness :
  let history :=
    [CallUpsert None ticking "a.pdf" "h1" ["foo bar"%string; "baz qux"%string]] in
  let db := run history fresh in
  let row_of (p : Page) :=
    mkSearchRow (path p) (page_num p)
                (fts5_snippet "bar" (content p) "[HL]" "[/HL]" "..." 25)
                (last_scanned p) in
  fails None 0 = false
  /\ fts5_query_ok "bar" = true
  /\ exists rows,
      Search None db "bar" 5 = (Some (mkRows rows None), None)
      /\ NoDup (map row_key rows)
      /\ (forall row, In row rows ->
            exists p, In p (pdfs db)
                      /\ fts5_match "bar" (content p) = true
                      /\ row = row_of p)
      /\ (5 < 0
          \/ Z.of_nat (List.length (matching_pages "bar" db)) <= 5 ->
          Permutation rows (map row_of (matching_pages "bar" db))).
Proof.
  intros history db row_of.
  assert (H1 : fails None 0 = false) by reflexivity.
  assert (H2 : fts5_query_ok "bar" = true) by reflexivity.
  exact (conj H1 (conj H2 (Search_one_row_per_page history None "bar" 5
                             H1 H2))).
Defined.

Lemma LiveSearch_same_pages_witness :
  let history :=
    [CallUpsert None ticking "a.pdf" "h1" ["foo bar"%string; "baz qux"%string]] in
  let db := run history fresh in
  "bar"%string <> EmptyString
  /\ fts5_query_ok "bar" = true
  /\ -1 < 0
  /\ exists rows live,
      Search None db "bar" (-1) = (Some (mkRows rows None), None)
      /\ LiveSearch None db "bar" (-1) = (Some (mkRows live None), None)
      /\ Permutation (map row_key rows) (map live_key live)
      /\ NoDup (map live_key live).
Proof.
  intros history db.
  assert (H1 : "bar"%string <> EmptyString) by discriminate.
  assert (H2 : fts5_query_ok "bar" = true) by reflexivity.
  assert (H3 : -1 < 0) by lia.
  exact (conj H1 (conj H2 (conj H3 (LiveSearch_same_pages history "bar"
                                      (-1) (-1) H1 H2 H3 H3)))).
Defined.

Lemma runScanCommand_twice_witness :
  let lower := fun s : string => s in
  let visits := [VisitEntry "docs" true; VisitEntry "a.pdf" false] in
  let first := runScanCommand lower two_page_world false visits
                              no_fault no_fault (fun _ => ticking) fresh
                              false in
  let second := runScanCommand lower two_page_world false visits
                               no_fault (fun _ => Some 2%nat)
                               (fun _ => ticking) (scan_store first) false in
  schema_ok fresh = true
  /\ (forall p, In p (fst (fst (crawlPDFs lower false visits))) ->
        exists h c pages,
          HashFile two_page_world p = Some h
          /\ ExtractPagesText two_page_world p = Some (c :: pages))
  /\ scan_error second = None
  /\ scan_store second = scan_store first
  /\ ~ In Phase3_Processing (scan_stdout second).
Proof.
  intros lower visits first second.
  assert (H1 : schema_ok fresh = true) by reflexivity.
  assert (H2 : forall p, In p (fst (fst (crawlPDFs lower false visits))) ->
                 exists h c pages,
                   HashFile two_page_world p = Some h
                   /\ ExtractPagesText two_page_world p = Some (c :: pages)).
  { intros p Hp. vm_compute in Hp. destruct Hp as [<-|[]].
    eexists. eexists. eexists. split; vm_compute; reflexivity. }
  exact (conj H1 (conj H2 (runScanCommand_twice lower two_page_world false
                             visits no_fault (fun _ => Some 2%nat)
                             (fun _ => ticking) (fun _ => ticking) fresh
                             H1 H2))).
Defined.

Lemma checkHashes_selects_all_witness :
  let pdfFiles := ["a.pdf"%string; "missing.pdf"%string] in
  let r := checkHashes two_page_world no_fault scenario_B pdfFiles true in
  (true = true \/ pdfs scenario_B = [])
  /\ map Path (fst (fst r)) = filter (can_hash two_page_world) pdfFiles
  /\ List.length (snd r)
     = List.length (filter (fun p => negb (can_hash two_page_world p))
                           pdfFiles)
  /\ (forall info, In info (fst (fst r)) ->
        NeedsUpdate info = true
        /\ HashFile two_page_world (Path info) = Some (CurrentHash info)
        /\ GetStoredHash None scenario_B (Path info)
           = (StoredHash info, None)).
Proof.
  intros pdfFiles r.
  assert (H : true = true \/ pdfs scenario_B = []) by (left; reflexivity).
  exact (conj H (checkHashes_selects_all two_page_world scenario_B pdfFiles
                   true H)).
Defined.

Lemma formatFileSize_units_witness :
  - 2 ^ 63 <= 5000000 < 2 ^ 63
  /\ (5000000 < 1024 -> formatFileSize 5000000 = InBytes 5000000)
  /\ (1024 <= 5000000 ->
      exists k,
        1024 ^ (Z.of_nat k + 1) <= 5000000 < 1024 * 1024 ^ (Z.of_nat k + 1)
        /\ formatFileSize 5000000
           = match nth_error units k with
             | Some unit => InUnits 5000000 (1024 ^ (Z.of_nat k + 1)) unit
             | None => IndexOutOfRange k
             end
        /\ (5000000 < 2 ^ 50 <-> (k < 4)%nat)).
Proof.
  assert (H : - 2 ^ 63 <= 5000000 < 2 ^ 63) by (simpl; lia).
  exact (conj H (formatFileSize_units 5000000 H)).
Defined.

(** A database file of two pebibytes: the index leaves the four units. *)
Example formatFileSize_pebibytes :
  formatFileSize (2 ^ 51) = IndexOutOfRange 4.
Proof. vm_compute. reflexivity. Qed.

Example formatFileSize_megabytes :
  formatFileSize 5000000 = InUnits 5000000 (1024 * 1024) "MB".
Proof. vm_compute. reflexivity. Qed.

(* ================================================================= *)
(** * Further properties of the configuration *)

Lemma ancestor_succ fs k dir :
  ancestor fs (S k) dir = ancestor fs k (filepath_Dir fs dir).
Proof.
  unfold ancestor. apply Nat.iter_succ_r.
Qed.

Lemma ancestor_root fs dir :
  filepath_Dir fs dir = dir -> forall k, ancestor fs k dir = dir.
Proof.
  intros H k. induction k as [|k IH]; [reflexivity|].
  rewrite ancestor_succ, H. exact IH.
Qed.

(** The climb of [search_up]: it stops at the first ancestor that holds
    a database, and at the root when none does. *)
Lemma search_up_spec (fs : FileSystem) :
  forall (n fuel : nat) (dir : string),
    filepath_Dir fs (ancestor fs n dir) = ancestor fs n dir ->
    (n < fuel)%nat ->
    (forall k,
        (k <= n)%nat ->
        os_Stat fs (filepath_Join fs (ancestor fs k dir) dbName) = true ->
        (forall j, (j < k)%nat ->
           os_Stat fs (filepath_Join fs (ancestor fs j dir) dbName) = false) ->
        search_up fs fuel dir
        = Some (Some (filepath_Join fs (ancestor fs k dir) dbName)))
    /\ ((forall k, (k <= n)%nat ->
           os_Stat fs (filepath_Join fs (ancestor fs k dir) dbName) = false) ->
        search_up fs fuel dir = Some None).
Proof.
  induction n as [|n IH]; intros fuel dir Hroot Hfuel;
    (destruct fuel as [|fuel]; [lia|]); cbn [search_up].
  - cbn in Hroot. split.
    + intros k Hk Hs _. assert (k = 0)%nat by lia. subst k.
      cbn in Hs. rewrite Hs. reflexivity.
    + intros Hnone. pose proof (Hnone 0%nat (Nat.le_refl _)) as H0.
      cbn in H0. rewrite H0, Hroot, String.eqb_refl. reflexivity.
  - rewrite ancestor_succ in Hroot.
    destruct (IH fuel (filepath_Dir fs dir) Hroot ltac:(lia)) as [IHhit IHnone].
    split.
    + intros k Hk Hs Hbefore. destruct k as [|k].
      * cbn in Hs. rewrite Hs. reflexivity.
      * pose proof (Hbefore 0%nat ltac:(lia)) as H0. cbn in H0. rewrite H0.
        destruct (String.eqb_spec (filepath_Dir fs dir) dir) as [E|NE].
        -- rewrite (ancestor_root fs dir E (S k)) in Hs. congruence.
        -- rewrite ancestor_succ. apply IHhit.
           ++ lia.
           ++ rewrite <- ancestor_succ. exact Hs.
           ++ intros j Hj. rewrite <- ancestor_succ. apply Hbefore. lia.
    + intros Hnone. pose proof (Hnone 0%nat ltac:(lia)) as H0.
      cbn in H0. rewrite H0.
      destruct (String.eqb_spec (filepath_Dir fs dir) dir) as [E|NE];
        [reflexivity|].
      apply IHnone. intros k Hk. rewrite <- ancestor_succ.
      apply Hnone. lia.
Qed.

(** There is a nearest ancestor with a database, or there is none. *)
Lemma search_up_cases (fs : FileSystem) :
  forall (n fuel : nat) (dir : string),
    filepath_Dir fs (ancestor fs n dir) = ancestor fs n dir ->
    (n < fuel)%nat ->
    let db_in k := filepath_Join fs (ancestor fs k dir) dbName in
    (exists k, (k <= n)%nat /\ os_Stat fs (db_in k) = true
               /\ (forall j, (j < k)%nat -> os_Stat fs (db_in j) = false)
               /\ search_up fs fuel dir = Some (Some (db_in k)))
    \/ ((forall k, (k <= n)%nat -> os_Stat fs (db_in k) = false)
        /\ search_up fs fuel dir = Some None).
Proof.
  intros n fuel dir Hroot Hfuel db_in.
  destruct (search_up_spec fs n fuel dir Hroot Hfuel) as [Hhit Hnone].
  assert (Hleast :
    forall m, (m <= S n)%nat ->
      (exists k, (k < m)%nat /\ os_Stat fs (db_in k) = true
                 /\ forall j, (j < k)%nat -> os_Stat fs (db_in j) = false)
      \/ (forall k, (k < m)%nat -> os_Stat fs (db_in k) = false)).
  { induction m as [|m IHm]; intros Hm.
    - right. intros k Hk. lia.
    - destruct (IHm ltac:(lia)) as [(k & Hk & Hs & Hb)|Hno].
      + left. exists k. split; [lia|]. split; assumption.
      + destruct (os_Stat fs (db_in m)) eqn:Hs.
        * left. exists m. split; [lia|]. split; assumption.
        * right. intros k Hk.
          destruct (Nat.eq_dec k m) as [->|]; [assumption|].
          apply Hno. lia. }
  destruct (Hleast (S n) (Nat.le_refl _)) as [(k & Hk & Hs & Hb)|Hno].
  - left. exists k. split; [lia|]. split; [exact Hs|]. split; [exact Hb|].
    apply Hhit; [lia | exact Hs | exact Hb].
  - right. split.
    + intros k Hk. apply Hno. lia.
    + apply Hnone. intros k Hk. apply Hno. lia.
Qed.

(** X18.  The nearest database wins.  Let the working directory reach,
    after [n] steps to the parent, a directory that is its own parent.
    Then [FindExistingDBPath] ends; it sets [DBPath] to fts.db of the
    nearest ancestor (the working directory first) that holds one,
    whatever lies above it, and leaves [Verbose] alone; when no
    ancestor up to the root holds one it fails and leaves the
    configuration as it was; and it fails in no other case. *)
Theorem FindExistingDBPath_nearest :
  forall (fs : FileSystem) (fuel n : nat) (c : Config) (cwd : string),
    os_Getwd fs = Some cwd ->
    filepath_Dir fs (ancestor fs n cwd) = ancestor fs n cwd ->
    (n < fuel)%nat ->
    let db_in k := filepath_Join fs (ancestor fs k cwd) dbName in
    (forall k,
        (k <= n)%nat ->
        os_Stat fs (db_in k) = true ->
        (forall j, (j < k)%nat -> os_Stat fs (db_in j) = false) ->
        FindExistingDBPath fs fuel c
        = Some (mkConfig (db_in k) (Verbose c), None))
    /\ ((forall k, (k <= n)%nat -> os_Stat fs (db_in k) = false) ->
        FindExistingDBPath fs fuel c = Some (c, Some NoExistingDatabaseFound))
    /\ (exists c' err,
           FindExistingDBPath fs fuel c = Some (c', err)
           /\ Verbose c' = Verbose c
           /\ (err = None ->
               exists k, (k <= n)%nat /\ os_Stat fs (db_in k) = true
                         /\ DBPath c' = db_in k)
           /\ (err <> None -> c' = c)).
Proof.
  intros fs fuel n c cwd Hwd Hroot Hfuel db_in.
  destruct (search_up_spec fs n fuel cwd Hroot Hfuel) as [Hhit Hnone].
  unfold FindExistingDBPath. rewrite Hwd. split; [|split].
  - intros k Hk Hs Hb. rewrite (Hhit k Hk Hs Hb). reflexivity.
  - intros Hn. rewrite (Hnone Hn). reflexivity.
  - destruct (search_up_cases fs n fuel cwd Hroot Hfuel)
      as [(k & Hk & Hs & Hb & E)|[Hno E]]; rewrite E.
    + exists (mkConfig (db_in k) (Verbose c)), None.
      split; [reflexivity|]. split; [reflexivity|]. split.
      * intros _. exists k. split; [lia|]. split; [exact Hs|reflexivity].
      * intros H. congruence.
    + exists c, (Some NoExistingDatabaseFound).
      split; [reflexivity|]. split; [reflexivity|]. split.
      * discriminate.
      * reflexivity.
Qed.

(** X19.  What the scan command opens.  Under the same condition on
    the working directory, [FindOrCreateDBPath] ends; when an ancestor
    holds a database it answers as [FindExistingDBPath] does, without
    an error; when none does it answers as [CreateDBPath], with the
    absolute path of fts.db; and its only error is that of
    [filepath.Abs], which leaves the configuration as it was. *)
Theorem FindOrCreateDBPath_fallback :
  forall (fs : FileSystem) (fuel n : nat) (c : Config) (cwd : string),
    os_Getwd fs = Some cwd ->
    filepath_Dir fs (ancestor fs n cwd) = ancestor fs n cwd ->
    (n < fuel)%nat ->
    let db_in k := filepath_Join fs (ancestor fs k cwd) dbName in
    ((exists k, (k <= n)%nat /\ os_Stat fs (db_in k) = true) ->
     exists c',
       FindExistingDBPath fs fuel c = Some (c', None)
       /\ FindOrCreateDBPath fs fuel c = Some (c', None))
    /\ ((forall k, (k <= n)%nat -> os_Stat fs (db_in k) = false) ->
        FindOrCreateDBPath fs fuel c
        = Some (match filepath_Abs fs dbName with
                | Some absPath => (mkConfig absPath (Verbose c), None)
                | None => (c, Some FailedToCreateDatabasePath)
                end))
    /\ (exists c' err,
           FindOrCreateDBPath fs fuel c = Some (c', err)
           /\ Verbose c' = Verbose c
           /\ (err <> None ->
               err = Some FailedToCreateDatabasePath
               /\ filepath_Abs fs dbName = None /\ c' = c)).
Proof.
  intros fs fuel n c cwd Hwd Hroot Hfuel db_in.
  unfold FindOrCreateDBPath, FindExistingDBPath, CreateDBPath.
  rewrite Hwd.
  destruct (search_up_cases fs n fuel cwd Hroot Hfuel)
    as [(k & Hk & Hs & Hb & E)|[Hno E]]; rewrite E.
  - split; [|split].
    + intros _. eexists. split; reflexivity.
    + intros Hnone. specialize (Hnone k Hk). subst db_in.
      cbv beta in *. congruence.
    + eexists. exists None. split; [reflexivity|].
      split; [reflexivity|]. intros H. congruence.
  - split; [|split].
    + intros (k & Hk & Hs). specialize (Hno k Hk). subst db_in.
      cbv beta in *. congruence.
    + intros _. destruct (filepath_Abs fs dbName); reflexivity.
    + destruct (filepath_Abs fs dbName) as [absPath|].
      * eexists. exists None. split; [reflexivity|].
        split; [reflexivity|]. intros H. congruence.
      * exists c, (Some FailedToCreateDatabasePath).
        split; [reflexivity|]. split; [reflexivity|].
        intros _. repeat split.
Qed.

Lemma FindExistingDBPath_nearest_witness :
  let c := mkConfig EmptyString true in
  let db_in k :=
    filepath_Join small_tree (ancestor small_tree k "/home/u/docs") dbName in
  os_Getwd small_tree = Some "/home/u/docs"%string
  /\ filepath_Dir small_tree (ancestor small_tree 3 "/home/u/docs")
     = ancestor small_tree 3 "/home/u/docs"
  /\ (3 < 10)%nat
  /\ (forall k,
        (k <= 3)%nat ->
        os_Stat small_tree (db_in k) = true ->
        (forall j, (j < k)%nat -> os_Stat small_tree (db_in j) = false) ->
        FindExistingDBPath small_tree 10 c
        = Some (mkConfig (db_in k) (Verbose c), None))
  /\ ((forall k, (k <= 3)%nat -> os_Stat small_tree (db_in k) = false) ->
      FindExistingDBPath small_tree 10 c
      = Some (c, Some NoExistingDatabaseFound))
  /\ (exists c' err,
         FindExistingDBPath small_tree 10 c = Some (c', err)
         /\ Verbose c' = Verbose c
         /\ (err = None ->
             exists k, (k <= 3)%nat /\ os_Stat small_tree (db_in k) = true
                       /\ DBPath c' = db_in k)
         /\ (err <> None -> c' = c)).
Proof.
  intros c db_in.
  assert (H1 : os_Getwd small_tree = Some "/home/u/docs"%string)
    by reflexivity.
  assert (H2 : filepath_Dir small_tree (ancestor small_tree 3 "/home/u/docs")
               = ancestor small_tree 3 "/home/u/docs") by reflexivity.
  assert (H3 : (3 < 10)%nat) by lia.
  exact (conj H1 (conj H2 (conj H3
           (FindExistingDBPath_nearest small_tree 10 3 c "/home/u/docs"
              H1 H2 H3)))).
Defined.

Lemma FindOrCreateDBPath_fallback_witness :
  let c := mkConfig EmptyString false in
  let db_in k :=
    filepath_Join small_tree (ancestor small_tree k "/home/u/docs") dbName in
  os_Getwd small_tree = Some "/home/u/docs"%string
  /\ filepath_Dir small_tree (ancestor small_tree 3 "/home/u/docs")
     = ancestor small_tree 3 "/home/u/docs"
  /\ (3 < 10)%nat
  /\ ((exists k, (k <= 3)%nat /\ os_Stat small_tree (db_in k) = true) ->
      exists c',
        FindExistingDBPath small_tree 10 c = Some (c', None)
        /\ FindOrCreateDBPath small_tree 10 c = Some (c', None))
  /\ ((forall k, (k <= 3)%nat -> os_Stat small_tree (db_in k) = false) ->
      FindOrCreateDBPath small_tree 10 c
      = Some (match filepath_Abs small_tree dbName with
              | Some absPath => (mkConfig absPath (Verbose c), None)
              | None => (c, Some FailedToCreateDatabasePath)
              end))
  /\ (exists c' err,
         FindOrCreateDBPath small_tree 10 c = Some (c', err)
         /\ Verbose c' = Verbose c
         /\ (err <> None ->
             err = Some FailedToCreateDatabasePath
             /\ filepath_Abs small_tree dbName = None /\ c' = c)).
Proof.
  intros c db_in.
  assert (H1 : os_Getwd small_tree = Some "/home/u/docs"%string)
    by reflexivity.
  assert (H2 : filepath_Dir small_tree (ancestor small_tree 3 "/home/u/docs")
               = ancestor small_tree 3 "/home/u/docs") by reflexivity.
  assert (H3 : (3 < 10)%nat) by lia.
  exact (conj H1 (conj H2 (conj H3
           (FindOrCreateDBPath_fallback small_tree 10 3 c "/home/u/docs"
              H1 H2 H3)))).
Defined.

(** From /home/u/docs the database of /home is opened, not that of the
    root. *)
Example FindExistingDBPath_small_tree :
  FindExistingDBPath small_tree 10 (mkConfig EmptyString false)
  = Some (mkConfig "/home/fts.db" false, None).
Proof. vm_compute. reflexivity. Qed.

(* ================================================================= *)
(** * Further properties of the grouping *)

Lemma update_nth_length {A : Type} (f : A -> A) (l : list A) :
  forall i, List.length (update_nth i f l) = List.length l.
Proof.
  induction l as [|x l IH]; intros [|i]; simpl; auto.
Qed.

Lemma nth_update_nth {A : Type} (f : A -> A) (d : A) (l : list A) :
  forall i, (i < List.length l)%nat ->
            nth i (update_nth i f l) d = f (nth i l d).
Proof.
  induction l as [|x l IH]; intros [|i] H; simpl in *; try lia; auto.
  apply IH. lia.
Qed.

Lemma update_nth_last {A : Type} (f : A -> A) (l : list A) (x : A) :
  update_nth (List.length l) f (l ++ [x]) = l ++ [f x].
Proof.
  induction l as [|y l IH]; simpl; [reflexivity|]. now rewrite IH.
Qed.

Lemma nth_app_last {A : Type} (d : A) (l : list A) (x : A) :
  nth (List.length l) (l ++ [x]) d = x.
Proof.
  rewrite app_nth2 by lia. now rewrite Nat.sub_diag.
Qed.

Lemma grouped_pages_app (a b : list fileResult) :
  grouped_pages (a ++ b) = grouped_pages a ++ grouped_pages b.
Proof.
  unfold grouped_pages. apply flat_map_app.
Qed.

Lemma elements_all (st : GroupState) :
  List.length (nth (sl_array (groupedResults st)) (heap st) [])
  = sl_len (groupedResults st) ->
  elements st = nth (sl_array (groupedResults st)) (heap st) [].
Proof.
  intros H. unfold elements. rewrite <- H. apply firstn_all.
Qed.

Lemma group_inv_start : group_inv group_start [] [] None.
Proof.
  unfold group_inv, group_start, elements. cbn.
  repeat split; try (intros; tauto); try constructor; try lia;
    discriminate.
Qed.

(** A row of the current path: the pointer of the map reaches the last
    element of the slice. *)
Lemma group_step_same (grows : nat -> bool) (st : GroupState)
      (acc : list (string * pageResult)) (seen : list string)
      (r : SearchRow) :
  group_inv st acc seen (Some (row_path r)) ->
  exists st',
    group_step grows st r = Some st'
    /\ group_inv st' (acc ++ [page_of_row r]) (row_path r :: seen)
                 (Some (row_path r)).
Proof.
  intros (Harr & Hlen & Hacc & Hnd & Hseen & Hmap & Hcur & Hne).
  destruct (Hcur _ eq_refl) as (Hptr & front & g & Hel & Hg).
  unfold group_step. rewrite Hptr. rewrite Hptr. cbn [ptr_array ptr_index].
  eexists. split; [reflexivity|].
  pose proof (elements_all st Hlen) as Hall.
  assert (Hl : sl_len (groupedResults st) = S (List.length front)).
  { rewrite <- Hlen, <- Hall, Hel, length_app. simpl. lia. }
  set (pg := mkPageResult (row_page_num r) (row_snippet r)).
  set (g' := mkFileResult (fr_Path g) (fr_Pages g ++ [pg])).
  assert (Hel' :
    nth (sl_array (groupedResults st))
        (update_nth (sl_array (groupedResults st))
           (update_nth (sl_len (groupedResults st) - 1)
              (fun fr => mkFileResult (fr_Path fr) (fr_Pages fr ++ [pg])))
           (heap st)) []
    = front ++ [g']).
  { rewrite nth_update_nth by exact Harr.
    rewrite <- Hall, Hel, Hl.
    replace (S (List.length front) - 1)%nat with (List.length front) by lia.
    apply update_nth_last. }
  unfold group_inv. cbn [heap groupedResults resultMap].
  assert (Helem :
    elements
      (mkGroupState
         (update_nth (sl_array (groupedResults st))
            (update_nth (sl_len (groupedResults st) - 1)
               (fun fr => mkFileResult (fr_Path fr) (fr_Pages fr ++ [pg])))
            (heap st))
         (groupedResults st) (resultMap st))
    = front ++ [g']).
  { unfold elements. cbn [heap groupedResults]. rewrite Hel', Hl.
    replace (S (List.length front)) with (List.length (front ++ [g']))
      by (rewrite length_app; simpl; lia).
    apply firstn_all. }
  rewrite Helem.
  assert (Hin : In (row_path r) seen).
  { apply Hseen. rewrite Hel, map_app, in_app_iff. right. left. exact Hg. }
  assert (Hpaths : map fr_Path (front ++ [g'])
                   = map fr_Path (elements st)).
  { rewrite Hel, !map_app. reflexivity. }
  split; [now rewrite update_nth_length|].
  split.
  { rewrite Hel', Hl, length_app. simpl. lia. }
  split.
  { rewrite <- Hacc, Hel, !grouped_pages_app. unfold grouped_pages at 2 4.
    simpl. rewrite !app_nil_r, map_app, app_assoc. simpl.
    unfold page_of_row. rewrite Hg. reflexivity. }
  split; [now rewrite Hpaths|].
  split.
  { intros p. rewrite Hpaths, Hseen. simpl. split; [tauto|].
    intros [<-|H]; assumption. }
  split.
  { intros p. rewrite Hmap. simpl. split; [|tauto].
    intros H [<-|H']; tauto. }
  split.
  { intros p Hp. injection Hp as <-. split; [exact Hptr|].
    exists front, g'. split; [reflexivity | exact Hg]. }
  rewrite Hel in Hne. apply Forall_app in Hne as [Hf _].
  apply Forall_app. split; [exact Hf|].
  constructor; [|constructor]. simpl. intros H.
  apply app_eq_nil in H as [_ H]. discriminate.
Qed.

(** What [append] and the first Page of a new path leave in the slice,
    whether the slice has moved or not. *)
Lemma group_step_new_elements (grows : nat -> bool) (st : GroupState)
      (r : SearchRow) :
  (sl_array (groupedResults st) < List.length (heap st))%nat ->
  List.length (nth (sl_array (groupedResults st)) (heap st) [])
  = sl_len (groupedResults st) ->
  map_lookup (row_path r) (resultMap st) = None ->
  exists st',
    group_step grows st r = Some st'
    /\ (sl_array (groupedResults st') < List.length (heap st'))%nat
    /\ nth (sl_array (groupedResults st')) (heap st') []
       = elements st
           ++ [mkFileResult (row_path r)
                 [mkPageResult (row_page_num r) (row_snippet r)]]
    /\ sl_len (groupedResults st') = S (sl_len (groupedResults st))
    /\ resultMap st'
       = (row_path r,
          mkPointer (sl_array (groupedResults st'))
                    (sl_len (groupedResults st)))
           :: resultMap st.
Proof.
  intros Harr Hlen Hnone.
  pose proof (elements_all st Hlen) as Hall.
  assert (Hel : List.length (elements st) = sl_len (groupedResults st))
    by (now rewrite Hall).
  unfold group_step. rewrite Hnone.
  cbn [resultMap map_lookup]. rewrite String.eqb_refl.
  cbn [ptr_array ptr_index heap groupedResults].
  eexists. split; [reflexivity|].
  cbn [heap groupedResults resultMap].
  unfold append_file.
  destruct (grows (sl_len (groupedResults st)));
    cbn [heap groupedResults resultMap sl_array sl_len];
    replace (S (sl_len (groupedResults st)) - 1)%nat
      with (sl_len (groupedResults st)) by lia.
  - (* the slice has moved to a new array *)
    split; [rewrite update_nth_length, length_app; simpl; lia|].
    split.
    { rewrite nth_update_nth by (rewrite length_app; simpl; lia).
      rewrite nth_app_last, <- Hel, update_nth_last. reflexivity. }
    split; reflexivity.
  - (* the element has been written in place *)
    split; [now rewrite !update_nth_length|].
    split.
    { rewrite nth_update_nth by (now rewrite update_nth_length).
      rewrite nth_update_nth by exact Harr.
      rewrite <- Hel, update_nth_last. reflexivity. }
    split; reflexivity.
Qed.

(** A row of a path not met before: a new element, whose first Page it
    is. *)
Lemma group_step_new (grows : nat -> bool) (st : GroupState)
      (acc : list (string * pageResult)) (seen : list string)
      (current : option string) (r : SearchRow) :
  group_inv st acc seen current ->
  ~ In (row_path r) seen ->
  exists st',
    group_step grows st r = Some st'
    /\ group_inv st' (acc ++ [page_of_row r]) (row_path r :: seen)
                 (Some (row_path r)).
Proof.
  intros (Harr & Hlen & Hacc & Hnd & Hseen & Hmap & Hcur & Hne) Hnew.
  destruct (group_step_new_elements grows st r Harr Hlen
              (proj2 (Hmap _) Hnew))
    as (st' & Hstep & Harr' & Hnth & Hlen' & Hmap').
  exists st'. split; [exact Hstep|].
  set (g := mkFileResult (row_path r)
              [mkPageResult (row_page_num r) (row_snippet r)]) in *.
  assert (Hl : List.length (nth (sl_array (groupedResults st')) (heap st') [])
               = sl_len (groupedResults st')).
  { rewrite Hnth, Hlen', length_app, (elements_all st Hlen), Hlen.
    simpl. lia. }
  assert (Hel : elements st' = elements st ++ [g]).
  { rewrite (elements_all st' Hl). exact Hnth. }
  unfold group_inv. rewrite Hel.
  split; [exact Harr'|]. split; [exact Hl|].
  split.
  { rewrite grouped_pages_app, Hacc. reflexivity. }
  split.
  { rewrite map_app. simpl.
    apply NoDup_app_remove_l with (l := []). simpl.
    apply Permutation_NoDup with (l := row_path r :: map fr_Path (elements st)).
    - apply Permutation_cons_append.
    - constructor; [|exact Hnd]. rewrite Hseen. exact Hnew. }
  split.
  { intros p. rewrite map_app, in_app_iff, Hseen. simpl. tauto. }
  split.
  { intros p. rewrite Hmap'. cbn [map_lookup].
    destruct (String.eqb_spec p (row_path r)) as [->|NE].
    - split; [discriminate|]. intros H. exfalso. apply H. now left.
    - rewrite Hmap. simpl. split.
      + intros H [E|H']; [congruence | tauto].
      + tauto. }
  split.
  { intros p Hp. injection Hp as <-. split.
    - rewrite Hmap'. cbn [map_lookup]. rewrite String.eqb_refl.
      rewrite Hlen'. replace (S (sl_len (groupedResults st)) - 1)%nat
        with (sl_len (groupedResults st)) by lia. reflexivity.
    - exists (elements st), g. split; reflexivity. }
  apply Forall_app. split; [exact Hne|].
  constructor; [discriminate | constructor].
Qed.

Lemma group_loop_inv (grows : nat -> bool) :
  forall (rows : list SearchRow) (st : GroupState)
         (acc : list (string * pageResult)) (seen : list string)
         (current : option string),
    group_inv st acc seen current ->
    contiguous_from seen current rows ->
    exists st' seen' current',
      group_loop grows rows st = Some st'
      /\ group_inv st' (acc ++ map page_of_row rows) seen' current'
      /\ (forall p, In p seen' <-> In p seen \/ In p (map row_path rows)).
Proof.
  induction rows as [|r rows IH]; intros st acc seen current Hinv Hc.
  - exists st, seen, current. cbn. rewrite app_nil_r.
    split; [reflexivity|]. split; [exact Hinv|]. intros p. tauto.
  - destruct Hc as [Hhead Hrest].
    assert (Hstep : exists st1,
               group_step grows st r = Some st1
               /\ group_inv st1 (acc ++ [page_of_row r]) (row_path r :: seen)
                            (Some (row_path r))).
    { destruct Hhead as [->|Hnew].
      - now apply group_step_same.
      - now apply group_step_new with (current := current). }
    destruct Hstep as (st1 & Hstep & Hinv1).
    destruct (IH st1 _ _ _ Hinv1 Hrest)
      as (st' & seen' & current' & Hloop & Hinv' & Hseen').
    exists st', seen', current'. cbn [group_loop]. rewrite Hstep.
    split; [exact Hloop|]. split.
    + cbn [map]. rewrite <- app_assoc in Hinv'. exact Hinv'.
    + intros p. rewrite Hseen'. simpl. tauto.
Qed.

Lemma group_by_path_contiguous (grows : nat -> bool)
      (searchResults : list SearchRow) :
  contiguous searchResults ->
  exists groups,
    group_by_path grows searchResults = Some groups
    /\ grouped_pages groups = map page_of_row searchResults
    /\ NoDup (map fr_Path groups)
    /\ Forall (fun g => fr_Pages g <> []) groups
    /\ (forall p, In p (map fr_Path groups)
                  <-> In p (map row_path searchResults)).
Proof.
  intros Hc.
  destruct (group_loop_inv grows searchResults group_start [] [] None
              group_inv_start Hc)
    as (st & seen & current & Hloop & Hinv & Hseen).
  destruct Hinv as (_ & _ & Hacc & Hnd & Hpaths & _ & _ & Hne).
  exists (elements st). unfold group_by_path. rewrite Hloop.
  split; [reflexivity|]. split; [exact Hacc|]. split; [exact Hnd|].
  split; [exact Hne|].
  intros p. rewrite Hpaths, Hseen. simpl. tauto.
Qed.

(** Rows sorted by path, then page number, are contiguous. *)
Lemma sorted_contiguous_from :
  forall (rows : list SearchRow) (seen : list string)
         (current : option string),
    StronglySorted (fun a b => by_path_page a b = true) rows ->
    (forall p, In p seen ->
       current = Some p
       \/ forall r, In r rows -> String.ltb p (row_path r) = true) ->
    (forall c, current = Some c ->
       forall r, In r rows ->
         String.ltb c (row_path r) = true \/ c = row_path r) ->
    contiguous_from seen current rows.
Proof.
  induction rows as [|r rows IH]; intros seen current Hs Hseen Hcur;
    [exact I|].
  apply StronglySorted_inv in Hs. destruct Hs as [Hs Hall].
  rewrite Forall_forall in Hall.
  assert (Hle : forall r', In r' rows ->
                  String.ltb (row_path r) (row_path r') = true
                  \/ row_path r = row_path r').
  { intros r' Hr'. specialize (Hall r' Hr'). unfold by_path_page in Hall.
    rewrite orb_true_iff, andb_true_iff, String.eqb_eq in Hall. tauto. }
  assert (Hirr : forall s, String.ltb s s = true -> False).
  { intros s H. apply string_ltb_lt in H.
    pose proof (String.compare_antisym s s) as A. rewrite H in A.
    discriminate A. }
  assert (Htr : forall a b c, String.ltb a b = true ->
                  String.ltb b c = true -> String.ltb a c = true).
  { intros a b c. rewrite !string_ltb_lt.
    rewrite !OrderedTypeEx.String_as_OT.cmp_lt.
    apply OrderedTypeEx.String_as_OT.lt_trans. }
  split.
  - destruct (in_dec string_dec (row_path r) seen) as [Hin|Hout];
      [|now right].
    destruct (Hseen _ Hin) as [E|Hlt]; [now left|].
    exfalso. apply (Hirr (row_path r)). apply Hlt. now left.
  - apply IH; [exact Hs| |].
    + intros p [<-|Hp]; [now left|].
      destruct (string_dec p (row_path r)) as [->|NE]; [now left|].
      right. intros r' Hr'.
      assert (Hp_r : String.ltb p (row_path r) = true).
      { destruct (Hseen p Hp) as [E|Hlt].
        - destruct (Hcur p E r (or_introl eq_refl)) as [H|H];
            [exact H | contradiction].
        - apply Hlt. now left. }
      destruct (Hle r' Hr') as [H|<-]; [|exact Hp_r].
      now apply Htr with (b := row_path r).
    + intros c Hc r' Hr'. injection Hc as <-. now apply Hle.
Qed.

Lemma sorted_contiguous (rows : list SearchRow) :
  StronglySorted (fun a b => by_path_page a b = true) rows ->
  contiguous rows.
Proof.
  intros Hs. apply sorted_contiguous_from; [exact Hs| |].
  - intros p [].
  - discriminate.
Qed.

(** X20.  Grouping loses nothing when the rows of a path follow one
    another.  Whenever the runtime moves the slice and whenever it does
    not, the loop ends without a nil pointer; the Pages of the groups,
    read in order, are the rows in their order, each under its own
    path; no path has two groups and no group is empty. *)
Theorem group_by_path_lossless :
  forall (grows : nat -> bool) (searchResults : list SearchRow),
    contiguous searchResults ->
    exists groups,
      group_by_path grows searchResults = Some groups
      /\ grouped_pages groups = map page_of_row searchResults
      /\ NoDup (map fr_Path groups)
      /\ Forall (fun g => fr_Pages g <> []) groups
      /\ (forall p, In p (map fr_Path groups)
                    <-> In p (map row_path searchResults)).
Proof.
  intros grows searchResults. apply group_by_path_contiguous.
Qed.

Lemma group_by_path_lossless_witness :
  let searchResults :=
    [mkSearchRow "a.pdf" 1 "one" 0; mkSearchRow "a.pdf" 2 "two" 0;
     mkSearchRow "b.pdf" 1 "three" 0] in
  contiguous searchResults
  /\ exists groups,
      group_by_path grows_below_16 searchResults = Some groups
      /\ grouped_pages groups = map page_of_row searchResults
      /\ NoDup (map fr_Path groups)
      /\ Forall (fun g => fr_Pages g <> []) groups
      /\ (forall p, In p (map fr_Path groups)
                    <-> In p (map row_path searchResults)).
Proof.
  intros searchResults.
  assert (H : contiguous searchResults).
  { split; [right; intros []|]. split; [left; reflexivity|].
    split; [|exact I]. right. simpl. intuition discriminate. }
  exact (conj H (group_by_path_lossless grows_below_16 searchResults H)).
Defined.

(** Rows of a path that comes back: the slice has moved in between, the
    pointer of the map reaches the old array, and the Page is lost. *)
Example group_by_path_loses_a_page :
  group_by_path grows_below_16
    [mkSearchRow "a.pdf" 1 "one" 0; mkSearchRow "b.pdf" 1 "two" 0;
     mkSearchRow "a.pdf" 2 "three" 0]
  = Some [mkFileResult "a.pdf" [mkPageResult 1 "one"];
          mkFileResult "b.pdf" [mkPageResult 1 "two"]].
Proof. vm_compute. reflexivity. Qed.
